(** * The AAS object model of [basyx/aas/model/base.py]: namespaces,
      references and the synchronisation protocol.

    The Python program works on a graph of mutable objects.  The embedding
    keeps that graph in an explicit store: every element object and every
    [NamespaceSet] object has an address, attribute reads and writes go
    through the store, and the Python [is] comparison is equality of
    addresses.  Methods that mutate are state transformers that also say
    whether they returned or raised. *)

From Stdlib Require Import String Ascii List ZArith Bool Arith Lia Permutation.
Import ListNotations.
Open Scope string_scope.
Open Scope list_scope.

(* ================================================================== *)
(** ** Enumerations *)

Inductive IdentifierType := IT_IRDI | IT_IRI | IT_CUSTOM.

Inductive KeyElements :=
| _ASSET | ASSET_ADMINISTRATION_SHELL | CONCEPT_DESCRIPTION | SUBMODEL
| ACCESS_PERMISSION_RULE | ANNOTATED_RELATIONSHIP_ELEMENT | BASIC_EVENT_ELEMENT
| BLOB | CAPABILITY | CONCEPT_DICTIONARY | DATA_ELEMENT | ENTITY | EVENT_ELEMENT
| FILE | MULTI_LANGUAGE_PROPERTY | OPERATION | PROPERTY | RANGE
| REFERENCE_ELEMENT | RELATIONSHIP_ELEMENT | SUBMODEL_ELEMENT
| SUBMODEL_ELEMENT_COLLECTION | _VIEW
| GLOBAL_REFERENCE | FRAGMENT_REFERENCE.

Inductive KeyType := IRDI | IRI | CUSTOM | IDSHORT | FRAGMENT_ID.

(** [KeyType.is_local_key_type], which is also membership in
    [LOCAL_KEY_TYPES]. *)
Definition is_local_key_type (t : KeyType) : bool :=
  match t with IDSHORT | FRAGMENT_ID => true | _ => false end.

(** [KeyType(identifier_type.value)] and [IdentifierType(key_type.value)]:
    the two enumerations share the numbers 0, 1 and 2. *)
Definition KeyType_of_IdentifierType (t : IdentifierType) : KeyType :=
  match t with IT_IRDI => IRDI | IT_IRI => IRI | IT_CUSTOM => CUSTOM end.

Definition IdentifierType_of_KeyType (t : KeyType) : option IdentifierType :=
  match t with
  | IRDI => Some IT_IRDI | IRI => Some IT_IRI | CUSTOM => Some IT_CUSTOM
  | IDSHORT | FRAGMENT_ID => None
  end.

Definition IdentifierType_name (t : IdentifierType) : string :=
  match t with IT_IRDI => "IRDI" | IT_IRI => "IRI" | IT_CUSTOM => "CUSTOM" end.

Definition IdentifierType_eq_dec (a b : IdentifierType) : {a = b} + {a <> b}.
Proof. decide equality. Defined.

Definition KeyElements_eq_dec (a b : KeyElements) : {a = b} + {a <> b}.
Proof. decide equality. Defined.

Definition KeyType_eq_dec (a b : KeyType) : {a = b} + {a <> b}.
Proof. decide equality. Defined.

(* ================================================================== *)
(** ** Identity values *)

Record Identifier := mkIdentifier { id : string; id_type : IdentifierType }.

Record Key := mkKey { key_type : KeyElements; key_value : string; key_id_type : KeyType }.

(** A [Reference] is its tuple of keys; [Reference.__eq__] compares the
    tuples pairwise, which is equality of the lists. *)
Definition Reference := list Key.

Definition Identifier_eq_dec (a b : Identifier) : {a = b} + {a <> b}.
Proof. decide equality; [apply IdentifierType_eq_dec | apply string_dec]. Defined.

Definition Key_eq_dec (a b : Key) : {a = b} + {a <> b}.
Proof.
  decide equality;
    [apply KeyType_eq_dec | apply string_dec | apply KeyElements_eq_dec].
Defined.

(** [str(identifier)]: [Identifier] has no [__str__], so its [__repr__]. *)
Definition Identifier_str (i : Identifier) : string :=
  "Identifier(" ++ IdentifierType_name (id_type i) ++ "=" ++ id i ++ ")".

(* ================================================================== *)
(** ** Strings *)

(** The upper case of an ASCII letter; any other character is itself. *)
Definition ascii_upper (c : ascii) : ascii :=
  let n := nat_of_ascii c in
  if ((97 <=? n) && (n <=? 122))%nat then ascii_of_nat (n - 32) else c.

(** What [s.upper()] is for a [str] of ASCII characters. *)
Fixpoint upper_ascii (s : string) : string :=
  match s with
  | EmptyString => EmptyString
  | String c r => String (ascii_upper c) (upper_ascii r)
  end.

(** The [str] holds ASCII characters only. *)
Fixpoint is_ascii (s : string) : bool :=
  match s with
  | EmptyString => true
  | String c r => (nat_of_ascii c <? 128)%nat && is_ascii r
  end.

(** [str.upper] is a built-in of the interpreter and follows the case
    mappings of Unicode, which no file of the program holds.  The model
    takes it as it is given: a function on [str], of which one thing is
    used, that on ASCII text it changes the letters a to z and nothing
    else.  What it does to any other character is left to the interpreter. *)
Class PyRuntime : Type := {
  upper : string -> string;
  upper_on_ascii : forall s, is_ascii s = true -> upper s = upper_ascii s
}.

Definition is_ascii_letter (c : ascii) : bool :=
  let n := nat_of_ascii c in
  (((65 <=? n) && (n <=? 90)) || ((97 <=? n) && (n <=? 122)))%nat.

Definition is_ascii_digit (c : ascii) : bool :=
  let n := nat_of_ascii c in ((48 <=? n) && (n <=? 57))%nat.

(** One character of the class [[a-zA-Z0-9_]]. *)
Definition is_id_short_char (c : ascii) : bool :=
  is_ascii_letter c || is_ascii_digit c || Nat.eqb (nat_of_ascii c) 95.

(** [re.fullmatch("[a-zA-Z0-9_]*", s)]. *)
Fixpoint fullmatch_id_short (s : string) : bool :=
  match s with
  | EmptyString => true
  | String c r => is_id_short_char c && fullmatch_id_short r
  end.

(* ================================================================== *)
(** ** Values, objects and the store *)

Definition oid := nat.  (* address of an element object *)
Definition sid := nat.  (* address of a NamespaceSet object *)

(** The values that instance variables and index keys take. *)
Inductive pyval :=
| VNone
| VStr (s : string)
| VRef (r : Reference)
| VInt (z : Z)
| VSet (s : sid).

Definition pyval_eq_dec (a b : pyval) : {a = b} + {a <> b}.
Proof.
  decide equality;
    [apply string_dec | apply (list_eq_dec Key_eq_dec) | apply Z.eq_dec
    | apply Nat.eq_dec].
Defined.

Definition pyval_eqb (a b : pyval) : bool :=
  if pyval_eq_dec a b then true else false.

(** The classes of [base.py] that the code tests with [isinstance]; the
    concrete element classes live in other modules of the package. *)
Inductive PyClass :=
| Namespace | HasExtension | Referable | Identifiable | HasSemantics
| Extension | Qualifiable | Qualifier
| UniqueIdShortNamespace | UniqueSemanticIdNamespace
| Concrete (n : nat).

Definition PyClass_eq_dec (a b : PyClass) : {a = b} + {a <> b}.
Proof. decide equality; apply Nat.eq_dec. Defined.

(** An element object.  [o_mro] is [inspect.getmro(type(obj))]; the fields
    the module itself names are record fields, every other instance
    variable is an entry of [o_vars], in [vars(obj)] order. *)
Record Obj := mkObj {
  o_mro : list PyClass;
  o_id_short : string;                     (* _id_short *)
  o_parent : option oid;                   (* parent *)
  o_source : string;                       (* source *)
  o_identification : Identifier;           (* identification *)
  o_semantic_id : pyval;                   (* _semantic_id *)
  o_name : pyval;                          (* _name *)
  o_type : pyval;                          (* _type *)
  o_namespace_element_sets : list sid;     (* namespace_element_sets *)
  o_vars : list (string * pyval)
}.

(** A Python [dict] keeps insertion order; order is observable through
    iteration, so the indexes are association lists. *)
Definition pydict := list (pyval * oid).

(** A [NamespaceSet] object; [ns_order] is [_order], present exactly on an
    [OrderedNamespaceSet]. *)
Record NSet := mkNSet {
  ns_parent : oid;
  ns_backend : list (string * (pydict * bool));
  ns_order : option (list oid)
}.

(** A call received by a backend: which method, the [source] whose scheme
    selected the backend, and the three arguments. *)
Inductive CallKind := Commit | Update.

Record BackendCall := mkCall {
  call_kind : CallKind;
  call_source : string;
  call_object : oid;            (* committed_object / updated_object *)
  call_store_object : oid;      (* store_object *)
  call_relative_path : list string
}.

(** The store: the element objects, the [NamespaceSet] objects, and the
    log of the calls made to backends so far, oldest first. *)
Record Heap := mkHeap {
  objs : oid -> Obj;
  nsets : sid -> NSet;
  calls : list BackendCall
}.

Definition upd_obj (h : Heap) (o : oid) (x : Obj) : Heap :=
  mkHeap (fun o' => if Nat.eqb o' o then x else objs h o') (nsets h) (calls h).

Definition upd_set (h : Heap) (s : sid) (x : NSet) : Heap :=
  mkHeap (objs h) (fun s' => if Nat.eqb s' s then x else nsets h s') (calls h).

Definition log_call (c : BackendCall) (h : Heap) : Heap :=
  mkHeap (objs h) (nsets h) (calls h ++ [c]).

Definition set_o_parent (p : option oid) (o : Obj) : Obj :=
  mkObj (o_mro o) (o_id_short o) p (o_source o) (o_identification o)
        (o_semantic_id o) (o_name o) (o_type o) (o_namespace_element_sets o) (o_vars o).

Definition set_o_id_short (v : string) (o : Obj) : Obj :=
  mkObj (o_mro o) v (o_parent o) (o_source o) (o_identification o)
        (o_semantic_id o) (o_name o) (o_type o) (o_namespace_element_sets o) (o_vars o).

Definition set_o_source (v : string) (o : Obj) : Obj :=
  mkObj (o_mro o) (o_id_short o) (o_parent o) v (o_identification o)
        (o_semantic_id o) (o_name o) (o_type o) (o_namespace_element_sets o) (o_vars o).

Definition set_o_identification (v : Identifier) (o : Obj) : Obj :=
  mkObj (o_mro o) (o_id_short o) (o_parent o) (o_source o) v
        (o_semantic_id o) (o_name o) (o_type o) (o_namespace_element_sets o) (o_vars o).

Definition set_o_semantic_id (v : pyval) (o : Obj) : Obj :=
  mkObj (o_mro o) (o_id_short o) (o_parent o) (o_source o) (o_identification o)
        v (o_name o) (o_type o) (o_namespace_element_sets o) (o_vars o).

Definition set_o_name (v : pyval) (o : Obj) : Obj :=
  mkObj (o_mro o) (o_id_short o) (o_parent o) (o_source o) (o_identification o)
        (o_semantic_id o) v (o_type o) (o_namespace_element_sets o) (o_vars o).

Definition set_o_type (v : pyval) (o : Obj) : Obj :=
  mkObj (o_mro o) (o_id_short o) (o_parent o) (o_source o) (o_identification o)
        (o_semantic_id o) (o_name o) v (o_namespace_element_sets o) (o_vars o).

Definition set_o_namespace_element_sets (v : list sid) (o : Obj) : Obj :=
  mkObj (o_mro o) (o_id_short o) (o_parent o) (o_source o) (o_identification o)
        (o_semantic_id o) (o_name o) (o_type o) v (o_vars o).

Definition set_o_vars (v : list (string * pyval)) (o : Obj) : Obj :=
  mkObj (o_mro o) (o_id_short o) (o_parent o) (o_source o) (o_identification o)
        (o_semantic_id o) (o_name o) (o_type o) (o_namespace_element_sets o) v.

Definition set_ns_backend (b : list (string * (pydict * bool))) (s : NSet) : NSet :=
  mkNSet (ns_parent s) b (ns_order s).

Definition set_ns_order (l : option (list oid)) (s : NSet) : NSet :=
  mkNSet (ns_parent s) (ns_backend s) l.

(** [isinstance(obj, C)]. *)
Definition isinstance (o : Obj) (C : PyClass) : bool :=
  if in_dec PyClass_eq_dec C (o_mro o) then true else false.

Fixpoint assoc {B : Type} (k : string) (l : list (string * B)) : option B :=
  match l with
  | [] => None
  | (k', v) :: r => if String.eqb k' k then Some v else assoc k r
  end.

(** [d[k] = v] on an association list: an existing key keeps its place. *)
Fixpoint assoc_set {B : Type} (k : string) (v : B) (l : list (string * B))
  : list (string * B) :=
  match l with
  | [] => [(k, v)]
  | (k', v') :: r =>
      if String.eqb k' k then (k', v) :: r else (k', v') :: assoc_set k v r
  end.

(** [getattr(obj, name)], [None] standing for [AttributeError].  The four
    indexed attributes are properties over their backing fields. *)
Definition getattr (o : Obj) (name : string) : option pyval :=
  if (name =? "id_short") && isinstance o Referable then Some (VStr (o_id_short o))
  else if (name =? "semantic_id") && isinstance o HasSemantics then Some (o_semantic_id o)
  else if (name =? "name") && isinstance o Extension then Some (o_name o)
  else if (name =? "type") && isinstance o Qualifier then Some (o_type o)
  else assoc name (o_vars o).

(* ------------------------------------------------------------------ *)
(** Dictionaries *)

Fixpoint dict_get (k : pyval) (d : pydict) : option oid :=
  match d with
  | [] => None
  | (k', v) :: r => if pyval_eqb k' k then Some v else dict_get k r
  end.

Definition dict_mem (k : pyval) (d : pydict) : bool :=
  match dict_get k d with Some _ => true | None => false end.

Fixpoint dict_set (k : pyval) (v : oid) (d : pydict) : pydict :=
  match d with
  | [] => [(k, v)]
  | (k', v') :: r =>
      if pyval_eqb k' k then (k', v) :: r else (k', v') :: dict_set k v r
  end.

Fixpoint dict_del (k : pyval) (d : pydict) : pydict :=
  match d with
  | [] => []
  | (k', v') :: r => if pyval_eqb k' k then r else (k', v') :: dict_del k r
  end.

Definition dict_values (d : pydict) : list oid := map snd d.

(* ================================================================== *)
(** ** Exceptions and the state monad *)

Inductive ExnClass :=
| KeyError | ValueError | TypeError | IndexError | AttributeError
| NotImplementedError | StopIteration | AASConstraintViolation | AssertionError
| BackendError.

(** One constructor per [raise] of the module, with what the exception
    object or its message carries. *)
Inductive PyExn :=
| Key_value_empty                                   (* ValueError, Key.__init__ *)
| Constraint (constraint_id : nat)                  (* AASConstraintViolation *)
| Collision (attr_name : string) (value : pyval) (this_set : bool)
                                                    (* KeyError, NamespaceSet.add *)
| Already_has_parent                                (* ValueError, NamespaceSet.add *)
| Dict_KeyError (k : pyval)                         (* KeyError of a dict subscript *)
| Backend_KeyError (attribute_name : string)        (* KeyError of _backend[name] *)
| Not_in_NamespaceDict                              (* KeyError, NamespaceSet.remove *)
| No_attribute (name : string)                      (* AttributeError *)
| Stop_iteration                                    (* StopIteration of next() *)
| Present_in_parent (id_short : string)             (* KeyError, _set_id_short *)
| Not_in_namespace (attribute_name : string) (attribute : pyval)
                                                    (* KeyError, Namespace._get_object *)
| Cannot_be_added                                   (* ValueError, Namespace._add_object *)
| Keys_empty                                        (* IndexError, resolve *)
| Local_only_reference                              (* NotImplementedError, resolve *)
| Unresolved_global (identifier : Identifier)       (* KeyError, resolve *)
| Unresolved_id_short (value : string) (resolved_keys : list string)
                                                    (* KeyError, resolve *)
| Not_a_Namespace (resolved_keys : list string)     (* TypeError, resolve *)
| UnexpectedTypeError (value : oid)                 (* UnexpectedTypeError *)
| Not_embedded                                      (* ValueError, from_referable *)
| Type_not_implemented                              (* TypeError, update_nss_from *)
| Not_a_url (url : string)                          (* ValueError, get_backend *)
| No_backend (scheme : string)                      (* KeyError, get_backend *)
| List_IndexError                                   (* IndexError of a list *)
| List_ValueError                                   (* ValueError of a list *)
| Assertion_failed                                  (* AssertionError *)
| Backend_failure (code : nat)                      (* raised by a backend *)
| No_global_key                                     (* ValueError, get_identifier *)
| Popitem_empty                                     (* KeyError of dict.popitem *)
| Name_present_in_parent (name : string).           (* KeyError, Extension.name *)

Definition exn_class (e : PyExn) : ExnClass :=
  match e with
  | Key_value_empty | Already_has_parent | Cannot_be_added | Not_embedded
  | Not_a_url _ | List_ValueError | No_global_key => ValueError
  | Constraint _ => AASConstraintViolation
  | Collision _ _ _ | Dict_KeyError _ | Backend_KeyError _ | Not_in_NamespaceDict
  | Present_in_parent _ | Not_in_namespace _ _ | Unresolved_global _
  | Unresolved_id_short _ _ | No_backend _ | Popitem_empty
  | Name_present_in_parent _ => KeyError
  | No_attribute _ => AttributeError
  | Stop_iteration => StopIteration
  | Keys_empty | List_IndexError => IndexError
  | Local_only_reference => NotImplementedError
  | Not_a_Namespace _ | UnexpectedTypeError _ | Type_not_implemented => TypeError
  | Assertion_failed => AssertionError
  | Backend_failure _ => BackendError
  end.

Definition is_KeyError (e : PyExn) : bool :=
  match exn_class e with KeyError => true | _ => false end.

(** How a call ends: it returns, it raises, or the model ran out of the
    fuel that bounds its loops. *)
Inductive outcome (A : Type) :=
| Ret (a : A)
| Exc (e : PyExn)
| OutOfFuel.
Arguments Ret {A} a.
Arguments Exc {A} e.
Arguments OutOfFuel {A}.

Definition M (A : Type) := Heap -> Heap * outcome A.

Definition ret {A} (a : A) : M A := fun h => (h, Ret a).
Definition raise {A} (e : PyExn) : M A := fun h => (h, Exc e).

Definition bind {A B} (c : M A) (k : A -> M B) : M B :=
  fun h =>
    match c h with
    | (h', Ret a) => k a h'
    | (h', Exc e) => (h', Exc e)
    | (h', OutOfFuel) => (h', OutOfFuel)
    end.

Declare Scope py_scope.
Delimit Scope py_scope with py.
Notation "x <- c ;; k" := (bind c (fun x => k))
  (at level 61, c at next level, right associativity) : py_scope.
Notation "c ;;; k" := (bind c (fun _ => k))
  (at level 61, right associativity) : py_scope.
Open Scope py_scope.

Definition get_heap : M Heap := fun h => (h, Ret h).
Definition modify (f : Heap -> Heap) : M unit := fun h => (f h, Ret tt).

(** [try: c except Exception: handler; raise]. *)
Definition try_cleanup {A} (c : M A) (cleanup : M unit) : M A :=
  fun h =>
    match c h with
    | (h', Exc e) =>
        match cleanup h' with
        | (h'', Ret _) => (h'', Exc e)
        | (h'', Exc e') => (h'', Exc e')
        | (h'', OutOfFuel) => (h'', OutOfFuel)
        end
    | r => r
    end.

(** [for x in l: body(x)]. *)
Fixpoint for_each {A} (l : list A) (body : A -> M unit) : M unit :=
  match l with
  | [] => ret tt
  | x :: r => body x ;;; for_each r body
  end.

(* ================================================================== *)
(** ** NamespaceSet *)

(** Everything from here on runs on an interpreter [py]. *)
Section Model.

Context {py : PyRuntime}.

(** The case rule of an index applied to a value: upper-cased when the
    index is case-insensitive and the value is a [str]. *)
Definition fold_case (case_sensitive : bool) (v : pyval) : pyval :=
  match v with
  | VStr s => if case_sensitive then VStr s else VStr (upper s)
  | _ => v
  end.

(** [NamespaceSet._get_attribute]. *)
Definition _get_attribute (x : Obj) (attr_name : string) (case_sensitive : bool)
  : option pyval :=
  option_map (fold_case case_sensitive) (getattr x attr_name).

Definition Backend := list (string * (pydict * bool)).

(** [NamespaceSet.get_attribute_name_list]. *)
Definition get_attribute_name_list (S : NSet) : list string :=
  map fst (ns_backend S).

(** [NamespaceSet.contains_id]. *)
Definition contains_id (S : NSet) (attribute_name : string) (identifier : pyval)
  : bool :=
  match assoc attribute_name (ns_backend S) with
  | None => false
  | Some (backend, case_sensitive) =>
      dict_mem (fold_case case_sensitive identifier) backend
  end.

(** [NamespaceSet.__contains__]: membership is decided on the first
    attribute of [_backend] alone. *)
Definition NamespaceSet_contains (S : NSet) (x : oid) (ox : Obj) : outcome bool :=
  match ns_backend S with
  | [] => Exc Stop_iteration
  | (attr_name, (backend, case_sensitive)) :: _ =>
      match _get_attribute ox attr_name case_sensitive with
      | None => Ret false
      | Some attr_value =>
          Ret (match dict_get attr_value backend with
               | Some y => Nat.eqb y x
               | None => false
               end)
      end
  end.

(** [NamespaceSet.__iter__] and the override of [OrderedNamespaceSet]. *)
Definition NamespaceSet_iter (S : NSet) : outcome (list oid) :=
  match ns_backend S with
  | [] => Exc Stop_iteration
  | (_, (backend, _)) :: _ => Ret (dict_values backend)
  end.

Definition iter_set (S : NSet) : outcome (list oid) :=
  match ns_order S with
  | Some order => Ret order
  | None => NamespaceSet_iter S
  end.

(** [NamespaceSet.__len__]. *)
Definition NamespaceSet_len (S : NSet) : outcome nat :=
  match ns_backend S with
  | [] => Exc Stop_iteration
  | (_, (backend, _)) :: _ => Ret (length backend)
  end.

(** The collision scan of [add] over the attributes of one set: the first
    attribute the value carries whose folded value is already a key. *)
Fixpoint backend_collision (v : Obj) (b : Backend) : option (string * pyval) :=
  match b with
  | [] => None
  | (attr_name, (backend, case_sensitive)) :: r =>
      match getattr v attr_name with
      | Some a =>
          if dict_mem (fold_case case_sensitive a) backend
          then Some (attr_name, a)
          else backend_collision v r
      | None => backend_collision v r
      end
  end.

(** The same scan over [self.parent.namespace_element_sets]. *)
Fixpoint sets_collision (h : Heap) (v : Obj) (ss : list sid)
  : option (sid * (string * pyval)) :=
  match ss with
  | [] => None
  | s :: r =>
      match backend_collision v (ns_backend (nsets h s)) with
      | Some c => Some (s, c)
      | None => sets_collision h v r
      end
  end.

(** The last loop of [add]: enter the value under every attribute, in
    order; [getattr] raises at an attribute the value lacks, and what was
    entered before stays. *)
Fixpoint index_insert (x : oid) (ox : Obj) (b : Backend) : Backend * option PyExn :=
  match b with
  | [] => ([], None)
  | (attr_name, (backend, case_sensitive)) :: r =>
      match _get_attribute ox attr_name case_sensitive with
      | None => (b, Some (No_attribute attr_name))
      | Some k =>
          let (r', e) := index_insert x ox r in
          ((attr_name, (dict_set k x backend, case_sensitive)) :: r', e)
      end
  end.

(** [NamespaceSet.add]. *)
Definition NamespaceSet_add (self : sid) (value : oid) : M unit :=
  fun h =>
    let owner := ns_parent (nsets h self) in
    let v := objs h value in
    match sets_collision h v (o_namespace_element_sets (objs h owner)) with
    | Some (s, (attr_name, a)) => (h, Exc (Collision attr_name a (Nat.eqb s self)))
    | None =>
        let foreign :=
          match o_parent v with
          | Some p => negb (Nat.eqb p owner)
          | None => false
          end in
        if foreign then (h, Exc Already_has_parent)
        else
          let h1 := upd_obj h value (set_o_parent (Some owner) v) in
          let (b, e) := index_insert value (objs h1 value) (ns_backend (nsets h1 self)) in
          let h2 := upd_set h1 self (set_ns_backend b (nsets h1 self)) in
          match e with
          | Some e => (h2, Exc e)
          | None => (h2, Ret tt)
          end
    end.

Definition order_of (S : NSet) : list oid :=
  match ns_order S with Some l => l | None => [] end.

Definition set_order (self : sid) (l : list oid) : M unit :=
  modify (fun h => upd_set h self (set_ns_order (Some l) (nsets h self))).

(** [OrderedNamespaceSet.add]. *)
Definition OrderedNamespaceSet_add (self : sid) (value : oid) : M unit :=
  NamespaceSet_add self value ;;;
  h <- get_heap ;;
  set_order self (order_of (nsets h self) ++ [value]).

(** [set_.add(value)] by the class of the receiver. *)
Definition add (self : sid) (value : oid) : M unit :=
  fun h =>
    match ns_order (nsets h self) with
    | None => NamespaceSet_add self value h
    | Some _ => OrderedNamespaceSet_add self value h
    end.

(** The first loop of [remove]: every index is subscripted with the item's
    key, and the item counts as found when any index holds it there. *)
Fixpoint remove_check (x : oid) (ox : Obj) (b : Backend) (item_found : bool)
  : outcome bool :=
  match b with
  | [] => Ret item_found
  | (attr_name, (backend, case_sensitive)) :: r =>
      match _get_attribute ox attr_name case_sensitive with
      | None => Exc (No_attribute attr_name)
      | Some k =>
          match dict_get k backend with
          | None => Exc (Dict_KeyError k)
          | Some y => remove_check x ox r (item_found || Nat.eqb y x)
          end
      end
  end.

(** The last loop of [remove]: [del backend[key]] in every index. *)
Fixpoint index_delete (ox : Obj) (b : Backend) : Backend * option PyExn :=
  match b with
  | [] => ([], None)
  | (attr_name, (backend, case_sensitive)) :: r =>
      match _get_attribute ox attr_name case_sensitive with
      | None => (b, Some (No_attribute attr_name))
      | Some k =>
          if dict_mem k backend then
            let (r', e) := index_delete ox r in
            ((attr_name, (dict_del k backend, case_sensitive)) :: r', e)
          else (b, Some (Dict_KeyError k))
      end
  end.

(** [NamespaceSet.remove]. *)
Definition NamespaceSet_remove (self : sid) (item : oid) : M unit :=
  fun h =>
    match remove_check item (objs h item) (ns_backend (nsets h self)) false with
    | Exc e => (h, Exc e)
    | OutOfFuel => (h, OutOfFuel)
    | Ret false => (h, Exc Not_in_NamespaceDict)
    | Ret true =>
        let h1 := upd_obj h item (set_o_parent None (objs h item)) in
        let (b, e) := index_delete (objs h1 item) (ns_backend (nsets h1 self)) in
        let h2 := upd_set h1 self (set_ns_backend b (nsets h1 self)) in
        match e with
        | Some e => (h2, Exc e)
        | None => (h2, Ret tt)
        end
    end.

(** [list.remove(x)]: the first occurrence goes, [ValueError] without one. *)
Fixpoint list_remove (x : oid) (l : list oid) : option (list oid) :=
  match l with
  | [] => None
  | y :: r => if Nat.eqb y x then Some r
              else option_map (cons y) (list_remove x r)
  end.

(** [OrderedNamespaceSet.remove], called with an object. *)
Definition OrderedNamespaceSet_remove (self : sid) (item : oid) : M unit :=
  NamespaceSet_remove self item ;;;
  h <- get_heap ;;
  match list_remove item (order_of (nsets h self)) with
  | Some l => set_order self l
  | None => raise List_ValueError
  end.

Definition remove (self : sid) (item : oid) : M unit :=
  fun h =>
    match ns_order (nsets h self) with
    | None => NamespaceSet_remove self item h
    | Some _ => OrderedNamespaceSet_remove self item h
    end.

(** [NamespaceSet.discard]. *)
Definition discard (self : sid) (x : oid) : M unit :=
  fun h =>
    match NamespaceSet_contains (nsets h self) x (objs h x) with
    | Exc e => (h, Exc e)
    | OutOfFuel => (h, OutOfFuel)
    | Ret false => (h, Ret tt)
    | Ret true => remove self x h
    end.

(** [value.parent = None] for every value of every index. *)
Definition clear_parents (l : list oid) (h : Heap) : Heap :=
  fold_left (fun h x => upd_obj h x (set_o_parent None (objs h x))) l h.

Definition backend_values (b : Backend) : list oid :=
  flat_map (fun e => dict_values (fst (snd e))) b.

Definition backend_cleared (b : Backend) : Backend :=
  map (fun e => (fst e, (@nil (pyval * oid), snd (snd e)))) b.

(** [NamespaceSet.clear]. *)
Definition NamespaceSet_clear (self : sid) : M unit :=
  modify (fun h =>
    let h1 := clear_parents (backend_values (ns_backend (nsets h self))) h in
    upd_set h1 self (set_ns_backend (backend_cleared (ns_backend (nsets h1 self)))
                                    (nsets h1 self))).

(** [OrderedNamespaceSet.clear]. *)
Definition OrderedNamespaceSet_clear (self : sid) : M unit :=
  NamespaceSet_clear self ;;; set_order self [].

Definition clear (self : sid) : M unit :=
  fun h =>
    match ns_order (nsets h self) with
    | None => NamespaceSet_clear self h
    | Some _ => OrderedNamespaceSet_clear self h
    end.

(** The dict [_backend] built from [attribute_names]. *)
Fixpoint init_backend (attribute_names : list (string * bool)) (b : Backend) : Backend :=
  match attribute_names with
  | [] => b
  | (name, case_sensitive) :: r =>
      init_backend r (assoc_set name ([], case_sensitive) b)
  end.

(** The first lines of [NamespaceSet.__init__] on the freshly allocated
    object [self]: the set records its owner, enters the owner's
    [namespace_element_sets] and gets its empty indexes.
    [OrderedNamespaceSet.__init__] is the same after [self._order = []],
    which is [ordered = true]. *)
Definition NamespaceSet_register (self : sid) (ordered : bool) (parent : oid)
           (attribute_names : list (string * bool)) (h : Heap) : Heap :=
  let p := objs h parent in
  let h1 := upd_obj h parent
              (set_o_namespace_element_sets (o_namespace_element_sets p ++ [self]) p) in
  upd_set h1 self (mkNSet parent (init_backend attribute_names [])
                          (if ordered then Some [] else None)).

(** [NamespaceSet.__init__]: the items are added one by one, and any
    exception clears the set before it is raised again. *)
Definition NamespaceSet_init (self : sid) (ordered : bool) (parent : oid)
           (attribute_names : list (string * bool)) (items : list oid) : M unit :=
  modify (NamespaceSet_register self ordered parent attribute_names) ;;;
  try_cleanup (for_each items (add self)) (clear self).

(** [NamespaceSet.get_object_by_attribute]. *)
Definition get_object_by_attribute (S : NSet) (attribute_name : string)
           (attribute_value : pyval) : outcome oid :=
  match assoc attribute_name (ns_backend S) with
  | None => Exc (Backend_KeyError attribute_name)
  | Some (backend, case_sensitive) =>
      let key :=
        if case_sensitive then Some attribute_value
        else match attribute_value with
             | VStr s => Some (VStr (upper s))
             | _ => None
             end in
      match key with
      | None => Exc (No_attribute "upper")
      | Some k =>
          match dict_get k backend with
          | Some x => Ret x
          | None => Exc (Dict_KeyError k)
          end
      end
  end.

(** [Namespace._get_object]: the first set that knows the attribute and
    holds the value answers; a [KeyError] moves on to the next set. *)
Fixpoint _get_object (h : Heap) (ss : list sid) (attribute_name : string)
         (attribute : pyval) : outcome oid :=
  match ss with
  | [] => Exc (Not_in_namespace attribute_name attribute)
  | s :: r =>
      match get_object_by_attribute (nsets h s) attribute_name attribute with
      | Ret x => Ret x
      | Exc e => if is_KeyError e then _get_object h r attribute_name attribute
                 else Exc e
      | OutOfFuel => OutOfFuel
      end
  end.

(** [UniqueIdShortNamespace.get_referable]. *)
Definition get_referable (h : Heap) (namespace : oid) (id_short : string) : outcome oid :=
  _get_object h (o_namespace_element_sets (objs h namespace)) "id_short" (VStr id_short).

(** [Namespace._add_object], behind [add_referable], [add_qualifier] and
    [add_extension]. *)
Fixpoint _add_object_in (ss : list sid) (attribute_name : string) (obj : oid) : M unit :=
  match ss with
  | [] => raise Cannot_be_added
  | s :: r =>
      fun h =>
        if in_dec string_dec attribute_name (get_attribute_name_list (nsets h s))
        then add s obj h
        else _add_object_in r attribute_name obj h
  end.

Definition add_referable (namespace : oid) (referable : oid) : M unit :=
  fun h => _add_object_in (o_namespace_element_sets (objs h namespace))
                          "id_short" referable h.

(* ================================================================== *)
(** ** Renaming an indexed element: [Referable._set_id_short] *)

(** [str.isalpha] of the first character; the value has passed
    [fullmatch_id_short] by then, so only ASCII letters count. *)
Definition starts_with_letter (s : string) : bool :=
  match s with
  | EmptyString => false
  | String c _ => is_ascii_letter c
  end.

(** The second loop of the setter: every set of the parent that contains
    the element is remembered and the element is discarded from it. *)
Fixpoint detach (self : oid) (ss : list sid) (set_add_list : list sid) : M (list sid) :=
  match ss with
  | [] => ret set_add_list
  | set_ :: r =>
      fun h =>
        match NamespaceSet_contains (nsets h set_) self (objs h self) with
        | Ret true => (discard set_ self ;;; detach self r (set_add_list ++ [set_])) h
        | Ret false => detach self r set_add_list h
        | Exc e => (h, Exc e)
        | OutOfFuel => (h, OutOfFuel)
        end
  end.

Definition write_id_short (self : oid) (id_short : string) : M unit :=
  modify (fun h => upd_obj h self (set_o_id_short id_short (objs h self))).

(** [Referable._set_id_short], the setter of the property [id_short]. *)
Definition _set_id_short (self : oid) (id_short : string) : M unit :=
  fun h =>
    let o := objs h self in
    if String.eqb id_short (o_id_short o) then (h, Ret tt)
    else if String.eqb id_short "" then (h, Exc (Constraint 100))
    else if negb (fullmatch_id_short id_short) then (h, Exc (Constraint 2))
    else if negb (starts_with_letter id_short) then (h, Exc (Constraint 2))
    else
      match o_parent o with
      | Some parent =>
          let sets := o_namespace_element_sets (objs h parent) in
          if existsb (fun set_ => contains_id (nsets h set_) "id_short" (VStr id_short)) sets
          then (h, Exc (Present_in_parent id_short))
          else
            (set_add_list <- detach self sets [] ;;
             write_id_short self id_short ;;;
             for_each set_add_list (fun set_ => add set_ self) ;;;
             write_id_short self id_short) h
      | None => write_id_short self id_short h
      end.

(* ================================================================== *)
(** ** Keys and references *)

(** [Key.__init__]. *)
Definition Key_init (type_ : KeyElements) (value : string) (id_type : KeyType)
  : outcome Key :=
  if String.eqb value "" then Exc Key_value_empty
  else
    match type_ with
    | GLOBAL_REFERENCE =>
        if is_local_key_type id_type then Exc (Constraint 80)
        else Ret (mkKey type_ value id_type)
    | ASSET_ADMINISTRATION_SHELL =>
        if is_local_key_type id_type then Exc (Constraint 81)
        else Ret (mkKey type_ value id_type)
    | _ => Ret (mkKey type_ value id_type)
    end.

(** [Key.get_identifier]. *)
Definition Key_get_identifier (k : Key) : option Identifier :=
  match IdentifierType_of_KeyType (key_id_type k) with
  | Some t => Some (mkIdentifier (key_value k) t)
  | None => None
  end.

(** An [AASReference]: the keys and the class [type]. *)
Record AASReference := mkAASReference { ref_key : list Key; ref_type : PyClass }.

Definition dummy_key : Key := mkKey PROPERTY "" IDSHORT.

(** [next(i for i in reversed(range(len(self.key)))
          if self.key[i].get_identifier())]. *)
Definition last_identifier_index (key : list Key) : option nat :=
  find (fun i => match Key_get_identifier (nth i key dummy_key) with
                 | Some _ => true
                 | None => false
                 end)
       (rev (seq 0 (length key))).

(** The loop of [resolve] over the keys after the identifier key.
    [resolved_keys] is the list the error messages join with [" / "]. *)
Fixpoint follow_keys (h : Heap) (resolved_keys : list string) (keys : list Key)
         (item : oid) : outcome oid :=
  match keys with
  | [] => Ret item
  | key :: r =>
      if negb (isinstance (objs h item) UniqueIdShortNamespace)
      then Exc (Not_a_Namespace resolved_keys)
      else
        match get_referable h item (key_value key) with
        | Ret x => follow_keys h resolved_keys r x
        | Exc e =>
            if is_KeyError e
            then Exc (Unresolved_id_short (key_value key) resolved_keys)
            else Exc e
        | OutOfFuel => OutOfFuel
        end
  end.

(** [AASReference.resolve]; the provider is its [get_identifiable], with
    [None] for its [KeyError]. *)
Definition resolve (self : AASReference) (provider_ : Identifier -> option oid)
           (h : Heap) : outcome oid :=
  match ref_key self with
  | [] => Exc Keys_empty
  | _ :: _ =>
      match last_identifier_index (ref_key self) with
      | None => Exc Local_only_reference
      | Some last_identifier_index =>
          match Key_get_identifier (nth last_identifier_index (ref_key self) dummy_key) with
          | None => Exc Local_only_reference
          | Some identifier =>
              match provider_ identifier with
              | None => Exc (Unresolved_global identifier)
              | Some item =>
                  let resolved_keys := [Identifier_str identifier] in
                  match follow_keys h resolved_keys
                                    (skipn (S last_identifier_index) (ref_key self)) item with
                  | Ret item =>
                      if isinstance (objs h item) (ref_type self) then Ret item
                      else Exc (UnexpectedTypeError item)
                  | r => r
                  end
              end
          end
      end
  end.

Section KeyElementsClasses.

(** The table [KEY_ELEMENTS_CLASSES] belongs to the package's
    [__init__.py]; the functions below only look classes up in it. *)
Variable KEY_ELEMENTS_CLASSES : PyClass -> option KeyElements.

Definition in_KEY_ELEMENTS_CLASSES (t : PyClass) : bool :=
  match KEY_ELEMENTS_CLASSES t with Some _ => true | None => false end.

(** The [type] a key gets in [Key.from_referable]: the entry of the first
    class of the MRO that the table knows, [PROPERTY] when it knows none. *)
Definition class_key_type (referable : Obj) : KeyElements :=
  match find in_KEY_ELEMENTS_CLASSES (o_mro referable) with
  | Some t => match KEY_ELEMENTS_CLASSES t with
              | Some k => k
              | None => PROPERTY
              end
  | None => PROPERTY
  end.

(** [Key.from_referable]. *)
Definition Key_from_referable (referable : Obj) : outcome Key :=
  let key_type := class_key_type referable in
  if isinstance referable Identifiable
  then Key_init key_type (id (o_identification referable))
                (KeyType_of_IdentifierType (id_type (o_identification referable)))
  else Key_init key_type (o_id_short referable) IDSHORT.

(** The [while True] loop of [AASReference.from_referable]; [keys] is the
    list built so far, last appended key first. *)
Fixpoint from_referable_loop (fuel : nat) (h : Heap) (ref_type : PyClass)
         (ref : oid) (keys : list Key) : outcome AASReference :=
  match fuel with
  | O => OutOfFuel
  | S fuel' =>
      match Key_from_referable (objs h ref) with
      | Exc e => Exc e
      | OutOfFuel => OutOfFuel
      | Ret k =>
          let keys := k :: keys in
          if isinstance (objs h ref) Identifiable
          then Ret (mkAASReference keys ref_type)
          else
            match o_parent (objs h ref) with
            | None => Exc Not_embedded
            | Some parent =>
                if isinstance (objs h parent) Referable
                then from_referable_loop fuel' h ref_type parent keys
                else Exc Not_embedded
            end
      end
  end.

(** [AASReference.from_referable]. *)
Definition from_referable (fuel : nat) (h : Heap) (referable : oid)
  : outcome AASReference :=
  let ref_type :=
    match find in_KEY_ELEMENTS_CLASSES (o_mro (objs h referable)) with
    | Some t => t
    | None => Referable
    end in
  from_referable_loop fuel h ref_type referable [].

End KeyElementsClasses.
(* ================================================================== *)
(** ** Backends ([backends.py]) *)

(** A backend class: its two class methods.  What they do is up to the
    backend; here they are transformers of the store that may raise. *)
Record BackendImpl := mkBackend {
  commit_object : oid -> oid -> list string -> M unit;
  update_object : oid -> oid -> list string -> M unit
}.

Definition is_scheme_char (c : ascii) : bool :=
  let n := nat_of_ascii c in
  is_ascii_letter c || Nat.eqb n 43 || Nat.eqb n 45 || Nat.eqb n 46.

(** The rest of a match of [[a-zA-Z+\-\.]*:]: the characters before the
    colon. *)
Fixpoint scheme_rest (s : string) : option string :=
  match s with
  | EmptyString => None
  | String c r =>
      if Nat.eqb (nat_of_ascii c) 58 then Some EmptyString
      else if is_scheme_char c then option_map (String c) (scheme_rest r)
      else None
  end.

(** Group 1 of [RE_URI_SCHEME.match(url)]. *)
Definition uri_scheme (url : string) : option string :=
  match url with
  | EmptyString => None
  | String c r =>
      if is_ascii_letter c then option_map (String c) (scheme_rest r) else None
  end.

(** [register_backend] on the registry [_backends_map]. *)
Definition register_backend (scheme : string) (backend_class : BackendImpl)
           (_backends_map : list (string * BackendImpl)) : list (string * BackendImpl) :=
  assoc_set scheme backend_class _backends_map.

Section Synchronisation.

(** The registry as it stands while the calls below run. *)
Variable _backends_map : list (string * BackendImpl).

(** [get_backend]. *)
Definition get_backend (url : string) : outcome BackendImpl :=
  match uri_scheme url with
  | None => Exc (Not_a_url url)
  | Some scheme =>
      match assoc scheme _backends_map with
      | Some b => Ret b
      | None => Exc (No_backend scheme)
      end
  end.

(** [backends.get_backend(source).commit_object(...)]; the call is logged
    when the backend receives it. *)
Definition call_commit (source : string) (committed_object store_object : oid)
           (relative_path : list string) : M unit :=
  match get_backend source with
  | Ret b =>
      modify (log_call (mkCall Commit source committed_object store_object relative_path)) ;;;
      commit_object b committed_object store_object relative_path
  | Exc e => raise e
  | OutOfFuel => fun h => (h, OutOfFuel)
  end.

Definition call_update (source : string) (updated_object store_object : oid)
           (relative_path : list string) : M unit :=
  match get_backend source with
  | Ret b =>
      modify (log_call (mkCall Update source updated_object store_object relative_path)) ;;;
      update_object b updated_object store_object relative_path
  | Exc e => raise e
  | OutOfFuel => fun h => (h, OutOfFuel)
  end.

Definition out_of_fuel {A} : M A := fun h => (h, OutOfFuel).

(** The children a recursive call visits: the members of every set of the
    namespace that is indexed by [id_short], set after set. *)
Definition for_each_child (self : oid) (body : oid -> M unit) : M unit :=
  fun h =>
    if isinstance (objs h self) UniqueIdShortNamespace then
      for_each (o_namespace_element_sets (objs h self))
        (fun namespace_set h =>
           if in_dec string_dec "id_short"
                     (get_attribute_name_list (nsets h namespace_set))
           then
             match iter_set (nsets h namespace_set) with
             | Ret referables => for_each referables body h
             | Exc e => (h, Exc e)
             | OutOfFuel => (h, OutOfFuel)
             end
           else (h, Ret tt)) h
    else (h, Ret tt).

(** [Referable._direct_source_commit]. *)
Fixpoint _direct_source_commit (fuel : nat) (self : oid) : M unit :=
  match fuel with
  | O => out_of_fuel
  | S fuel' =>
      (fun h =>
         if String.eqb (o_source (objs h self)) "" then (h, Ret tt)
         else call_commit (o_source (objs h self)) self self [] h) ;;;
      for_each_child self (_direct_source_commit fuel')
  end.

(** The [while current_ancestor] loop of [commit]. *)
Fixpoint commit_loop (fuel : nat) (self : oid) (current_ancestor : option oid)
         (relative_path : list string) : M unit :=
  match current_ancestor with
  | None => ret tt
  | Some ancestor =>
      match fuel with
      | O => out_of_fuel
      | S fuel' =>
          fun h =>
            if negb (isinstance (objs h ancestor) Referable)
            then (h, Exc Assertion_failed)
            else
              ((fun h =>
                  if String.eqb (o_source (objs h ancestor)) "" then (h, Ret tt)
                  else call_commit (o_source (objs h ancestor)) self ancestor
                                   relative_path h) ;;;
               (fun h =>
                  commit_loop fuel' self (o_parent (objs h ancestor))
                              (o_id_short (objs h ancestor) :: relative_path) h)) h
      end
  end.

(** [Referable.commit]. *)
Definition commit (fuel : nat) (self : oid) : M unit :=
  (fun h => commit_loop fuel self (o_parent (objs h self))
                        [o_id_short (objs h self)] h) ;;;
  _direct_source_commit fuel self.

(** The loop of [find_source]; [relative_path] is the list as appended to,
    reversed on return. *)
Fixpoint find_source_loop (fuel : nat) (h : Heap) (referable : oid)
         (relative_path : list string) : outcome (option (oid * list string)) :=
  match fuel with
  | O => OutOfFuel
  | S fuel' =>
      if negb (String.eqb (o_source (objs h referable)) "")
      then Ret (Some (referable, rev relative_path))
      else
        match o_parent (objs h referable) with
        | Some parent =>
            if isinstance (objs h parent) Referable
            then find_source_loop fuel' h parent
                                  (relative_path ++ [o_id_short (objs h parent)])
            else Exc Assertion_failed
        | None => Ret None
        end
  end.

(** [Referable.find_source]. *)
Definition find_source (fuel : nat) (h : Heap) (self : oid)
  : outcome (option (oid * list string)) :=
  find_source_loop fuel h self [o_id_short (objs h self)].

(** [Referable.update]; [max_age] is not read by the method. *)
Fixpoint update (fuel : nat) (self : oid) (recursive : bool) (_indirect_source : bool)
  : M unit :=
  match fuel with
  | O => out_of_fuel
  | S fuel' =>
      (fun h =>
         if negb _indirect_source then
           if negb (String.eqb (o_source (objs h self)) "")
           then call_update (o_source (objs h self)) self self [] h
           else (h, Ret tt)
         else
           if negb (String.eqb (o_source (objs h self)) "")
           then call_update (o_source (objs h self)) self self [] h
           else
             match find_source fuel h self with
             | Ret (Some (store_object, relative_path)) =>
                 call_update (o_source (objs h store_object)) self store_object
                             relative_path h
             | Ret None => (h, Ret tt)
             | Exc e => (h, Exc e)
             | OutOfFuel => (h, OutOfFuel)
             end) ;;;
      if recursive
      then for_each_child self (fun referable => update fuel' referable true false)
      else ret tt
  end.

End Synchronisation.
(* ================================================================== *)
(** ** Python lists and slices, as [_order] uses them *)

Record slice := mkSlice {
  slice_start : option Z;
  slice_stop : option Z;
  slice_step : option Z
}.

(** A position [i] of a list of length [len], counted from the end when
    negative; [None] outside the list. *)
Definition norm_index (len : nat) (i : Z) : option nat :=
  let j := if (i <? 0)%Z then (i + Z.of_nat len)%Z else i in
  if ((0 <=? j) && (j <? Z.of_nat len))%Z then Some (Z.to_nat j) else None.

(** [l[i]]. *)
Definition list_getitem (l : list oid) (i : Z) : option oid :=
  match norm_index (length l) i with
  | Some n => nth_error l n
  | None => None
  end.

(** [l.insert(i, x)]: the position is clipped into the list. *)
Definition list_insert (l : list oid) (i : Z) (x : oid) : list oid :=
  let len := Z.of_nat (length l) in
  let j := if (i <? 0)%Z then Z.max 0 (i + len) else Z.min i len in
  firstn (Z.to_nat j) l ++ x :: skipn (Z.to_nat j) l.

(** [l[i] = x]. *)
Definition list_setitem (l : list oid) (i : Z) (x : oid) : option (list oid) :=
  match norm_index (length l) i with
  | Some n => Some (firstn n l ++ x :: skipn (S n) l)
  | None => None
  end.

(** [slice.indices(len)]: start, stop and step; [None] for a zero step. *)
Definition slice_indices (s : slice) (len : nat) : option (Z * Z * Z) :=
  let n := Z.of_nat len in
  let step := match slice_step s with Some k => k | None => 1%Z end in
  if (step =? 0)%Z then None
  else
    let lower := if (step <? 0)%Z then (-1)%Z else 0%Z in
    let upper := if (step <? 0)%Z then (n - 1)%Z else n in
    let clip v := if (v <? 0)%Z then Z.max (v + n) lower else Z.min v upper in
    let start := match slice_start s with
                 | Some v => clip v
                 | None => if (step <? 0)%Z then upper else lower
                 end in
    let stop := match slice_stop s with
                | Some v => clip v
                | None => if (step <? 0)%Z then lower else upper
                end in
    Some (start, stop, step).

(** [range(start, stop, step)], at most [fuel] numbers of it. *)
Fixpoint range_from (fuel : nat) (i stop step : Z) : list nat :=
  match fuel with
  | O => []
  | S fuel' =>
      if (if (0 <? step)%Z then (i <? stop)%Z else (stop <? i)%Z)
      then Z.to_nat i :: range_from fuel' (i + step)%Z stop step
      else []
  end.

(** The positions a slice selects in a list of length [len]. *)
Definition slice_positions (s : slice) (len : nat) : option (list nat) :=
  match slice_indices s len with
  | Some (start, stop, step) => Some (range_from len start stop step)
  | None => None
  end.

(** [l[s]] for a slice. *)
Definition list_getslice (l : list oid) (s : slice) : option (list oid) :=
  match slice_positions s (length l) with
  | Some ps => Some (flat_map (fun p => match nth_error l p with
                                        | Some x => [x]
                                        | None => []
                                        end) ps)
  | None => None
  end.

Fixpoint remove_positions (ps : list nat) (i : nat) (l : list oid) : list oid :=
  match l with
  | [] => []
  | x :: r =>
      if in_dec Nat.eq_dec i ps then remove_positions ps (S i) r
      else x :: remove_positions ps (S i) r
  end.

(** [del l[s]] for a slice. *)
Definition list_delslice (l : list oid) (s : slice) : option (list oid) :=
  match slice_positions s (length l) with
  | Some ps => Some (remove_positions ps 0 l)
  | None => None
  end.

Fixpoint assign_positions (ps : list nat) (vs : list oid) (l : list oid) : list oid :=
  match ps, vs with
  | p :: ps', v :: vs' => assign_positions ps' vs' (firstn p l ++ v :: skipn (S p) l)
  | _, _ => l
  end.

(** [l[s] = values] for a slice: a slice of step 1 is replaced by the
    values, however many; any other slice needs as many values as it
    selects positions. *)
Definition list_setslice (l : list oid) (s : slice) (values : list oid)
  : option (list oid) :=
  match slice_indices s (length l) with
  | None => None
  | Some (start, stop, step) =>
      if (step =? 1)%Z then
        let stop := Z.max start stop in
        Some (firstn (Z.to_nat start) l ++ values ++ skipn (Z.to_nat stop) l)
      else
        let ps := range_from (length l) start stop step in
        if Nat.eqb (length values) (length ps)
        then Some (assign_positions ps values l)
        else None
  end.

(* ================================================================== *)
(** ** OrderedNamespaceSet *)

(** [OrderedNamespaceSet.insert]. *)
Definition OrderedNamespaceSet_insert (self : sid) (index : Z) (object_ : oid) : M unit :=
  NamespaceSet_add self object_ ;;;
  h <- get_heap ;;
  set_order self (list_insert (order_of (nsets h self)) index object_).

(** [OrderedNamespaceSet.__getitem__] with an [int]. *)
Definition OrderedNamespaceSet_getitem (S : NSet) (i : Z) : outcome oid :=
  match list_getitem (order_of S) i with
  | Some x => Ret x
  | None => Exc List_IndexError
  end.

(** [OrderedNamespaceSet.__getitem__] with a slice. *)
Definition OrderedNamespaceSet_getslice (S : NSet) (s : slice) : outcome (list oid) :=
  match list_getslice (order_of S) s with
  | Some l => Ret l
  | None => Exc List_ValueError
  end.

(** [OrderedNamespaceSet.__setitem__] with an [int]. *)
Definition OrderedNamespaceSet_setitem (self : sid) (s : Z) (o : oid) : M unit :=
  h <- get_heap ;;
  match list_getitem (order_of (nsets h self)) s with
  | None => raise List_IndexError
  | Some deleted =>
      NamespaceSet_add self o ;;;
      h <- get_heap ;;
      match list_setitem (order_of (nsets h self)) s o with
      | None => raise List_IndexError
      | Some l =>
          set_order self l ;;;
          for_each [deleted] (NamespaceSet_remove self)
      end
  end.

(** The [try] block of the slice case: the new items are added one by one
    and collected in [successful_new_items]; an exception removes the
    collected ones again and is raised anew. *)
Fixpoint add_new_items (self : sid) (new_items successful_new_items : list oid)
  : M unit :=
  match new_items with
  | [] => ret tt
  | i :: r =>
      fun h =>
        match NamespaceSet_add self i h with
        | (h1, Ret _) => add_new_items self r (successful_new_items ++ [i]) h1
        | (h1, Exc e) =>
            match for_each successful_new_items (NamespaceSet_remove self) h1 with
            | (h2, Ret _) => (h2, Exc e)
            | r' => r'
            end
        | (h1, OutOfFuel) => (h1, OutOfFuel)
        end
  end.

(** [OrderedNamespaceSet.__setitem__] with a slice.  [new_items] is the
    iterator [itertools.islice(o, len(deleted_items))]; the loop that adds
    its items consumes it, so the assignment [self._order[s] = new_items]
    that follows receives an iterator with nothing left in it. *)
Definition OrderedNamespaceSet_setslice (self : sid) (s : slice) (o : list oid) : M unit :=
  h <- get_heap ;;
  match list_getslice (order_of (nsets h self)) s with
  | None => raise List_ValueError
  | Some deleted_items =>
      let new_items := firstn (length deleted_items) o in
      add_new_items self new_items [] ;;;
      h <- get_heap ;;
      match list_setslice (order_of (nsets h self)) s [] with
      | None => raise List_ValueError
      | Some l =>
          set_order self l ;;;
          for_each deleted_items (NamespaceSet_remove self)
      end
  end.

(** [OrderedNamespaceSet.__delitem__] with a slice. *)
Definition OrderedNamespaceSet_delslice (self : sid) (i : slice) : M unit :=
  h <- get_heap ;;
  match list_getslice (order_of (nsets h self)) i with
  | None => raise List_ValueError
  | Some os =>
      for_each os (NamespaceSet_remove self) ;;;
      h <- get_heap ;;
      match list_delslice (order_of (nsets h self)) i with
      | None => raise List_ValueError
      | Some l => set_order self l
      end
  end.

(** [OrderedNamespaceSet.__delitem__] with an [int]: the slice
    [slice(i, i+1)]. *)
Definition OrderedNamespaceSet_delitem (self : sid) (i : Z) : M unit :=
  OrderedNamespaceSet_delslice self (mkSlice (Some i) (Some (i + 1)%Z) None).

(* ================================================================== *)
(** ** Reconciliation: [update_nss_from] and [update_from] *)

Definition write_obj (self : oid) (f : Obj -> Obj) : M unit :=
  modify (fun h => upd_obj h self (f (objs h self))).

(** The instance variables of [other] that are record fields here, each
    copied by the [else] branch of [update_from]; [parent] and
    [namespace_element_sets] are skipped, [source] is copied only with
    [update_source]. *)
Definition copy_fields (other : Obj) (update_source : bool) (self : Obj) : Obj :=
  let o1 := if isinstance other Referable then set_o_id_short (o_id_short other) self
            else self in
  let o2 := if isinstance other Referable && update_source
            then set_o_source (o_source other) o1 else o1 in
  let o3 := if isinstance other Identifiable
            then set_o_identification (o_identification other) o2 else o2 in
  let o4 := if isinstance other HasSemantics
            then set_o_semantic_id (o_semantic_id other) o3 else o3 in
  let o5 := if isinstance other Extension then set_o_name (o_name other) o4 else o4 in
  if isinstance other Qualifier then set_o_type (o_type other) o5 else o5.

Definition skipped_name (name : string) (update_source : bool) : bool :=
  String.eqb name "parent" || String.eqb name "namespace_element_sets"
  || (String.eqb name "source" && negb update_source).

(** The key under which the first loop of [update_nss_from] looks the
    other object up, and the index it looks in. *)
Definition match_attribute (other_object : Obj) : option (string * pyval) :=
  if isinstance other_object Referable then Some ("id_short", VStr (o_id_short other_object))
  else if isinstance other_object Qualifier then Some ("type", o_type other_object)
  else if isinstance other_object Extension then Some ("name", o_name other_object)
  else None.

(** The second loop of [update_nss_from]: for every attribute both sets
    index, the members of [self] whose value [other] does not hold. *)
Fixpoint stale_items (h : Heap) (attr_name : string) (case_sensitive : bool)
         (backend_other : pydict) (items : list oid) : outcome (list oid) :=
  match items with
  | [] => Ret []
  | item :: r =>
      match _get_attribute (objs h item) attr_name case_sensitive with
      | None => Exc (No_attribute attr_name)
      | Some k =>
          match stale_items h attr_name case_sensitive backend_other r with
          | Ret l => Ret (if dict_mem k backend_other then l else item :: l)
          | e => e
          end
      end
  end.

Fixpoint objects_to_remove (h : Heap) (b other_b : Backend) : outcome (list oid) :=
  match b with
  | [] => Ret []
  | (attr_name, (backend, case_sensitive)) :: r =>
      let here :=
        match assoc attr_name other_b with
        | Some (backend_other, _) =>
            stale_items h attr_name case_sensitive backend_other (dict_values backend)
        | None => Ret []
        end in
      match here with
      | Ret l1 =>
          match objects_to_remove h r other_b with
          | Ret l2 => Ret (l1 ++ l2)
          | e => e
          end
      | e => e
      end
  end.

(** [try: c except KeyError: handler]. *)
Definition try_except_KeyError {A} (c : M A) (handler : M A) : M A :=
  fun h =>
    match c h with
    | (h', Exc e) => if is_KeyError e then handler h' else (h', Exc e)
    | r => r
    end.

(** The body of [Referable.update_from]; [rec] is [update_nss_from] as it
    is called on a nested set. *)
Definition update_from_body (rec : sid -> sid -> M unit)
           (self other : oid) (update_source : bool) : M unit :=
  h <- get_heap ;;
  write_obj self (copy_fields (objs h other) update_source) ;;;
  for_each (o_vars (objs h other))
    (fun entry =>
       let (name, var) := entry in
       if skipped_name name update_source then ret tt
       else
         match var with
         | VSet other_set =>
             h <- get_heap ;;
             match assoc name (o_vars (objs h self)) with
             | Some (VSet self_set) => rec self_set other_set
             | Some _ => raise (No_attribute "update_nss_from")
             | None => raise (Dict_KeyError (VStr name))
             end
         | _ => write_obj self (fun o => set_o_vars (assoc_set name var (o_vars o)) o)
         end).

(** One round of the first loop of [update_nss_from]: the other object is
    looked up in [self] and, when it is a [Referable] that is found, merged
    into what was found; a [KeyError] on the way says [true]: the object
    is to be added. *)
Definition match_other (update_from : oid -> oid -> bool -> M unit)
           (self : sid) (other_object : oid) : M bool :=
  try_except_KeyError
    (h <- get_heap ;;
     match match_attribute (objs h other_object) with
     | None => raise Type_not_implemented
     | Some (attr_name, value) =>
         match get_object_by_attribute (nsets h self) attr_name value with
         | Ret matched =>
             if isinstance (objs h other_object) Referable
             then update_from matched other_object true ;;; ret false
             else ret false
         | Exc e => raise e
         | OutOfFuel => out_of_fuel
         end
     end)
    (ret true).

(** The first loop of [update_nss_from]; it returns [objects_to_add]. *)
Fixpoint first_loop (update_from : oid -> oid -> bool -> M unit) (self : sid)
         (others : list oid) (objects_to_add : list oid) : M (list oid) :=
  match others with
  | [] => ret objects_to_add
  | other_object :: r =>
      added <- match_other update_from self other_object ;;
      first_loop update_from self r
                 (if added then objects_to_add ++ [other_object] else objects_to_add)
  end.

(** The body of [NamespaceSet.update_nss_from]. *)
Definition update_nss_from_body (update_from : oid -> oid -> bool -> M unit)
           (self other : sid) : M unit :=
  h <- get_heap ;;
  match iter_set (nsets h other) with
  | Exc e => raise e
  | OutOfFuel => out_of_fuel
  | Ret others =>
      to_add <- first_loop update_from self others [] ;;
      h <- get_heap ;;
      match objects_to_remove h (ns_backend (nsets h self))
                              (ns_backend (nsets h other)) with
      | Exc e => raise e
      | OutOfFuel => out_of_fuel
      | Ret to_remove =>
          for_each to_add
            (fun object_to_add =>
               remove other object_to_add ;;; add self object_to_add) ;;;
          for_each to_remove (remove self)
      end
  end.

(** [NamespaceSet.update_nss_from] and [Referable.update_from] call each
    other through the nested sets of matched elements; [fuel] bounds the
    depth of that nesting. *)
Fixpoint update_nss_from (fuel : nat) (self other : sid) : M unit :=
  match fuel with
  | O => out_of_fuel
  | S fuel' =>
      update_nss_from_body (update_from_body (update_nss_from fuel')) self other
  end.

(** [Referable.update_from]. *)
Definition update_from (fuel : nat) (self other : oid) (update_source : bool) : M unit :=
  update_from_body (update_nss_from fuel) self other update_source.
(* ================================================================== *)
(** ** Chains of indexed children *)

Section Chains.

Variable KEY_ELEMENTS_CLASSES : PyClass -> option KeyElements.
Variable h : Heap.

(** [c] is held by an [id_short] index of a set of [p]. *)
Definition indexed_child (p c : oid) : Prop :=
  exists set_ backend cs,
    In set_ (o_namespace_element_sets (objs h p)) /\
    assoc "id_short" (ns_backend (nsets h set_)) = Some (backend, cs) /\
    dict_get (fold_case cs (VStr (o_id_short (objs h c)))) backend = Some c.

(** Short-names are unique across the sets of [p]: whatever set of [p]
    answers for the short-name of [c] answers with [c]. *)
Definition name_unique_among_siblings (p c : oid) : Prop :=
  forall set_ backend cs x,
    In set_ (o_namespace_element_sets (objs h p)) ->
    assoc "id_short" (ns_backend (nsets h set_)) = Some (backend, cs) ->
    dict_get (fold_case cs (VStr (o_id_short (objs h c)))) backend = Some x ->
    x = c.

(** One step down the graph: [c] is a non-identifiable element with a
    non-empty short-name, its parent [p] is an element and a namespace
    that indexes it, and the table gives the class of [c] a key type that a
    short-name key may have. *)
Definition child_of (p c : oid) : Prop :=
  o_parent (objs h c) = Some p /\
  isinstance (objs h p) UniqueIdShortNamespace = true /\
  isinstance (objs h p) Referable = true /\
  isinstance (objs h c) Referable = true /\
  isinstance (objs h c) Identifiable = false /\
  o_id_short (objs h c) <> "" /\
  class_key_type KEY_ELEMENTS_CLASSES (objs h c) <> GLOBAL_REFERENCE /\
  class_key_type KEY_ELEMENTS_CLASSES (objs h c) <> ASSET_ADMINISTRATION_SHELL /\
  indexed_child p c /\
  name_unique_among_siblings p c.

(** [below] lists the elements under [p], each the child of the one
    before. *)
Fixpoint descends (p : oid) (below : list oid) : Prop :=
  match below with
  | [] => True
  | c :: r => child_of p c /\ descends c r
  end.

Definition local_key (c : oid) : Key :=
  mkKey (class_key_type KEY_ELEMENTS_CLASSES (objs h c)) (o_id_short (objs h c)) IDSHORT.

Definition global_key (root : oid) : Key :=
  mkKey (class_key_type KEY_ELEMENTS_CLASSES (objs h root))
        (id (o_identification (objs h root)))
        (KeyType_of_IdentifierType (id_type (o_identification (objs h root)))).

End Chains.

(* ================================================================== *)
(** ** The graph a synchronisation call walks, and the calls expected *)

(** The store [h] with the calls [l] logged after its own. *)
Definition add_calls (l : list BackendCall) (h : Heap) : Heap :=
  mkHeap (objs h) (nsets h) (calls h ++ l).

(** Two stores with the same objects and sets. *)
Definition same_graph (h0 h : Heap) : Prop :=
  objs h = objs h0 /\ nsets h = nsets h0.

(** A backend whose two methods return without touching the store. *)
Definition quiet (b : BackendImpl) : Prop :=
  forall x s p h,
    commit_object b x s p h = (h, Ret tt) /\ update_object b x s p h = (h, Ret tt).

Definition quiet_registry (_backends_map : list (string * BackendImpl)) : Prop :=
  forall scheme b, assoc scheme _backends_map = Some b -> quiet b.

(** The source is empty or its scheme has a backend. *)
Definition source_ok (_backends_map : list (string * BackendImpl)) (source : string)
  : bool :=
  String.eqb source "" ||
  match get_backend _backends_map source with Ret _ => true | _ => false end.

(** The members of the sets of [x] that are indexed by [id_short], set
    after set: the children the recursive calls visit. *)
Definition children_of (h : Heap) (x : oid) : list oid :=
  if isinstance (objs h x) UniqueIdShortNamespace then
    flat_map (fun s =>
                if in_dec string_dec "id_short" (get_attribute_name_list (nsets h s))
                then match iter_set (nsets h s) with Ret l => l | _ => [] end
                else [])
             (o_namespace_element_sets (objs h x))
  else [].

(** [d] is [x] or lies below it. *)
Inductive reaches (h : Heap) : oid -> oid -> Prop :=
| reaches_self (x : oid) : reaches h x x
| reaches_child (x c d : oid) :
    In c (children_of h x) -> reaches h c d -> reaches h x d.

(** The tree under [x] is less than [n] levels deep and every source in
    it is fine. *)
Fixpoint subtree_ok (_backends_map : list (string * BackendImpl)) (n : nat)
         (h : Heap) (x : oid) : bool :=
  match n with
  | O => false
  | S m =>
      source_ok _backends_map (o_source (objs h x)) &&
      forallb (subtree_ok _backends_map m h) (children_of h x)
  end.

(** [ups] is the chain of ancestors of [x], nearest first, up to an
    element without parent; all are [Referable] and their sources fine. *)
Fixpoint ancestors_ok (_backends_map : list (string * BackendImpl)) (h : Heap)
         (x : oid) (ups : list oid) : bool :=
  match ups with
  | [] => match o_parent (objs h x) with None => true | Some _ => false end
  | a :: r =>
      match o_parent (objs h x) with
      | Some p => Nat.eqb p a
      | None => false
      end
      && isinstance (objs h a) Referable
      && source_ok _backends_map (o_source (objs h a))
      && ancestors_ok _backends_map h a r
  end.

(** The calls of an element and the elements below it to their own
    sources, in the order of a depth-first walk of [n] levels. *)
Fixpoint own_calls (kind : CallKind) (n : nat) (h : Heap) (x : oid) : list BackendCall :=
  match n with
  | O => []
  | S m =>
      (if String.eqb (o_source (objs h x)) "" then []
       else [mkCall kind (o_source (objs h x)) x x []])
      ++ flat_map (own_calls kind m h) (children_of h x)
  end.

(** The calls for the element [e] to the sources of the ancestors [ups],
    nearest first; [below] names the elements under the next ancestor. *)
Fixpoint ancestor_calls (h : Heap) (e : oid) (below : list string) (ups : list oid)
  : list BackendCall :=
  match ups with
  | [] => []
  | a :: r =>
      (if String.eqb (o_source (objs h a)) "" then []
       else [mkCall Commit (o_source (objs h a)) e a below])
      ++ ancestor_calls h e (o_id_short (objs h a) :: below) r
  end.
(* ================================================================== *)
(** ** Sequences of operations on an OrderedNamespaceSet *)

(** The mutating operations with a defined effect on the order: [add],
    [insert], replacement of one item, deletion by index or slice. *)
Inductive OrderedOp :=
| Op_add (x : oid)
| Op_insert (i : Z) (x : oid)
| Op_setitem (i : Z) (x : oid)
| Op_delitem (i : Z)
| Op_delslice (s : slice).

Definition run_op (self : sid) (op : OrderedOp) : M unit :=
  match op with
  | Op_add x => OrderedNamespaceSet_add self x
  | Op_insert i x => OrderedNamespaceSet_insert self i x
  | Op_setitem i x => OrderedNamespaceSet_setitem self i x
  | Op_delitem i => OrderedNamespaceSet_delitem self i
  | Op_delslice s => OrderedNamespaceSet_delslice self s
  end.

Definition run_ops (self : sid) (ops : list OrderedOp) : M unit :=
  for_each ops (run_op self).

(** [del l[i]] on a plain list. *)
Definition list_delitem (l : list oid) (i : Z) : option (list oid) :=
  match norm_index (length l) i with
  | Some n => Some (firstn n l ++ skipn (S n) l)
  | None => None
  end.

(** What the same operation does to a plain Python list: [append] for
    [add], the list's own [insert], item assignment and deletions. *)
Definition list_op (op : OrderedOp) (l : list oid) : option (list oid) :=
  match op with
  | Op_add x => Some (l ++ [x])
  | Op_insert i x => Some (list_insert l i x)
  | Op_setitem i x => list_setitem l i x
  | Op_delitem i => list_delitem l i
  | Op_delslice s => list_delslice l s
  end.

Fixpoint list_ops (ops : list OrderedOp) (l : list oid) : option (list oid) :=
  match ops with
  | [] => Some l
  | op :: r =>
      match list_op op l with
      | Some l' => list_ops r l'
      | None => None
      end
  end.

(** The element at position [p], if there is one. *)
Definition select (l : list oid) (p : nat) : list oid :=
  match nth_error l p with Some x => [x] | None => [] end.

(** Every index of the set holds [y] under the folded value of [y]. *)
Definition properly_indexed (h : Heap) (self : sid) (y : oid) : Prop :=
  forall n d cs,
    In (n, (d, cs)) (ns_backend (nsets h self)) ->
    exists k, _get_attribute (objs h y) n cs = Some k /\ dict_get k d = Some y.

(** The state of an ordered set between operations: it is an ordered set
    listed by its owner, with at least one index; [_order] has no
    duplicates and every element of it is in the indexes. *)
Definition ordered_inv (h : Heap) (self : sid) : Prop :=
  ns_order (nsets h self) <> None /\
  In self (o_namespace_element_sets (objs h (ns_parent (nsets h self)))) /\
  ns_backend (nsets h self) <> [] /\
  NoDup (order_of (nsets h self)) /\
  forall y, In y (order_of (nsets h self)) -> properly_indexed h self y.
(* ================================================================== *)
(** ** Predicates of the statements about sets and names *)

(** The value carries the attribute and its folded value is a key of an
    index of [b] for that attribute. *)
Definition collides (v : Obj) (attr_name : string) (a : pyval) (b : Backend) : Prop :=
  exists backend cs,
    In (attr_name, (backend, cs)) b /\ getattr v attr_name = Some a /\
    dict_mem (fold_case cs a) backend = true.

(** The value has a parent and it is not the owner of the set. *)
Definition foreign_parent (h : Heap) (self : sid) (value : oid) : bool :=
  match o_parent (objs h value) with
  | Some p => negb (Nat.eqb p (ns_parent (nsets h self)))
  | None => false
  end.

(** The set [self] is attached: it knows its owner, the owner lists it,
    and it has at least one index. *)
Definition attached (h : Heap) (self : sid) : Prop :=
  In self (o_namespace_element_sets (objs h (ns_parent (nsets h self)))) /\
  ns_backend (nsets h self) <> [].

(** A well-formed short-name (constraint AASd-002): what the setter lets
    through. *)
Definition well_formed_id_short (s : string) : Prop :=
  fullmatch_id_short s = true /\ starts_with_letter s = true.

(** All characters. *)
Definition all_ascii : list ascii := map ascii_of_nat (seq 0 256).

(** On all pairs of characters: two characters with the same upper case
    are both in [P] or both outside. *)
Definition case_variant_check (P : ascii -> bool) : bool :=
  forallb (fun c1 =>
    forallb (fun c2 =>
      implb (Ascii.eqb (ascii_upper c1) (ascii_upper c2) && P c2) (P c1))
    all_ascii) all_ascii.

(* ================================================================== *)
(** ** Predicates of the statements about reconciliation *)

(** The key of [y] in an [id_short] index with the case rule [cs]. *)
Definition id_key (cs : bool) (h : Heap) (y : oid) : pyval :=
  fold_case cs (VStr (o_id_short (objs h y))).

(** An [id_short] index in order: no key twice, and every entry is a
    [Referable] under the folded value of its own short-name. *)
Definition index_ok (cs : bool) (h : Heap) (d : pydict) : Prop :=
  NoDup (map fst d) /\
  forall k y, In (k, y) d ->
    isinstance (objs h y) Referable = true /\ k = id_key cs h y.

(** No instance variable of the object is a [NamespaceSet]. *)
Definition flat (o : Obj) : bool :=
  forallb (fun e => match snd e with VSet _ => false | _ => true end) (o_vars o).

(** One assignment [vars(self)[name] = var] of [update_from], skipped for
    the names the method skips. *)
Definition merge_var (update_source : bool) (o : Obj) (e : string * pyval) : Obj :=
  if skipped_name (fst e) update_source then o
  else set_o_vars (assoc_set (fst e) (snd e) (o_vars o)) o.

(** What [update_from(other, update_source=True)] makes of [o] when
    [other] is flat: every variable of [other] assigned in turn. *)
Definition merged (other o : Obj) : Obj :=
  fold_left (merge_var true) (o_vars other) (copy_fields other true o).

(** The index after [del backend[key]] for the key of each of [zs], and
    after [backend[key] = b] for each of [bs], the keys read in [h]. *)
Definition del_keys (cs : bool) (h : Heap) (zs : list oid) (d : pydict) : pydict :=
  fold_left (fun d z => dict_del (id_key cs h z) d) zs d.

Definition set_keys (cs : bool) (h : Heap) (bs : list oid) (d : pydict) : pydict :=
  fold_left (fun d b => dict_set (id_key cs h b) b d) bs d.

(* ================================================================== *)
(** ** More of the interface of keys, references and sets *)

(** [Key.__eq__]: [id_type] compared by identity, [value] and [type] by
    equality. *)
Definition Key___eq__ (self other : Key) : bool :=
  (if KeyType_eq_dec (key_id_type self) (key_id_type other) then true else false)
  && String.eqb (key_value self) (key_value other)
  && (if KeyElements_eq_dec (key_type self) (key_type other) then true else false).

(** [all(k1 == k2 for k1, k2 in zip(self.key, other.key))]: [zip] stops
    at the shorter tuple. *)
Fixpoint all_zip_eq (key other_key : list Key) : bool :=
  match key, other_key with
  | k1 :: r1, k2 :: r2 => Key___eq__ k1 k2 && all_zip_eq r1 r2
  | _, _ => true
  end.

(** [Reference.__eq__], which [AASReference] inherits: the class [type]
    of an [AASReference] is not compared. *)
Definition Reference___eq__ (self other : AASReference) : bool :=
  if negb (Nat.eqb (length (ref_key self)) (length (ref_key other))) then false
  else all_zip_eq (ref_key self) (ref_key other).

(** [next(key.get_identifier() for key in keys if key.get_identifier())]. *)
Fixpoint first_identifier (keys : list Key) : option Identifier :=
  match keys with
  | [] => None
  | key :: r =>
      match Key_get_identifier key with
      | Some i => Some i
      | None => first_identifier r
      end
  end.

(** [AASReference.get_identifier]. *)
Definition AASReference_get_identifier (self : AASReference) : outcome Identifier :=
  match first_identifier (rev (ref_key self)) with
  | Some i => Ret i
  | None => Exc No_global_key
  end.

(** [NamespaceSet.remove_by_id]. *)
Definition remove_by_id (self : sid) (attribute_name : string) (identifier : pyval)
  : M unit :=
  fun h =>
    match get_object_by_attribute (nsets h self) attribute_name identifier with
    | Ret item => remove self item h
    | Exc e => (h, Exc e)
    | OutOfFuel => (h, OutOfFuel)
    end.

(** [Namespace._remove_object]: the first set that tracks the attribute
    and removes without a [KeyError] ends the search. *)
Fixpoint _remove_object_in (ss : list sid) (attribute_name : string) (attribute : pyval)
  : M unit :=
  match ss with
  | [] => raise (Not_in_namespace attribute_name attribute)
  | s :: r =>
      fun h =>
        if in_dec string_dec attribute_name (get_attribute_name_list (nsets h s))
        then try_except_KeyError (remove_by_id s attribute_name attribute)
                                 (_remove_object_in r attribute_name attribute) h
        else _remove_object_in r attribute_name attribute h
  end.

(** [UniqueIdShortNamespace.remove_referable]. *)
Definition remove_referable (namespace : oid) (id_short : string) : M unit :=
  fun h => _remove_object_in (o_namespace_element_sets (objs h namespace))
                             "id_short" (VStr id_short) h.

(** [NamespaceSet.get]: [None] of the result is the [default]. *)
Definition NamespaceSet_get (S : NSet) (attribute_name : string) (attribute_value : pyval)
  : outcome (option oid) :=
  match assoc attribute_name (ns_backend S) with
  | None => Exc (Backend_KeyError attribute_name)
  | Some (backend, case_sensitive) =>
      if case_sensitive then Ret (dict_get attribute_value backend)
      else match attribute_value with
           | VStr s => Ret (dict_get (VStr (upper s)) backend)
           | _ => Exc (No_attribute "upper")
           end
  end.

(** [dict.popitem()]: the pair entered last leaves. *)
Definition dict_popitem (d : pydict) : option (pydict * (pyval * oid)) :=
  match rev d with
  | [] => None
  | e :: r => Some (rev r, e)
  end.

(** [NamespaceSet.pop]: the item entered last into the first index leaves
    that index and loses its parent. *)
Definition NamespaceSet_pop (self : sid) : M oid :=
  fun h =>
    match ns_backend (nsets h self) with
    | [] => (h, Exc Stop_iteration)
    | (attr_name, (backend, case_sensitive)) :: r =>
        match dict_popitem backend with
        | None => (h, Exc Popitem_empty)
        | Some (backend', (_, value)) =>
            let h1 := upd_set h self
                        (set_ns_backend ((attr_name, (backend', case_sensitive)) :: r)
                                        (nsets h self)) in
            (upd_obj h1 value (set_o_parent None (objs h1 value)), Ret value)
        end
    end.

(** [l.pop(i)]. *)
Definition list_pop (l : list oid) (i : Z) : option (oid * list oid) :=
  match norm_index (length l) i with
  | Some n =>
      match nth_error l n with
      | Some x => Some (x, firstn n l ++ skipn (S n) l)
      | None => None
      end
  | None => None
  end.

(** [OrderedNamespaceSet.pop]. *)
Definition OrderedNamespaceSet_pop (self : sid) (i : option Z) : M oid :=
  match i with
  | None =>
      value <- NamespaceSet_pop self ;;
      h <- get_heap ;;
      match list_remove value (order_of (nsets h self)) with
      | Some l => set_order self l ;;; ret value
      | None => raise List_ValueError
      end
  | Some i =>
      h <- get_heap ;;
      match list_pop (order_of (nsets h self)) i with
      | Some (value, l) => set_order self l ;;; NamespaceSet_remove self value ;;; ret value
      | None => raise List_IndexError
      end
  end.

(* ================================================================== *)
(** ** Predicates of the statements about backends and sources *)

(** What [RE_URI_SCHEME] accepts before the colon: a letter, then
    letters, [+], [-] and [.]. *)
Definition valid_scheme (scheme : string) : bool :=
  match scheme with
  | EmptyString => false
  | String c r =>
      is_ascii_letter c && forallb is_scheme_char (list_ascii_of_string r)
  end.

(** [ups] are the ancestors of [x], nearest first: each is the parent of
    the one before it and a [Referable]. *)
Fixpoint parents (h : Heap) (x : oid) (ups : list oid) : Prop :=
  match ups with
  | [] => True
  | a :: r =>
      o_parent (objs h x) = Some a /\ isinstance (objs h a) Referable = true /\
      parents h a r
  end.

(** No index of the set has a key twice, as in every Python [dict]. *)
Definition unique_keys (h : Heap) (self : sid) : Prop :=
  forall n d cs, In (n, (d, cs)) (ns_backend (nsets h self)) -> NoDup (map fst d).

(* ================================================================== *)
(** ** The setter of [Extension.name] *)

Definition write_name (self : oid) (name : string) : M unit :=
  modify (fun h => upd_obj h self (set_o_name (VStr name) (objs h self))).

(** The setter of the property [name] of [Extension]: as the setter of
    [id_short], but without its checks of the value and without its
    return for an unchanged value. *)
Definition Extension_set_name (self : oid) (name : string) : M unit :=
  fun h =>
    match o_parent (objs h self) with
    | Some parent =>
        let sets := o_namespace_element_sets (objs h parent) in
        if existsb (fun set_ => contains_id (nsets h set_) "name" (VStr name)) sets
        then (h, Exc (Name_present_in_parent name))
        else
          (set_add_list <- detach self sets [] ;;
           write_name self name ;;;
           for_each set_add_list (fun set_ => add set_ self) ;;;
           write_name self name) h
    | None => write_name self name h
    end.

End Model.

(* ================================================================== *)
(** ** Example stores *)

(** The heap after running [c], whatever its outcome. *)
Definition exec {A} (c : M A) (h : Heap) : Heap := fst (c h).

(** The names of the examples are ASCII text, so the examples run on an
    interpreter whose [upper] is the one of ASCII text. *)
Definition ascii_runtime : PyRuntime :=
  {| upper := upper_ascii; upper_on_ascii := fun s _ => eq_refl |}.

Section Examples.

#[local] Existing Instance ascii_runtime.

Definition blank_obj : Obj :=
  mkObj [] "NotSet" None "" (mkIdentifier "None" IT_IRDI) VNone VNone VNone [] [].

Definition blank_set : NSet := mkNSet 0 [] None.

Definition empty_heap : Heap := mkHeap (fun _ => blank_obj) (fun _ => blank_set) [].

(** A freshly constructed element of a concrete [Referable] class. *)
Definition new_referable (classes : list PyClass) (id_short : string) : Obj :=
  mkObj (classes ++ [Referable; HasExtension; Namespace]) id_short None ""
        (mkIdentifier "None" IT_IRDI) VNone VNone VNone [] [].

(** A freshly constructed element of a concrete [Identifiable] class. *)
Definition new_identifiable (classes : list PyClass) (id_short : string)
           (identification : Identifier) : Obj :=
  mkObj (classes ++ [Identifiable; Referable; HasExtension; Namespace]) id_short None ""
        identification VNone VNone VNone [] [].

Definition with_source (source : string) (o : Obj) : Obj := set_o_source source o.

(** Objects 0 to 5: a namespace [root] and five loose elements. *)
Definition store0 : Heap :=
  upd_obj (upd_obj (upd_obj (upd_obj (upd_obj (upd_obj empty_heap
    0 (new_referable [Concrete 1; UniqueIdShortNamespace] "root"))
    1 (new_referable [Concrete 2] "abc"))
    2 (new_referable [Concrete 2] "ABC"))
    3 (new_referable [Concrete 2] "def"))
    4 (set_o_parent (Some 9) (new_referable [Concrete 2] "ghi")))
    5 (new_referable [Concrete 2] "Def").

(** [root] owns set 0, indexed by [id_short] without regard to case, and
    holding [abc]. *)
Definition store1 : Heap :=
  exec (NamespaceSet_init 0 false 0 [("id_short", false)] [1]) store0.

(** [store1] after [def] has been added to the set as well. *)
Definition store2 : Heap := exec (add 0 3) store1.

(** Three concrete classes of the package and their rows of
    [KEY_ELEMENTS_CLASSES], for the examples. *)
Definition Submodel : PyClass := Concrete 3.
Definition SubmodelElementCollection : PyClass := Concrete 4.
Definition Property : PyClass := Concrete 5.

Definition example_KEY_ELEMENTS_CLASSES (t : PyClass) : option KeyElements :=
  match t with
  | Concrete 3 => Some SUBMODEL
  | Concrete 4 => Some SUBMODEL_ELEMENT_COLLECTION
  | Concrete 5 => Some PROPERTY
  | _ => None
  end.

Definition submodel_id : Identifier := mkIdentifier "urn:x-test:submodel" IT_IRI.

(** A submodel (object 20) that holds a collection (21) that holds a
    property (22); sets 2 and 3 are their [id_short] indexes. *)
Definition store3 : Heap :=
  exec (NamespaceSet_init 3 false 21 [("id_short", false)] [22])
    (exec (NamespaceSet_init 2 false 20 [("id_short", false)] [21])
       (upd_obj (upd_obj (upd_obj empty_heap
          20 (new_identifiable [Submodel; UniqueIdShortNamespace] "submodel" submodel_id))
          21 (new_referable [SubmodelElementCollection; UniqueIdShortNamespace] "collection"))
          22 (new_referable [Property] "prop"))).

(** The provider that knows the submodel. *)
Definition provider3 (i : Identifier) : option oid :=
  if Identifier_eq_dec i submodel_id then Some 20 else None.

(** The reference submodel / collection / prop / prop: the walk reaches
    [prop], which is no namespace, at its third step. *)
Definition reference4 : AASReference :=
  mkAASReference [mkKey SUBMODEL "urn:x-test:submodel" IRI;
                  mkKey SUBMODEL_ELEMENT_COLLECTION "collection" IDSHORT;
                  mkKey PROPERTY "prop" IDSHORT;
                  mkKey PROPERTY "prop" IDSHORT] Property.

(** The reference submodel / collection / prop. *)
Definition reference3 : AASReference :=
  mkAASReference [mkKey SUBMODEL "urn:x-test:submodel" IRI;
                  mkKey SUBMODEL_ELEMENT_COLLECTION "collection" IDSHORT;
                  mkKey PROPERTY "prop" IDSHORT] Property.

(** A backend that accepts every call and leaves the store alone. *)
Definition quiet_backend : BackendImpl :=
  mkBackend (fun _ _ _ => ret tt) (fun _ _ _ => ret tt).

Definition example_backends : list (string * BackendImpl) :=
  register_backend "mock" quiet_backend [].

(** Namespaces [P2] (30) over [P1] (31) over [e] (32), each with a source
    of its own; [e] holds [c] (33), without a source, and [d] (34), with
    one. *)
Definition store4 : Heap :=
  exec (NamespaceSet_init 6 false 32 [("id_short", false)] [33; 34])
    (exec (NamespaceSet_init 5 false 31 [("id_short", false)] [32])
       (exec (NamespaceSet_init 4 false 30 [("id_short", false)] [31])
          (upd_obj (upd_obj (upd_obj (upd_obj (upd_obj empty_heap
             30 (with_source "mock://s2"
                   (new_referable [Concrete 1; UniqueIdShortNamespace] "P2")))
             31 (with_source "mock://s1"
                   (new_referable [Concrete 1; UniqueIdShortNamespace] "P1")))
             32 (with_source "mock://e"
                   (new_referable [Concrete 1; UniqueIdShortNamespace] "e")))
             33 (new_referable [Concrete 2] "c"))
             34 (with_source "mock://d" (new_referable [Concrete 2] "d"))))).

(** A namespace (40) with the ordered set 7 that holds [a] (41) and [b]
    (42); [c] (43) and [d] (44) are loose. *)
Definition store5 : Heap :=
  exec (NamespaceSet_init 7 true 40 [("id_short", false)] [41; 42])
    (upd_obj (upd_obj (upd_obj (upd_obj (upd_obj empty_heap
       40 (new_referable [Concrete 1; UniqueIdShortNamespace] "ns"))
       41 (new_referable [Concrete 2] "a"))
       42 (new_referable [Concrete 2] "b"))
       43 (new_referable [Concrete 2] "c"))
       44 (new_referable [Concrete 2] "d")).

(** Two namespaces with one plain set each, indexed by [id_short] without
    regard to case: set 8 of [P] holds [x] and [z], set 9 of [Q] holds [X]
    and [y]; [x], [X] and [y] carry an instance variable [v]. *)
Definition store6 : Heap :=
  exec (NamespaceSet_init 9 false 60 [("id_short", false)] [61; 62])
    (exec (NamespaceSet_init 8 false 50 [("id_short", false)] [51; 52])
       (upd_obj (upd_obj (upd_obj (upd_obj (upd_obj (upd_obj empty_heap
          50 (new_referable [Concrete 1; UniqueIdShortNamespace] "P"))
          51 (set_o_vars [("v", VInt 1)] (new_referable [Concrete 2] "x")))
          52 (new_referable [Concrete 2] "z"))
          60 (new_referable [Concrete 1; UniqueIdShortNamespace] "Q"))
          61 (set_o_vars [("v", VInt 2)] (new_referable [Concrete 2] "X")))
          62 (set_o_vars [("v", VInt 3)] (new_referable [Concrete 2] "y")))).

(** A freshly constructed [Extension]. *)
Definition new_extension (name : string) : Obj :=
  mkObj [Extension; HasSemantics] "" None "" (mkIdentifier "None" IT_IRDI)
        VNone (VStr name) VNone [] [].

(** An element (object 70) whose set 10 of extensions, indexed by [name]
    with regard to case, holds the extension [unit] (71). *)
Definition store7 : Heap :=
  exec (NamespaceSet_init 10 false 70 [("name", true)] [71])
    (upd_obj (upd_obj empty_heap
       70 (new_referable [Concrete 2] "element"))
       71 (new_extension "unit")).

End Examples.

Section NamespaceSets.

Context {py : PyRuntime}.

(* ================================================================== *)
(** * Properties *)


(** ** Dictionaries and attribute access *)

Lemma exec_returned {A : Type} (c : M A) (h : Heap) (a : A) :
  snd (c h) = Ret a -> c h = (exec c h, Ret a).
Proof. unfold exec. destruct (c h) as [h' r]. simpl. now intros ->. Qed.


Lemma pyval_eqb_eq (a b : pyval) : pyval_eqb a b = true <-> a = b.
Proof.
  unfold pyval_eqb. destruct (pyval_eq_dec a b); split; congruence.
Qed.

Lemma pyval_eqb_refl (a : pyval) : pyval_eqb a a = true.
Proof. apply pyval_eqb_eq. reflexivity. Qed.

Lemma dict_get_set_same (k : pyval) (v : oid) (d : pydict) :
  dict_get k (dict_set k v d) = Some v.
Proof.
  induction d as [|[k' v'] d IH]; simpl.
  - now rewrite pyval_eqb_refl.
  - destruct (pyval_eqb k' k) eqn:E; simpl; rewrite E; auto.
Qed.

Lemma dict_get_set_other (k k' : pyval) (v : oid) (d : pydict) :
  k' <> k -> dict_get k' (dict_set k v d) = dict_get k' d.
Proof.
  intros Hne. induction d as [|[k0 v0] d IH]; simpl.
  - destruct (pyval_eqb k k') eqn:E; auto.
    apply pyval_eqb_eq in E. congruence.
  - destruct (pyval_eqb k0 k) eqn:E; simpl.
    + apply pyval_eqb_eq in E. subst k0.
      destruct (pyval_eqb k k') eqn:E'; auto.
      apply pyval_eqb_eq in E'. congruence.
    + destruct (pyval_eqb k0 k'); auto.
Qed.

Lemma dict_set_fresh (k : pyval) (v : oid) (d : pydict) :
  dict_mem k d = false -> dict_set k v d = d ++ [(k, v)].
Proof.
  unfold dict_mem. induction d as [|[k' v'] d IH]; simpl; auto.
  destruct (pyval_eqb k' k); [discriminate|].
  intros H. now rewrite IH.
Qed.

Lemma isinstance_set_o_parent (p : option oid) (o : Obj) (C : PyClass) :
  isinstance (set_o_parent p o) C = isinstance o C.
Proof. reflexivity. Qed.

Lemma getattr_set_o_parent (p : option oid) (o : Obj) (name : string) :
  getattr (set_o_parent p o) name = getattr o name.
Proof. reflexivity. Qed.

Lemma _get_attribute_set_o_parent (p : option oid) (o : Obj) (name : string) (cs : bool) :
  _get_attribute (set_o_parent p o) name cs = _get_attribute o name cs.
Proof. reflexivity. Qed.

Lemma objs_upd_obj_same (h : Heap) (o : oid) (x : Obj) : objs (upd_obj h o x) o = x.
Proof. simpl. now rewrite Nat.eqb_refl. Qed.

Lemma objs_upd_obj_other (h : Heap) (o o' : oid) (x : Obj) :
  o' <> o -> objs (upd_obj h o x) o' = objs h o'.
Proof. intros H. simpl. apply Nat.eqb_neq in H. now rewrite H. Qed.

Lemma nsets_upd_set_same (h : Heap) (s : sid) (x : NSet) : nsets (upd_set h s x) s = x.
Proof. simpl. now rewrite Nat.eqb_refl. Qed.

Lemma nsets_upd_set_other (h : Heap) (s s' : sid) (x : NSet) :
  s' <> s -> nsets (upd_set h s x) s' = nsets h s'.
Proof. intros H. simpl. apply Nat.eqb_neq in H. now rewrite H. Qed.

(** ** The collision scan of [add] *)

Lemma backend_collision_sound (v : Obj) (b : Backend) (n : string) (a : pyval) :
  backend_collision v b = Some (n, a) -> collides v n a b.
Proof.
  induction b as [|[n' [d cs]] b IH]; simpl; [discriminate|].
  destruct (getattr v n') as [a'|] eqn:Ha.
  - destruct (dict_mem (fold_case cs a') d) eqn:Hm.
    + intros [= <- <-]. exists d, cs; simpl; auto.
    + intros H. destruct (IH H) as (d' & cs' & Hin & H1 & H2).
      exists d', cs'; simpl; auto.
  - intros H. destruct (IH H) as (d' & cs' & Hin & H1 & H2).
    exists d', cs'; simpl; auto.
Qed.

Lemma backend_collision_complete (v : Obj) (b : Backend) (n : string) (a : pyval) :
  collides v n a b -> exists n' a', backend_collision v b = Some (n', a').
Proof.
  intros (d & cs & Hin & Ha & Hm).
  induction b as [|[n' [d' cs']] b IH]; simpl; [destruct Hin|].
  destruct Hin as [[= -> -> ->]|Hin].
  - rewrite Ha, Hm. eauto.
  - destruct (getattr v n') as [a'|]; [|auto].
    destruct (dict_mem (fold_case cs' a') d'); eauto.
Qed.

Lemma backend_collision_none (v : Obj) (b : Backend) (n : string) (a : pyval) :
  backend_collision v b = None -> ~ collides v n a b.
Proof.
  intros H Hc. destruct (backend_collision_complete _ _ _ _ Hc) as (n' & a' & H').
  congruence.
Qed.

Lemma sets_collision_sound (h : Heap) (v : Obj) (ss : list sid) s n a :
  sets_collision h v ss = Some (s, (n, a)) ->
  In s ss /\ collides v n a (ns_backend (nsets h s)).
Proof.
  induction ss as [|s' ss IH]; simpl; [discriminate|].
  destruct (backend_collision v (ns_backend (nsets h s'))) as [[n' a']|] eqn:E.
  - intros [= <- <- <-]. split; auto. now apply backend_collision_sound.
  - intros H. destruct (IH H). auto.
Qed.

Lemma sets_collision_complete (h : Heap) (v : Obj) (ss : list sid) s n a :
  In s ss -> collides v n a (ns_backend (nsets h s)) ->
  exists s' n' a', sets_collision h v ss = Some (s', (n', a')).
Proof.
  intros Hin Hc. induction ss as [|s' ss IH]; simpl; [destruct Hin|].
  destruct (backend_collision v (ns_backend (nsets h s'))) as [[n' a']|] eqn:E; eauto.
  destruct Hin as [->|Hin]; auto.
  destruct (backend_collision_complete _ _ _ _ Hc) as (? & ? & ?). congruence.
Qed.

Lemma sets_collision_none (h : Heap) (v : Obj) (ss : list sid) s n a :
  sets_collision h v ss = None -> In s ss ->
  ~ collides v n a (ns_backend (nsets h s)).
Proof.
  intros H Hin Hc.
  destruct (sets_collision_complete h v ss s n a Hin Hc) as (? & ? & ? & ?). congruence.
Qed.
Lemma index_insert_set_o_parent (x : oid) (p : option oid) (o : Obj) (b : Backend) :
  index_insert x (set_o_parent p o) b = index_insert x o b.
Proof.
  induction b as [|[n [d cs]] b IH]; simpl; auto.
  rewrite _get_attribute_set_o_parent. now rewrite IH.
Qed.

(** ** [add] *)

(** The three ways [NamespaceSet.add] ends. *)
Lemma NamespaceSet_add_inv (self : sid) (value : oid) (h h' : Heap) (r : outcome unit) :
  NamespaceSet_add self value h = (h', r) ->
  (exists s n a,
      sets_collision h (objs h value)
        (o_namespace_element_sets (objs h (ns_parent (nsets h self)))) = Some (s, (n, a)) /\
      h' = h /\ r = Exc (Collision n a (Nat.eqb s self)))
  \/ (sets_collision h (objs h value)
        (o_namespace_element_sets (objs h (ns_parent (nsets h self)))) = None /\
      foreign_parent h self value = true /\ h' = h /\ r = Exc Already_has_parent)
  \/ (sets_collision h (objs h value)
        (o_namespace_element_sets (objs h (ns_parent (nsets h self)))) = None /\
      foreign_parent h self value = false /\
      exists b e,
        index_insert value (objs h value) (ns_backend (nsets h self)) = (b, e) /\
        h' = upd_set (upd_obj h value
                        (set_o_parent (Some (ns_parent (nsets h self))) (objs h value)))
                     self (set_ns_backend b (nsets h self)) /\
        r = match e with Some e => Exc e | None => Ret tt end).
Proof.
  unfold NamespaceSet_add, foreign_parent. intros H.
  destruct (sets_collision h (objs h value)
              (o_namespace_element_sets (objs h (ns_parent (nsets h self)))))
    as [[s [n a]]|] eqn:Hc.
  - left. exists s, n, a. inversion H. auto.
  - right.
    destruct (match o_parent (objs h value) with
              | Some p => negb (Nat.eqb p (ns_parent (nsets h self)))
              | None => false end) eqn:Hf.
    + left. inversion H. auto.
    + right. split; [reflexivity|]. split; [reflexivity|].
      rewrite objs_upd_obj_same in H. simpl nsets in H.
      rewrite index_insert_set_o_parent in H.
      destruct (index_insert value (objs h value) (ns_backend (nsets h self)))
        as [b e] eqn:Hi.
      exists b, e. split; [reflexivity|].
      destruct e; inversion H; auto.
Qed.

Lemma index_insert_ok (x : oid) (ox : Obj) (b b' : Backend) :
  index_insert x ox b = (b', None) ->
  forall n d cs, In (n, (d, cs)) b ->
    exists k, _get_attribute ox n cs = Some k /\ In (n, (dict_set k x d, cs)) b'.
Proof.
  revert b'. induction b as [|[n0 [d0 cs0]] b IH]; intros b' H n d cs Hin.
  - destruct Hin.
  - simpl in H.
    destruct (_get_attribute ox n0 cs0) as [k|] eqn:Hk; [|discriminate].
    destruct (index_insert x ox b) as [r' e] eqn:Hr.
    inversion H; subst. clear H.
    destruct Hin as [[= -> -> ->]|Hin].
    + exists k. split; simpl; auto.
    + destruct (IH r' eq_refl n d cs Hin) as (k' & H1 & H2).
      exists k'. split; simpl; auto.
Qed.

Lemma index_insert_names (x : oid) (ox : Obj) (b : Backend) :
  map fst (fst (index_insert x ox b)) = map fst b.
Proof.
  induction b as [|[n [d cs]] b IH]; simpl; auto.
  destruct (_get_attribute ox n cs); simpl; auto.
  destruct (index_insert x ox b); simpl in *. now rewrite IH.
Qed.

(** [OrderedNamespaceSet.add] is [NamespaceSet.add] followed, when that
    returned, by the append to [_order]. *)
Lemma OrderedNamespaceSet_add_unfold (self : sid) (value : oid) (h : Heap) :
  OrderedNamespaceSet_add self value h =
  match NamespaceSet_add self value h with
  | (h1, Ret _) =>
      (upd_set h1 self (set_ns_order (Some (order_of (nsets h1 self) ++ [value]))
                                     (nsets h1 self)), Ret tt)
  | (h1, Exc e) => (h1, Exc e)
  | (h1, OutOfFuel) => (h1, OutOfFuel)
  end.
Proof.
  unfold OrderedNamespaceSet_add, bind.
  destruct (NamespaceSet_add self value h) as [h1 [[]|e|]]; reflexivity.
Qed.

(** What [add] does beyond [NamespaceSet.add] touches [_order] only. *)
Lemma add_base (self : sid) (value : oid) (h h' : Heap) (r : outcome unit) :
  add self value h = (h', r) ->
  exists h1, NamespaceSet_add self value h = (h1, r) /\
             objs h' = objs h1 /\
             (forall s, ns_backend (nsets h' s) = ns_backend (nsets h1 s)) /\
             (forall s, ns_parent (nsets h' s) = ns_parent (nsets h1 s)) /\
             (forall s, s <> self -> nsets h' s = nsets h1 s) /\
             (r <> Ret tt -> h' = h1).
Proof.
  unfold add. destruct (ns_order (nsets h self)).
  - rewrite OrderedNamespaceSet_add_unfold.
    destruct (NamespaceSet_add self value h) as [h1 [[]|e|]];
      intros [= <- <-]; exists h1; repeat split; auto; try congruence.
    + intros s. simpl. destruct (Nat.eqb s self) eqn:E; auto.
      apply Nat.eqb_eq in E. now subst.
    + intros s. simpl. destruct (Nat.eqb s self) eqn:E; auto.
      apply Nat.eqb_eq in E. now subst.
    + intros s Hs. now apply nsets_upd_set_other.
  - intros H. exists h'. repeat split; auto.
Qed.

(** C6.  [add(item)] on a set whose owner holds the sibling sets
    [siblings]: (1) whenever some sibling set tracks an attribute that the
    item carries and the item's value, folded by that index's case rule, is
    already a key there, the call raises the collision [KeyError], which
    names an attribute and value of the item that do collide, and the
    store is as before; (2) an item whose parent is another namespace makes
    the call raise, store as before; (3) when the call returns, the item's
    parent is the owner and every index of this set holds the item under
    the item's folded value; (4) in a case-insensitive index, a second item
    whose value differs from an entered one only by case collides. *)
Theorem add_spec (h : Heap) (self : sid) (item : oid) :
  (forall s attr_name a,
      In s (o_namespace_element_sets (objs h (ns_parent (nsets h self)))) ->
      collides (objs h item) attr_name a (ns_backend (nsets h s)) ->
      exists s' n' a',
        add self item h = (h, Exc (Collision n' a' (Nat.eqb s' self))) /\
        In s' (o_namespace_element_sets (objs h (ns_parent (nsets h self)))) /\
        collides (objs h item) n' a' (ns_backend (nsets h s')))
  /\ (forall p,
         o_parent (objs h item) = Some p -> p <> ns_parent (nsets h self) ->
         exists e, add self item h = (h, Exc e))
  /\ (forall h',
         add self item h = (h', Ret tt) ->
         o_parent (objs h' item) = Some (ns_parent (nsets h self)) /\
         forall attr_name backend cs,
           In (attr_name, (backend, cs)) (ns_backend (nsets h self)) ->
           exists k backend',
             _get_attribute (objs h item) attr_name cs = Some k /\
             In (attr_name, (backend', cs)) (ns_backend (nsets h' self)) /\
             dict_get k backend' = Some item)
  /\ (forall h' attr_name backend s1 s2 item2,
         In self (o_namespace_element_sets (objs h (ns_parent (nsets h self)))) ->
         add self item h = (h', Ret tt) ->
         In (attr_name, (backend, false)) (ns_backend (nsets h self)) ->
         getattr (objs h item) attr_name = Some (VStr s1) ->
         getattr (objs h' item2) attr_name = Some (VStr s2) ->
         upper s1 = upper s2 ->
         exists s' n' a',
           add self item2 h' = (h', Exc (Collision n' a' (Nat.eqb s' self)))).
Proof.
  assert (Hcoll : forall h self item s attr_name a,
      In s (o_namespace_element_sets (objs h (ns_parent (nsets h self)))) ->
      collides (objs h item) attr_name a (ns_backend (nsets h s)) ->
      exists s' n' a',
        add self item h = (h, Exc (Collision n' a' (Nat.eqb s' self))) /\
        In s' (o_namespace_element_sets (objs h (ns_parent (nsets h self)))) /\
        collides (objs h item) n' a' (ns_backend (nsets h s'))).
  { clear. intros h self item s n a Hin Hc.
    destruct (sets_collision_complete h _ _ _ _ _ Hin Hc) as (s' & n' & a' & Hs).
    destruct (sets_collision_sound _ _ _ _ _ _ Hs) as [Hin' Hc'].
    exists s', n', a'. split; [|auto].
    unfold add, OrderedNamespaceSet_add, bind, NamespaceSet_add.
    rewrite Hs. destruct (ns_order (nsets h self)); reflexivity. }
  assert (Hok : forall h',
         add self item h = (h', Ret tt) ->
         o_parent (objs h' item) = Some (ns_parent (nsets h self)) /\
         ns_parent (nsets h' self) = ns_parent (nsets h self) /\
         o_namespace_element_sets (objs h' (ns_parent (nsets h self))) =
           o_namespace_element_sets (objs h (ns_parent (nsets h self))) /\
         forall attr_name backend cs,
           In (attr_name, (backend, cs)) (ns_backend (nsets h self)) ->
           exists k backend',
             _get_attribute (objs h item) attr_name cs = Some k /\
             In (attr_name, (backend', cs)) (ns_backend (nsets h' self)) /\
             dict_get k backend' = Some item).
  { intros h' H.
    destruct (add_base _ _ _ _ _ H) as (h1 & Hb & Ho & Hbk & Hpar & _ & _).
    rewrite Ho, Hpar.
    destruct (NamespaceSet_add_inv _ _ _ _ _ Hb)
      as [(s & n & a & _ & _ & Hr)|[(_ & _ & _ & Hr)|(_ & _ & b & e & Hi & -> & Hr)]];
      try discriminate.
    destruct e; [discriminate|].
    rewrite nsets_upd_set_same. simpl ns_parent.
    split; [simpl; now rewrite Nat.eqb_refl|].
    split; [reflexivity|].
    split.
    { simpl. destruct (Nat.eqb (ns_parent (nsets h self)) item) eqn:E; auto.
      apply Nat.eqb_eq in E. now rewrite E. }
    intros n d cs Hin. rewrite Hbk, nsets_upd_set_same. simpl ns_backend.
    destruct (index_insert_ok _ _ _ _ Hi n d cs Hin) as (k & Hk & Hin').
    exists k, (dict_set k item d). auto using dict_get_set_same. }
  split; [apply Hcoll|]. split; [|split].
  - intros p Hp Hne.
    destruct (add self item h) as [h' r] eqn:H.
    destruct (add_base _ _ _ _ _ H) as (h1 & Hb & _ & _ & _ & _ & Hexc).
    destruct (NamespaceSet_add_inv _ _ _ _ _ Hb)
      as [(s & n & a & _ & -> & ->)|[(_ & _ & -> & ->)|(_ & Hf & _)]].
    + rewrite Hexc by discriminate. eauto.
    + rewrite Hexc by discriminate. eauto.
    + unfold foreign_parent in Hf. rewrite Hp in Hf.
      apply negb_false_iff, Nat.eqb_eq in Hf. contradiction.
  - intros h' H. destruct (Hok h' H) as (H1 & _ & _ & H2). auto.
  - intros h' n d s1 s2 item2 Hself H Hin Ha1 Ha2 Hup.
    destruct (Hok h' H) as (_ & Hpar & Hsib & Hidx).
    destruct (Hidx n d false Hin) as (k & d' & Hk & Hin' & Hget).
    unfold _get_attribute in Hk. rewrite Ha1 in Hk. simpl in Hk.
    injection Hk as <-.
    destruct (Hcoll h' self item2 self n (VStr s2)) as (s' & n' & a' & Hr & _).
    + now rewrite Hpar, Hsib.
    + exists d', false. repeat split; auto.
      simpl. unfold dict_mem. now rewrite <- Hup, Hget.
    + eauto.
Qed.

(** ** Bulk construction and its rollback *)

Lemma for_each_exc {A : Type} (body : A -> M unit) (l : list A) (h h' : Heap) (e : PyExn) :
  for_each l body h = (h', Exc e) ->
  exists pre x post h1,
    l = pre ++ x :: post /\
    for_each pre body h = (h1, Ret tt) /\
    body x h1 = (h', Exc e).
Proof.
  revert h. induction l as [|x l IH]; intros h H.
  - discriminate.
  - simpl in H. unfold bind in H.
    destruct (body x h) as [h1 [[]|e1|]] eqn:Hx.
    + destruct (IH h1 H) as (pre & y & post & h2 & -> & Hpre & Hy).
      exists (x :: pre), y, post, h2. repeat split; auto.
      simpl. unfold bind. now rewrite Hx.
    + injection H as <- <-. exists [], x, l, h. auto.
    + discriminate.
Qed.

Lemma clear_parents_nsets (l : list oid) (h : Heap) :
  nsets (clear_parents l h) = nsets h.
Proof.
  revert h. induction l as [|x l IH]; intros h; simpl; auto.
  unfold clear_parents in IH. now rewrite IH.
Qed.

Lemma clear_parents_keeps_None (l : list oid) (h : Heap) (y : oid) :
  o_parent (objs h y) = None -> o_parent (objs (clear_parents l h) y) = None.
Proof.
  revert h. induction l as [|x l IH]; intros h Hy; simpl; auto.
  apply IH. simpl. destruct (Nat.eqb y x); auto.
Qed.

Lemma clear_parents_In (l : list oid) (h : Heap) (y : oid) :
  In y l -> o_parent (objs (clear_parents l h) y) = None.
Proof.
  revert h. induction l as [|x l IH]; intros h Hin; [destruct Hin|].
  simpl. destruct (Nat.eq_dec x y) as [->|Hne].
  - apply clear_parents_keeps_None. now rewrite objs_upd_obj_same.
  - destruct Hin as [?|Hin]; [contradiction|]. now apply IH.
Qed.

Lemma backend_cleared_empty (b : Backend) (n : string) (d : pydict) (cs : bool) :
  In (n, (d, cs)) (backend_cleared b) -> d = [].
Proof.
  unfold backend_cleared. rewrite in_map_iff.
  intros ([n' [d' cs']] & [= _ <- _] & _). reflexivity.
Qed.

Lemma assoc_set_not_nil {B : Type} (k : string) (v : B) (l : list (string * B)) :
  assoc_set k v l <> [].
Proof. destruct l as [|[k' v'] l]; simpl; [|destruct (String.eqb k' k)]; discriminate. Qed.

Lemma init_backend_not_nil (names : list (string * bool)) (b : Backend) :
  names <> [] \/ b <> [] -> init_backend names b <> [].
Proof.
  revert b. induction names as [|[n cs] names IH]; intros b H; simpl.
  - destruct H as [H|H]; [now elim H | exact H].
  - apply IH. right. apply assoc_set_not_nil.
Qed.

Lemma index_insert_values (x : oid) (v : Obj) (b b' : Backend) (e : option PyExn) :
  (forall n a, ~ collides v n a b) ->
  index_insert x v b = (b', e) ->
  (forall y, In y (backend_values b) -> In y (backend_values b')) /\
  (e = None -> b <> [] -> In x (backend_values b')).
Proof.
  revert b' e. induction b as [|[n [d cs]] b IH]; intros b' e Hnc H.
  - simpl in H. injection H as <- <-. split; auto. congruence.
  - simpl in H. unfold _get_attribute in H.
    destruct (getattr v n) as [a|] eqn:Ha; simpl in H.
    + destruct (index_insert x v b) as [r' e'] eqn:Hr.
      injection H as <- <-.
      assert (Hm : dict_mem (fold_case cs a) d = false).
      { destruct (dict_mem (fold_case cs a) d) eqn:Hm; auto.
        exfalso. apply (Hnc n a). exists d, cs. simpl. auto. }
      assert (Hnc' : forall n a, ~ collides v n a b).
      { intros n0 a0 (d0 & cs0 & Hin & H1 & H2). apply (Hnc n0 a0).
        exists d0, cs0. simpl. auto. }
      destruct (IH r' e' Hnc' eq_refl) as [IH1 IH2].
      unfold backend_values in *. simpl.
      rewrite (dict_set_fresh _ _ _ Hm). unfold dict_values. rewrite map_app. simpl.
      split.
      * intros y Hy. apply in_app_or in Hy. apply in_or_app.
        destruct Hy as [Hy|Hy]; [left; apply in_or_app; auto|right; auto].
      * intros _ _. apply in_or_app. left. apply in_or_app. right. simpl. auto.
    + injection H as <- <-. split; auto. discriminate.
Qed.

(** One [add] on an attached set keeps it attached, keeps what its indexes
    hold and, when it returns, has entered the item. *)
Lemma add_keeps_members (self : sid) (x : oid) (h h' : Heap) (r : outcome unit) :
  attached h self ->
  add self x h = (h', r) ->
  attached h' self /\
  ns_parent (nsets h' self) = ns_parent (nsets h self) /\
  (forall y, In y (backend_values (ns_backend (nsets h self))) ->
             In y (backend_values (ns_backend (nsets h' self)))) /\
  (r = Ret tt -> In x (backend_values (ns_backend (nsets h' self)))).
Proof.
  intros [Hreg Hne] H.
  destruct (add_base _ _ _ _ _ H) as (h1 & Hb & Ho & Hbk & Hpar & _ & _).
  unfold attached. rewrite Ho, Hbk, Hpar. clear H Ho Hbk Hpar.
  destruct (NamespaceSet_add_inv _ _ _ _ _ Hb)
    as [(s & n & a & _ & -> & ->)|[(_ & _ & -> & ->)|(Hc & _ & b & e & Hi & -> & ->)]].
  - repeat split; auto. discriminate.
  - repeat split; auto. discriminate.
  - rewrite nsets_upd_set_same. simpl ns_parent. simpl ns_backend.
    assert (Hnc : forall n a, ~ collides (objs h x) n a (ns_backend (nsets h self))).
    { intros n a. now apply (sets_collision_none _ _ _ self n a Hc). }
    destruct (index_insert_values _ _ _ _ _ Hnc Hi) as [Hv1 Hv2].
    assert (Hb' : b <> []).
    { intros ->. apply Hne.
      pose proof (index_insert_names x (objs h x) (ns_backend (nsets h self))) as Hn.
      rewrite Hi in Hn. simpl in Hn. symmetry in Hn.
      now apply map_eq_nil in Hn. }
    repeat split; auto.
    + simpl. destruct (Nat.eqb (ns_parent (nsets h self)) x) eqn:E; auto.
      apply Nat.eqb_eq in E. simpl. now rewrite <- E.
    + intros He. destruct e; [discriminate|]. auto.
Qed.

Lemma for_each_add_members (self : sid) (l : list oid) (h h' : Heap) :
  attached h self ->
  for_each l (add self) h = (h', Ret tt) ->
  attached h' self /\
  ns_parent (nsets h' self) = ns_parent (nsets h self) /\
  (forall y, In y l -> In y (backend_values (ns_backend (nsets h' self)))).
Proof.
  revert h. induction l as [|x l IH]; intros h Ha H.
  - injection H as <-. split; [exact Ha|]. split; [reflexivity|]. intros y [].
  - simpl in H. unfold bind in H.
    destruct (add self x h) as [h1 [[]|e1|]] eqn:Hx; try discriminate.
    destruct (add_keeps_members _ _ _ _ _ Ha Hx) as (Ha1 & Hp1 & Hk1 & Hx1).
    destruct (IH h1 Ha1 H) as (Ha' & Hp' & Hl).
    split; [exact Ha'|]. split; [congruence|].
    intros y [<-|Hy]; auto.
    specialize (Hx1 eq_refl).
    clear IH Hl. revert Hx1. generalize x. clear - Ha1 H.
    revert h1 Ha1 H. induction l as [|z l IH]; intros h1 Ha1 H x Hx.
    + now injection H as <-.
    + simpl in H. unfold bind in H.
      destruct (add self z h1) as [h2 [[]|e1|]] eqn:Hz; try discriminate.
      destruct (add_keeps_members _ _ _ _ _ Ha1 Hz) as (Ha2 & _ & Hk2 & _).
      apply (IH h2 Ha2 H). auto.
Qed.

(** What [clear] leaves behind. *)
Lemma clear_spec (self : sid) (h : Heap) :
  exists h1,
    clear self h = (h1, Ret tt) /\
    (forall y, In y (backend_values (ns_backend (nsets h self))) ->
               o_parent (objs h1 y) = None) /\
    ns_backend (nsets h1 self) = backend_cleared (ns_backend (nsets h self)) /\
    (ns_order (nsets h self) <> None -> ns_order (nsets h1 self) = Some []) /\
    (ns_order (nsets h self) = None -> ns_order (nsets h1 self) = None).
Proof.
  unfold clear, OrderedNamespaceSet_clear, NamespaceSet_clear, bind, modify, set_order.
  destruct (ns_order (nsets h self)) eqn:Ho; eexists; (split; [reflexivity|]).
  - rewrite !clear_parents_nsets. simpl. rewrite !Nat.eqb_refl. simpl.
    repeat split; auto; try congruence.
    intros y Hy. now apply clear_parents_In.
  - rewrite !clear_parents_nsets. simpl. rewrite !Nat.eqb_refl. simpl.
    repeat split; auto; try congruence.
    intros y Hy. now apply clear_parents_In.
Qed.

Lemma for_each_fails_at {A : Type} (body : A -> M unit) (pre : list A) (x : A)
      (post : list A) (h h1 h2 : Heap) (e : PyExn) :
  for_each pre body h = (h1, Ret tt) ->
  body x h1 = (h2, Exc e) ->
  for_each (pre ++ x :: post) body h = (h2, Exc e).
Proof.
  revert h. induction pre as [|y pre IH]; intros h Hpre Hx.
  - simpl in Hpre. injection Hpre as ->. simpl. unfold bind. now rewrite Hx.
  - simpl in *. unfold bind in *. destruct (body y h) as [h0 [[]|e0|]]; try discriminate.
    now apply IH.
Qed.

Lemma clear_parents_sets (l : list oid) (h : Heap) (y : oid) :
  o_namespace_element_sets (objs (clear_parents l h) y)
  = o_namespace_element_sets (objs h y).
Proof.
  revert h. induction l as [|x l IH]; intros h; [reflexivity|].
  simpl. unfold clear_parents in IH. rewrite IH. simpl.
  destruct (Nat.eqb y x) eqn:E; [|reflexivity].
  apply Nat.eqb_eq in E. now subst.
Qed.

Lemma clear_keeps_owner (self : sid) (h h1 : Heap) (r : outcome unit) :
  clear self h = (h1, r) ->
  ns_parent (nsets h1 self) = ns_parent (nsets h self) /\
  forall y, o_namespace_element_sets (objs h1 y) = o_namespace_element_sets (objs h y).
Proof.
  unfold clear, OrderedNamespaceSet_clear, NamespaceSet_clear, bind, modify, set_order.
  destruct (ns_order (nsets h self)); intros H; injection H as <- _; simpl;
    rewrite ?Nat.eqb_refl; simpl; rewrite ?clear_parents_nsets; split; try reflexivity.
  all: intros y; apply clear_parents_sets.
Qed.

(** C5, as the code has it.  The construction of a set with at least one
    index adds [pre] and then fails on [x] with [e]: the constructor
    raises [e]; every item of [pre] is parentless again, every index of
    the set is empty, the set iterates over nothing and has length 0.
    The owner goes on listing the emptied set. *)
Theorem NamespaceSet_init_rollback
        (self : sid) (ordered : bool) (parent : oid)
        (attribute_names : list (string * bool)) (pre : list oid) (x : oid)
        (post : list oid) (h h1 h2 : Heap) (e : PyExn) :
  attribute_names <> [] ->
  for_each pre (add self)
           (NamespaceSet_register self ordered parent attribute_names h) = (h1, Ret tt) ->
  add self x h1 = (h2, Exc e) ->
  exists h',
    NamespaceSet_init self ordered parent attribute_names (pre ++ x :: post) h
      = (h', Exc e) /\
    (forall y, In y pre -> o_parent (objs h' y) = None) /\
    (forall n d cs, In (n, (d, cs)) (ns_backend (nsets h' self)) -> d = []) /\
    iter_set (nsets h' self) = Ret [] /\
    NamespaceSet_len (nsets h' self) = Ret 0 /\
    In self (o_namespace_element_sets (objs h' parent)).
Proof.
  intros Hnames Hpre Hx.
  set (h0 := NamespaceSet_register self ordered parent attribute_names h) in *.
  assert (Ha0 : attached h0 self).
  { unfold attached, h0, NamespaceSet_register.
    rewrite nsets_upd_set_same. simpl ns_parent. simpl ns_backend. split.
    - simpl. rewrite Nat.eqb_refl. simpl. apply in_or_app. right. simpl. auto.
    - apply init_backend_not_nil. auto. }
  assert (Hp0 : ns_parent (nsets h0 self) = parent).
  { unfold h0, NamespaceSet_register. now rewrite nsets_upd_set_same. }
  destruct (for_each_add_members _ _ _ _ Ha0 Hpre) as (Ha1 & Hp1 & Hm).
  destruct (add_keeps_members _ _ _ _ _ Ha1 Hx) as (Ha2 & Hp2 & Hk & _).
  destruct (clear_spec self h2) as (hc & Hc & Hpar & Hbk & Hord1 & Hord2).
  destruct (clear_keeps_owner _ _ _ _ Hc) as (Hpc & Hsc).
  exists hc. split.
  { unfold NamespaceSet_init, bind, modify, try_cleanup. fold h0.
    rewrite (for_each_fails_at (add self) pre x post h0 h1 h2 e Hpre Hx).
    now rewrite Hc. }
  destruct Ha2 as [Hin2 Hne2].
  split; [intros y Hy; apply Hpar; auto|].
  split; [intros n d cs Hin; rewrite Hbk in Hin; eapply backend_cleared_empty; eauto|].
  split.
  { unfold iter_set, NamespaceSet_iter. rewrite Hbk.
    destruct (ns_order (nsets h2 self)) eqn:Ho.
    + rewrite Hord1 by discriminate. reflexivity.
    + rewrite Hord2 by reflexivity.
      destruct (ns_backend (nsets h2 self)) as [|[n [d cs]] b]; [congruence|].
      reflexivity. }
  split.
  { unfold NamespaceSet_len. rewrite Hbk.
    destruct (ns_backend (nsets h2 self)) as [|[n [d cs]] b]; [congruence|].
    reflexivity. }
  rewrite Hsc. rewrite Hp2, Hp1, Hp0 in Hin2. exact Hin2.
Qed.

(** ** Renaming *)

Lemma well_formed_not_empty (s : string) : well_formed_id_short s -> s <> "".
Proof. intros [_ H] ->. discriminate. Qed.

Lemma existsb_contains_id (h : Heap) (sets : list sid) (set_ : sid)
      (backend : pydict) (cs : bool) (v : pyval) :
  In set_ sets ->
  assoc "id_short" (ns_backend (nsets h set_)) = Some (backend, cs) ->
  dict_mem (fold_case cs v) backend = true ->
  existsb (fun s => contains_id (nsets h s) "id_short" v) sets = true.
Proof.
  intros Hin Ha Hm. apply existsb_exists. exists set_. split; auto.
  unfold contains_id. now rewrite Ha.
Qed.

(** The setter stops at the collision check, before it has written
    anything. *)
Lemma _set_id_short_collision (self : oid) (id_short : string) (h : Heap)
      (parent : oid) (set_ : sid) (backend : pydict) (cs : bool) :
  id_short <> o_id_short (objs h self) ->
  well_formed_id_short id_short ->
  o_parent (objs h self) = Some parent ->
  In set_ (o_namespace_element_sets (objs h parent)) ->
  assoc "id_short" (ns_backend (nsets h set_)) = Some (backend, cs) ->
  dict_mem (fold_case cs (VStr id_short)) backend = true ->
  _set_id_short self id_short h = (h, Exc (Present_in_parent id_short)).
Proof.
  intros Hne Hwf Hp Hin Ha Hm. unfold _set_id_short.
  apply String.eqb_neq in Hne. rewrite Hne.
  pose proof (well_formed_not_empty _ Hwf) as Hnz.
  apply String.eqb_neq in Hnz. rewrite Hnz.
  destruct Hwf as [Hf Hs]. rewrite Hf, Hs. simpl. rewrite Hp.
  now rewrite (existsb_contains_id _ _ _ _ _ _ Hin Ha Hm).
Qed.

(** C7.  Renaming a contained element to a well-formed short-name whose
    folded form is already a key of the [id_short] index of some set of
    the owner raises the collision [KeyError], and the store is exactly as
    it was: no index entry and no field has been touched. *)
Theorem rename_collision_leaves_store
        (self : oid) (id_short : string) (h : Heap)
        (parent : oid) (set_ : sid) (backend : pydict) (cs : bool) :
  id_short <> o_id_short (objs h self) ->
  well_formed_id_short id_short ->
  o_parent (objs h self) = Some parent ->
  In set_ (o_namespace_element_sets (objs h parent)) ->
  assoc "id_short" (ns_backend (nsets h set_)) = Some (backend, cs) ->
  dict_mem (fold_case cs (VStr id_short)) backend = true ->
  exists e,
    _set_id_short self id_short h = (h, Exc e) /\
    e = Present_in_parent id_short /\ exn_class e = KeyError.
Proof.
  intros. eexists. split; [eapply _set_id_short_collision; eauto|]. auto.
Qed.

Lemma In_all_ascii (c : ascii) : In c all_ascii.
Proof.
  unfold all_ascii. rewrite <- (ascii_nat_embedding c).
  apply in_map, in_seq. pose proof (nat_ascii_bounded c). lia.
Qed.

Lemma case_variant_char (P : ascii -> bool) (c1 c2 : ascii) :
  case_variant_check P = true ->
  ascii_upper c1 = ascii_upper c2 -> P c2 = true -> P c1 = true.
Proof.
  unfold case_variant_check. intros H Hu HP.
  rewrite forallb_forall in H. specialize (H c1 (In_all_ascii c1)).
  rewrite forallb_forall in H. specialize (H c2 (In_all_ascii c2)).
  rewrite Hu, Ascii.eqb_refl, HP in H. simpl in H.
  destruct (P c1); auto.
Qed.

Lemma case_variant_id_short_char : case_variant_check is_id_short_char = true.
Proof. vm_compute. reflexivity. Qed.

Lemma case_variant_letter : case_variant_check is_ascii_letter = true.
Proof. vm_compute. reflexivity. Qed.

Lemma case_variant_well_formed (s1 s2 : string) :
  upper_ascii s1 = upper_ascii s2 -> well_formed_id_short s2 -> well_formed_id_short s1.
Proof.
  intros Hu [Hf Hs]. split.
  - clear Hs. revert s2 Hu Hf. induction s1 as [|c1 s1 IH]; intros s2 Hu Hf; auto.
    destruct s2 as [|c2 s2]; [discriminate|]. simpl in *.
    injection Hu as Hc Hr. apply andb_true_iff in Hf. destruct Hf as [Hc2 Hf].
    apply andb_true_iff. split.
    + exact (case_variant_char _ _ _ case_variant_id_short_char Hc Hc2).
    + exact (IH _ Hr Hf).
  - destruct s1 as [|c1 s1], s2 as [|c2 s2]; simpl in *; try discriminate.
    injection Hu as Hc _.
    exact (case_variant_char _ _ _ case_variant_letter Hc Hs).
Qed.

Lemma id_short_char_is_ascii (c : ascii) :
  is_id_short_char c = true -> (nat_of_ascii c <? 128)%nat = true.
Proof.
  destruct c as [[] [] [] [] [] [] [] []]; vm_compute; intros E; congruence.
Qed.

(** A well-formed short-name is ASCII text, so [upper] is known on it. *)
Lemma well_formed_is_ascii (s : string) :
  well_formed_id_short s -> is_ascii s = true.
Proof.
  intros [Hf _]. induction s as [|c s IH]; [reflexivity|].
  simpl in Hf. apply andb_true_iff in Hf. destruct Hf as [Hc Hf].
  cbn [is_ascii]. rewrite (id_short_char_is_ascii c Hc). exact (IH Hf).
Qed.

Lemma upper_well_formed (s : string) :
  well_formed_id_short s -> upper s = upper_ascii s.
Proof. intros H. apply upper_on_ascii, well_formed_is_ascii, H. Qed.

(** C10.  An element with a well-formed short-name that is held by a
    case-insensitive [id_short] index of its parent cannot be renamed to a
    different spelling of the same name: the new value folds to the
    element's own key, the setter raises the collision [KeyError], and the
    store, the short-name included, is as it was. *)
Theorem rename_to_case_variant_collides
        (self : oid) (id_short : string) (h : Heap)
        (parent : oid) (set_ : sid) (backend : pydict) :
  o_parent (objs h self) = Some parent ->
  In set_ (o_namespace_element_sets (objs h parent)) ->
  assoc "id_short" (ns_backend (nsets h set_)) = Some (backend, false) ->
  dict_get (VStr (upper (o_id_short (objs h self)))) backend = Some self ->
  well_formed_id_short (o_id_short (objs h self)) ->
  id_short <> o_id_short (objs h self) ->
  upper_ascii id_short = upper_ascii (o_id_short (objs h self)) ->
  _set_id_short self id_short h = (h, Exc (Present_in_parent id_short)) /\
  o_id_short (objs (fst (_set_id_short self id_short h)) self) = o_id_short (objs h self).
Proof.
  intros Hp Hin Ha Hd Hwf Hne Hu.
  assert (Hwf' : well_formed_id_short id_short)
    by (eapply case_variant_well_formed; eauto).
  assert (H : _set_id_short self id_short h = (h, Exc (Present_in_parent id_short))).
  { eapply _set_id_short_collision; eauto.
    simpl. unfold dict_mem.
    rewrite (upper_well_formed id_short Hwf'), Hu, <- (upper_well_formed _ Hwf).
    now rewrite Hd. }
  split; [exact H|]. now rewrite H.
Qed.

(** ** Resolving references: the errors *)

Lemma last_identifier_index_nil : last_identifier_index [] = None.
Proof. reflexivity. Qed.

(** An empty key sequence raises the [IndexError]. *)
Lemma resolve_empty (type_ : PyClass) (provider_ : Identifier -> option oid) (h : Heap) :
  resolve (mkAASReference [] type_) provider_ h = Exc Keys_empty.
Proof. reflexivity. Qed.

(** A provider that does not know the identifier of the last global key
    makes [resolve] raise the [KeyError] that carries the identifier. *)
Lemma resolve_provider_miss (self : AASReference) (provider_ : Identifier -> option oid)
      (h : Heap) (i : nat) (identifier : Identifier) :
  last_identifier_index (ref_key self) = Some i ->
  Key_get_identifier (nth i (ref_key self) dummy_key) = Some identifier ->
  provider_ identifier = None ->
  resolve self provider_ h = Exc (Unresolved_global identifier).
Proof.
  intros Hi Hk Hp. unfold resolve.
  destruct (ref_key self) as [|k ks] eqn:E; [discriminate|].
  now rewrite Hi, Hk, Hp.
Qed.

(** A walk that ends on an element outside the class [type] raises the
    [UnexpectedTypeError] that carries the element. *)
Lemma resolve_unexpected_type (self : AASReference) (provider_ : Identifier -> option oid)
      (h : Heap) (i : nat) (identifier : Identifier) (root item : oid) :
  last_identifier_index (ref_key self) = Some i ->
  Key_get_identifier (nth i (ref_key self) dummy_key) = Some identifier ->
  provider_ identifier = Some root ->
  follow_keys h [Identifier_str identifier] (skipn (S i) (ref_key self)) root = Ret item ->
  isinstance (objs h item) (ref_type self) = false ->
  resolve self provider_ h = Exc (UnexpectedTypeError item).
Proof.
  intros Hi Hk Hp Hf Ht. unfold resolve.
  destruct (ref_key self) as [|k ks] eqn:E; [discriminate|].
  now rewrite Hi, Hk, Hp, Hf, Ht.
Qed.

Lemma get_object_by_attribute_exn (S : NSet) (n : string) (v : pyval) (e : PyExn) :
  get_object_by_attribute S n v = Exc e ->
  is_KeyError e = true \/ e = No_attribute "upper".
Proof.
  unfold get_object_by_attribute.
  destruct (assoc n (ns_backend S)) as [[d cs]|]; [|intros [= <-]; auto].
  destruct cs.
  - destruct (dict_get v d); [discriminate|]. intros [= <-]. auto.
  - destruct v; try (intros [= <-]; auto).
    destruct (dict_get (VStr (upper s)) d); [discriminate|]. intros [= <-]. auto.
Qed.

Lemma _get_object_exn (h : Heap) (ss : list sid) (n : string) (v : pyval) (e : PyExn) :
  _get_object h ss n v = Exc e ->
  is_KeyError e = true \/ e = No_attribute "upper".
Proof.
  induction ss as [|s ss IH]; simpl.
  - intros [= <-]. auto.
  - destruct (get_object_by_attribute (nsets h s) n v) as [x|e'|] eqn:E;
      try discriminate.
    destruct (is_KeyError e') eqn:Ek; auto.
    intros [= <-]. destruct (get_object_by_attribute_exn _ _ _ _ E); auto.
Qed.

(** Whatever the depth at which the walk meets an element that is not a
    namespace, the [TypeError] carries [resolved_keys] as it was before the
    first step: the loop never appends to it. *)
Lemma follow_keys_Not_a_Namespace (h : Heap) (resolved_keys rk : list string)
      (keys : list Key) (item : oid) :
  follow_keys h resolved_keys keys item = Exc (Not_a_Namespace rk) ->
  rk = resolved_keys.
Proof.
  revert item. induction keys as [|k keys IH]; intros item; simpl; [discriminate|].
  destruct (isinstance (objs h item) UniqueIdShortNamespace); simpl.
  - destruct (get_referable h item (key_value k)) as [x|e|] eqn:E; try discriminate.
    + apply IH.
    + destruct (is_KeyError e) eqn:Ek; [discriminate|].
      intros [= ->]. unfold get_referable in E.
      destruct (_get_object_exn _ _ _ _ _ E); [|discriminate].
      discriminate.
  - now intros [= ->].
Qed.

End NamespaceSets.

Section NamespaceSetsExamples.

#[local] Existing Instance ascii_runtime.

Lemma add_spec_witness :
  (exists s' n' a', add 0 2 store1 = (store1, Exc (Collision n' a' (Nat.eqb s' 0))))
  /\ (exists e, add 0 4 store1 = (store1, Exc e))
  /\ o_parent (objs (exec (add 0 3) store1) 3) = Some 0
  /\ (exists s' n' a',
         add 0 5 (exec (add 0 3) store1)
         = (exec (add 0 3) store1, Exc (Collision n' a' (Nat.eqb s' 0)))).
Proof.
  destruct (add_spec store1 0 2) as (H1 & _).
  destruct (add_spec store1 0 4) as (_ & H2 & _).
  destruct (add_spec store1 0 3) as (_ & _ & H3 & H4).
  split; [|split; [|split]].
  - destruct (H1 0 "id_short" (VStr "ABC")) as (s' & n' & a' & H & _).
    + simpl. auto.
    + exists [(VStr "ABC", 1)], false. repeat split. simpl. auto.
    + eauto.
  - apply (H2 9); [reflexivity | discriminate].
  - apply (H3 (exec (add 0 3) store1)). reflexivity.
  - apply (H4 (exec (add 0 3) store1) "id_short" [(VStr "ABC", 1)] "def" "Def" 5).
    + simpl. auto.
    + reflexivity.
    + simpl. auto.
    + reflexivity.
    + reflexivity.
    + reflexivity.
Defined.

Lemma rename_collision_leaves_store_witness :
  exists e,
    _set_id_short 3 "Abc" store2 = (store2, Exc e) /\
    e = Present_in_parent "Abc" /\ exn_class e = KeyError.
Proof.
  apply (rename_collision_leaves_store 3 "Abc" store2 0 0
           [(VStr "ABC", 1); (VStr "DEF", 3)] false).
  - discriminate.
  - split; reflexivity.
  - reflexivity.
  - simpl. auto.
  - reflexivity.
  - reflexivity.
Defined.

Lemma rename_to_case_variant_collides_witness :
  _set_id_short 1 "Abc" store1 = (store1, Exc (Present_in_parent "Abc")) /\
  o_id_short (objs (fst (_set_id_short 1 "Abc" store1)) 1) = "abc".
Proof.
  apply (rename_to_case_variant_collides 1 "Abc" store1 0 0 [(VStr "ABC", 1)]).
  - reflexivity.
  - simpl. auto.
  - reflexivity.
  - reflexivity.
  - split; reflexivity.
  - discriminate.
  - reflexivity.
Defined.

(** Four items, the third collides with the first. *)
Lemma NamespaceSet_init_rollback_witness :
  exists h',
    NamespaceSet_init 0 false 0 [("id_short", false)] ([1; 3] ++ 2 :: [5]) store0
      = (h', Exc (Collision "id_short" (VStr "ABC") true)) /\
    (forall y, In y [1; 3] -> o_parent (objs h' y) = None) /\
    (forall n d cs, In (n, (d, cs)) (ns_backend (nsets h' 0)) -> d = []) /\
    iter_set (nsets h' 0) = Ret [] /\
    NamespaceSet_len (nsets h' 0) = Ret 0 /\
    In 0 (o_namespace_element_sets (objs h' 0)).
Proof.
  apply (NamespaceSet_init_rollback 0 false 0 [("id_short", false)] [1; 3] 2 [5] store0
           (exec (for_each [1; 3] (add 0))
                 (NamespaceSet_register 0 false 0 [("id_short", false)] store0))
           (exec (for_each [1; 3] (add 0))
                 (NamespaceSet_register 0 false 0 [("id_short", false)] store0))).
  - discriminate.
  - apply exec_returned. vm_compute. reflexivity.
  - vm_compute. reflexivity.
Defined.

(** Where C5 fails.  A failed construction leaves traces: the owner lists
    the set that it did not list before; an item that lacks the indexed
    attribute makes [add] fail after the parent was set, and keeps the
    owner as parent; and in a set without any index [clear] finds no
    item, so the item added first keeps its parent. *)
Lemma NamespaceSet_init_leaves_traces :
  (* the set is not listed before the construction *)
  o_namespace_element_sets (objs store0 0) = [] /\
  (* a collision at the third item: the owner lists the emptied set *)
  (let r := NamespaceSet_init 0 false 0 [("id_short", false)] [1; 3; 2; 5] store0 in
   snd r = Exc (Collision "id_short" (VStr "ABC") true) /\
   o_namespace_element_sets (objs (fst r) 0) = [0]) /\
  (* an item without the indexed attribute: it keeps the owner as parent *)
  (let r := NamespaceSet_init 0 false 0 [("id_short", false)] [1; 6] store0 in
   snd r = Exc (No_attribute "id_short") /\
   o_parent (objs store0 6) = None /\
   o_parent (objs (fst r) 6) = Some 0 /\
   o_parent (objs (fst r) 1) = None /\
   o_namespace_element_sets (objs (fst r) 0) = [0]) /\
  (* a set without any index: the item added first keeps its parent *)
  (let r := NamespaceSet_init 0 false 0 [] [1; 4] store0 in
   snd r = Exc Already_has_parent /\
   o_parent (objs store0 1) = None /\
   o_parent (objs (fst r) 1) = Some 0).
Proof. vm_compute. repeat split. Qed.

(** C9 (the code differs).  On [reference4] the walk goes from the
    submodel through [collection] to [prop] and stops there with the
    [TypeError]; the path the error names is the identifier of the
    submodel alone, not the path walked so far
    (identifier / collection / prop). *)
Theorem resolve_type_error_names_root_only :
  follow_keys store3 ["Identifier(IRI=urn:x-test:submodel)"]
              [mkKey SUBMODEL_ELEMENT_COLLECTION "collection" IDSHORT;
               mkKey PROPERTY "prop" IDSHORT] 20 = Ret 22 /\
  isinstance (objs store3 22) UniqueIdShortNamespace = false /\
  resolve reference4 provider3 store3
  = Exc (Not_a_Namespace ["Identifier(IRI=urn:x-test:submodel)"]).
Proof. repeat split; reflexivity. Qed.

End NamespaceSetsExamples.

Section References.

Context {py : PyRuntime}.

(** ** The round trip [from_referable] / [resolve] *)

Section RoundTrip.

Variable KEY_ELEMENTS_CLASSES : PyClass -> option KeyElements.
Variable provider_ : Identifier -> option oid.
Variable h : Heap.

Lemma last_cons_default (x : oid) (l : list oid) (d : oid) :
  last (x :: l) d = last l x.
Proof.
  revert x d. induction l as [|y l IH]; intros x d; [reflexivity|].
  change (last (x :: y :: l) d) with (last (y :: l) d).
  now rewrite (IH y d), (IH y x).
Qed.

Lemma descends_app (p : oid) (l : list oid) (c : oid) :
  descends KEY_ELEMENTS_CLASSES h p (l ++ [c]) <->
  descends KEY_ELEMENTS_CLASSES h p l /\ child_of KEY_ELEMENTS_CLASSES h (last l p) c.
Proof.
  revert p. induction l as [|x l IH]; intros p.
  - simpl. tauto.
  - rewrite last_cons_default. simpl. rewrite IH. tauto.
Qed.

Lemma Key_from_referable_local (c p : oid) :
  child_of KEY_ELEMENTS_CLASSES h p c ->
  Key_from_referable KEY_ELEMENTS_CLASSES (objs h c)
  = Ret (local_key KEY_ELEMENTS_CLASSES h c).
Proof.
  intros (_ & _ & _ & _ & Hni & Hne & Hg & Ha & _).
  unfold Key_from_referable, Key_init, local_key. rewrite Hni.
  apply String.eqb_neq in Hne. rewrite Hne.
  destruct (class_key_type KEY_ELEMENTS_CLASSES (objs h c)); try reflexivity; congruence.
Qed.

Lemma Key_from_referable_global (root : oid) :
  isinstance (objs h root) Identifiable = true ->
  id (o_identification (objs h root)) <> "" ->
  Key_from_referable KEY_ELEMENTS_CLASSES (objs h root)
  = Ret (global_key KEY_ELEMENTS_CLASSES h root).
Proof.
  intros Hi Hne. unfold Key_from_referable, Key_init, global_key. rewrite Hi.
  apply String.eqb_neq in Hne. rewrite Hne.
  destruct (id_type (o_identification (objs h root)));
    destruct (class_key_type KEY_ELEMENTS_CLASSES (objs h root)); reflexivity.
Qed.

(** The upward walk of [from_referable] from the last element of [below]
    collects the keys of the chain, the key of the root first. *)
Lemma from_referable_loop_chain (root : oid) (below : list oid) :
  isinstance (objs h root) Identifiable = true ->
  id (o_identification (objs h root)) <> "" ->
  descends KEY_ELEMENTS_CLASSES h root below ->
  forall (fuel : nat) (t : PyClass) (keys : list Key),
    length below < fuel ->
    from_referable_loop KEY_ELEMENTS_CLASSES fuel h t (last below root) keys
    = Ret (mkAASReference
             (global_key KEY_ELEMENTS_CLASSES h root
                :: map (local_key KEY_ELEMENTS_CLASSES h) below ++ keys) t).
Proof.
  intros Hi Hne. induction below as [|c l IH] using rev_ind; intros Hd fuel t keys Hf.
  - simpl. destruct fuel; [lia|]. simpl.
    rewrite Key_from_referable_global, Hi by assumption. reflexivity.
  - apply descends_app in Hd. destruct Hd as [Hd Hc].
    rewrite last_last. rewrite length_app in Hf. simpl in Hf.
    destruct fuel; [lia|]. simpl.
    rewrite (Key_from_referable_local _ _ Hc).
    destruct Hc as (Hp & _ & Hr & _ & Hni & _).
    rewrite Hni, Hp, Hr. rewrite IH by (auto; lia).
    rewrite map_app. simpl. now rewrite <- app_assoc.
Qed.






Lemma Key_get_identifier_global (root : oid) :
  Key_get_identifier (global_key KEY_ELEMENTS_CLASSES h root)
  = Some (o_identification (objs h root)).
Proof.
  unfold Key_get_identifier, global_key. simpl.
  destruct (o_identification (objs h root)) as [i t]. simpl. now destruct t.
Qed.



End RoundTrip.

End References.

Section ReferencesExamples.

#[local] Existing Instance ascii_runtime.

Lemma store3_child_21 : child_of example_KEY_ELEMENTS_CLASSES store3 20 21.
Proof.
  repeat split; try reflexivity; try discriminate.
  - exists 2, [(VStr "COLLECTION", 21)], false. repeat split. simpl. auto.
  - intros set_ backend cs x [<-|[]] Ha Hd.
    vm_compute in Ha. injection Ha as <- <-.
    vm_compute in Hd. congruence.
Qed.

Lemma store3_child_22 : child_of example_KEY_ELEMENTS_CLASSES store3 21 22.
Proof.
  repeat split; try reflexivity; try discriminate.
  - exists 3, [(VStr "PROP", 22)], false. repeat split. simpl. auto.
  - intros set_ backend cs x [<-|[]] Ha Hd.
    vm_compute in Ha. injection Ha as <- <-.
    vm_compute in Hd. congruence.
Qed.


End ReferencesExamples.

Section BackendCalls.

Context {py : PyRuntime}.

(** ** Synchronisation: which calls reach the backends *)

Lemma add_calls_nil (h : Heap) : add_calls [] h = h.
Proof. destruct h. unfold add_calls. simpl. now rewrite app_nil_r. Qed.

Lemma add_calls_app (l1 l2 : list BackendCall) (h : Heap) :
  add_calls l2 (add_calls l1 h) = add_calls (l1 ++ l2) h.
Proof. unfold add_calls. simpl. now rewrite app_assoc. Qed.

Lemma same_graph_refl (h : Heap) : same_graph h h.
Proof. split; reflexivity. Qed.

Lemma same_graph_add_calls (h0 h : Heap) (l : list BackendCall) :
  same_graph h0 h -> same_graph h0 (add_calls l h).
Proof. intros [H1 H2]. split; assumption. Qed.

Lemma children_of_same_graph (h0 h : Heap) (x : oid) :
  same_graph h0 h -> children_of h x = children_of h0 x.
Proof. intros [H1 H2]. unfold children_of. now rewrite H1, H2. Qed.

Section Quiet.

Variable _backends_map : list (string * BackendImpl).
Hypothesis Hquiet : quiet_registry _backends_map.

Lemma get_backend_quiet (source : string) :
  source_ok _backends_map source = true -> source <> "" ->
  exists b, get_backend _backends_map source = Ret b /\ quiet b.
Proof.
  unfold source_ok. intros H Hne. apply String.eqb_neq in Hne. rewrite Hne in H.
  simpl in H. destruct (get_backend _backends_map source) as [b| |] eqn:E;
    try discriminate.
  exists b. split; auto. unfold get_backend in E.
  destruct (uri_scheme source); [|discriminate].
  destruct (assoc s _backends_map) eqn:Ea; [|discriminate].
  injection E as ->. eapply Hquiet; eauto.
Qed.

Lemma call_commit_quiet (source : string) (x s : oid) (p : list string) (h : Heap) :
  source_ok _backends_map source = true -> source <> "" ->
  call_commit _backends_map source x s p h
  = (add_calls [mkCall Commit source x s p] h, Ret tt).
Proof.
  intros H Hne. destruct (get_backend_quiet _ H Hne) as (b & Hb & Hq).
  unfold call_commit. rewrite Hb. unfold bind, modify.
  destruct (Hq x s p (log_call (mkCall Commit source x s p) h)) as [-> _].
  reflexivity.
Qed.

Lemma call_update_quiet (source : string) (x s : oid) (p : list string) (h : Heap) :
  source_ok _backends_map source = true -> source <> "" ->
  call_update _backends_map source x s p h
  = (add_calls [mkCall Update source x s p] h, Ret tt).
Proof.
  intros H Hne. destruct (get_backend_quiet _ H Hne) as (b & Hb & Hq).
  unfold call_update. rewrite Hb. unfold bind, modify.
  destruct (Hq x s p (log_call (mkCall Update source x s p) h)) as [_ ->].
  reflexivity.
Qed.

(** A loop whose body only logs calls logs the calls of its rounds. *)
Lemma for_each_logs (h0 : Heap) (body : oid -> M unit) (L : oid -> list BackendCall)
      (l : list oid) :
  (forall c, In c l -> forall h, same_graph h0 h -> body c h = (add_calls (L c) h, Ret tt)) ->
  forall h, same_graph h0 h ->
    for_each l body h = (add_calls (flat_map L l) h, Ret tt).
Proof.
  induction l as [|c l IH]; intros Hb h Hg.
  - simpl. unfold ret. now rewrite add_calls_nil.
  - simpl. unfold bind. rewrite (Hb c) by (simpl; auto).
    rewrite IH.
    + now rewrite add_calls_app.
    + intros. apply Hb; simpl; auto.
    + now apply same_graph_add_calls.
Qed.

Lemma for_each_child_logs (h0 : Heap) (x : oid) (body : oid -> M unit)
      (L : oid -> list BackendCall) :
  (forall c, In c (children_of h0 x) ->
     forall h, same_graph h0 h -> body c h = (add_calls (L c) h, Ret tt)) ->
  forall h, same_graph h0 h ->
    for_each_child x body h = (add_calls (flat_map L (children_of h0 x)) h, Ret tt).
Proof.
  unfold for_each_child, children_of. intros Hb h Hg.
  destruct Hg as [Ho Hn]. rewrite Ho.
  destruct (isinstance (objs h0 x) UniqueIdShortNamespace);
    [|simpl; now rewrite add_calls_nil].
  assert (Hg : same_graph h0 h) by (split; assumption). clear Ho Hn.
  revert h Hg.
  induction (o_namespace_element_sets (objs h0 x)) as [|s ss IH]; intros h Hg.
  - simpl. unfold ret. now rewrite add_calls_nil.
  - simpl for_each. unfold bind. simpl flat_map in *.
    destruct Hg as [Ho Hn]. rewrite Hn.
    assert (Hg : same_graph h0 h) by (split; assumption).
    destruct (in_dec string_dec "id_short" (get_attribute_name_list (nsets h0 s))).
    + destruct (iter_set (nsets h0 s)) as [l| |] eqn:Ei.
      * rewrite (for_each_logs h0 body L l); auto.
        -- rewrite IH.
           ++ rewrite add_calls_app. now rewrite flat_map_app.
           ++ intros. apply Hb; auto. apply in_or_app. auto.
           ++ now apply same_graph_add_calls.
        -- intros. apply Hb; auto. apply in_or_app. auto.
      * exfalso. unfold iter_set, NamespaceSet_iter, get_attribute_name_list in *.
        destruct (ns_order (nsets h0 s)); [discriminate|].
        destruct (ns_backend (nsets h0 s)) as [|[? [? ?]] ?]; [destruct i|discriminate].
      * exfalso. unfold iter_set, NamespaceSet_iter in Ei.
        destruct (ns_order (nsets h0 s)); [discriminate|].
        destruct (ns_backend (nsets h0 s)) as [|[? [? ?]] ?]; discriminate.
    + rewrite IH; auto.
Qed.

(** [_direct_source_commit], with quiet backends, on a tree of fewer than
    [n] levels: it returns and has logged the commits of the tree to its
    own sources. *)
Lemma _direct_source_commit_logs (h0 : Heap) (n : nat) :
  forall (x : oid) (fuel : nat),
    subtree_ok _backends_map n h0 x = true -> n <= fuel ->
    forall h, same_graph h0 h ->
      _direct_source_commit _backends_map fuel x h
      = (add_calls (own_calls Commit n h0 x) h, Ret tt).
Proof.
  induction n as [|n IH]; intros x fuel Hok Hf h Hg; [discriminate|].
  destruct fuel as [|fuel]; [lia|].
  simpl in Hok. apply andb_true_iff in Hok. destruct Hok as [Hs Hc].
  rewrite forallb_forall in Hc.
  cbn [_direct_source_commit own_calls]. unfold bind.
  pose proof Hg as [Ho Hn]. rewrite Ho.
  destruct (String.eqb (o_source (objs h0 x)) "") eqn:E.
  - rewrite (for_each_child_logs h0 x _ (own_calls Commit n h0)); auto.
    intros c Hin h1 Hg1. apply IH; auto. lia.
  - rewrite call_commit_quiet; auto; [|now apply String.eqb_neq].
    rewrite (for_each_child_logs h0 x _ (own_calls Commit n h0)).
    + now rewrite add_calls_app.
    + intros c Hin h1 Hg1. apply IH; auto. lia.
    + now apply same_graph_add_calls.
Qed.

(** The same for the recursive calls of [update], which pass
    [_indirect_source=False]. *)
Lemma update_direct_logs (h0 : Heap) (n : nat) :
  forall (x : oid) (fuel : nat),
    subtree_ok _backends_map n h0 x = true -> n <= fuel ->
    forall h, same_graph h0 h ->
      update _backends_map fuel x true false h
      = (add_calls (own_calls Update n h0 x) h, Ret tt).
Proof.
  induction n as [|n IH]; intros x fuel Hok Hf h Hg; [discriminate|].
  destruct fuel as [|fuel]; [lia|].
  simpl in Hok. apply andb_true_iff in Hok. destruct Hok as [Hs Hc].
  rewrite forallb_forall in Hc.
  cbn [update own_calls negb]. unfold bind.
  pose proof Hg as [Ho Hn]. rewrite Ho.
  destruct (String.eqb (o_source (objs h0 x)) "") eqn:E; cbn [negb].
  - rewrite (for_each_child_logs h0 x _ (own_calls Update n h0)); auto.
    intros c Hin h1 Hg1. apply IH; auto. lia.
  - rewrite call_update_quiet; auto; [|now apply String.eqb_neq].
    rewrite (for_each_child_logs h0 x _ (own_calls Update n h0)).
    + now rewrite add_calls_app.
    + intros c Hin h1 Hg1. apply IH; auto. lia.
    + now apply same_graph_add_calls.
Qed.

(** The ancestor loop of [commit], with quiet backends. *)
Lemma commit_loop_logs (h0 : Heap) (e : oid) (ups : list oid) :
  forall (x : oid) (below : list string) (fuel : nat),
    ancestors_ok _backends_map h0 x ups = true -> length ups < fuel ->
    forall h, same_graph h0 h ->
      commit_loop _backends_map fuel e (o_parent (objs h0 x)) below h
      = (add_calls (ancestor_calls h0 e below ups) h, Ret tt).
Proof.
  induction ups as [|a ups IH]; intros x below fuel Hok Hf h Hg.
  - simpl in Hok. destruct (o_parent (objs h0 x)); [discriminate|].
    destruct fuel; simpl; unfold ret; now rewrite add_calls_nil.
  - simpl in Hok. destruct (o_parent (objs h0 x)) as [p|]; [|discriminate].
    apply andb_true_iff in Hok. destruct Hok as [Hok Hr].
    apply andb_true_iff in Hok. destruct Hok as [Hok Hs].
    apply andb_true_iff in Hok. destruct Hok as [Hp Hi].
    apply Nat.eqb_eq in Hp. subst p.
    simpl in Hf. destruct fuel as [|fuel]; [lia|].
    cbn [commit_loop ancestor_calls]. unfold bind.
    pose proof Hg as [Ho Hn]. rewrite Ho, Hi. cbn [negb].
    destruct (String.eqb (o_source (objs h0 a)) "") eqn:E.
    + rewrite Ho. apply IH; auto. lia.
    + rewrite call_commit_quiet; auto; [|now apply String.eqb_neq].
      cbn [objs add_calls]. rewrite Ho.
      rewrite (IH a (o_id_short (objs h0 a) :: below) fuel Hr); [|lia|].
      * now rewrite add_calls_app.
      * now apply (same_graph_add_calls h0 h).
Qed.

End Quiet.

(** *** What the expected calls are *)

Lemma own_calls_sound (kind : CallKind) (h : Heap) (n : nat) :
  forall x c,
    In c (own_calls kind n h x) ->
    call_kind c = kind /\
    call_store_object c = call_object c /\
    call_relative_path c = [] /\
    call_source c = o_source (objs h (call_object c)) /\
    call_source c <> "" /\
    reaches h x (call_object c).
Proof.
  induction n as [|n IH]; intros x c Hin; [destruct Hin|].
  simpl in Hin. apply in_app_or in Hin. destruct Hin as [Hin|Hin].
  - destruct (String.eqb (o_source (objs h x)) "") eqn:E; [destruct Hin|].
    destruct Hin as [<-|[]]. simpl. repeat split; auto.
    + now apply String.eqb_neq.
    + constructor.
  - apply in_flat_map in Hin. destruct Hin as (child & Hc & Hin).
    destruct (IH child c Hin) as (H1 & H2 & H3 & H4 & H5 & H6).
    repeat split; auto. econstructor; eauto.
Qed.

Lemma own_calls_complete (_backends_map : list (string * BackendImpl))
      (kind : CallKind) (h : Heap) (x d : oid) :
  reaches h x d ->
  forall n,
    subtree_ok _backends_map n h x = true ->
    o_source (objs h d) <> "" ->
    In (mkCall kind (o_source (objs h d)) d d []) (own_calls kind n h x).
Proof.
  induction 1 as [x|x c d Hc Hr IH]; intros n Hok Hs.
  - destruct n; [discriminate|]. simpl. apply in_or_app. left.
    apply String.eqb_neq in Hs. rewrite Hs. simpl. auto.
  - destruct n; [discriminate|]. simpl in *. apply in_or_app. right.
    apply andb_true_iff in Hok. destruct Hok as [_ Hok].
    rewrite forallb_forall in Hok.
    apply in_flat_map. exists c. split; auto.
Qed.

Lemma ancestor_calls_sound (h : Heap) (e : oid) (ups : list oid) :
  forall below c,
    In c (ancestor_calls h e below ups) ->
    call_kind c = Commit /\ call_object c = e /\ In (call_store_object c) ups.
Proof.
  induction ups as [|a ups IH]; intros below c Hin; [destruct Hin|].
  simpl in Hin. apply in_app_or in Hin. destruct Hin as [Hin|Hin].
  - destruct (String.eqb (o_source (objs h a)) ""); [destruct Hin|].
    destruct Hin as [<-|[]]. simpl. auto.
  - destruct (IH _ _ Hin) as (H1 & H2 & H3). simpl. auto.
Qed.

(** The ancestor at position [i] receives the short-names of the
    ancestors below it, topmost first, followed by [below]. *)
Lemma ancestor_calls_complete (h : Heap) (e : oid) (ups : list oid) :
  forall below i a,
    nth_error ups i = Some a ->
    o_source (objs h a) <> "" ->
    In (mkCall Commit (o_source (objs h a)) e a
               (map (fun x => o_id_short (objs h x)) (rev (firstn i ups)) ++ below))
       (ancestor_calls h e below ups).
Proof.
  induction ups as [|a0 ups IH]; intros below i a Hn Hs.
  - destruct i; discriminate.
  - simpl. apply in_or_app. destruct i as [|i].
    + left. injection Hn as ->. apply String.eqb_neq in Hs. rewrite Hs. simpl. auto.
    + right. simpl in Hn. specialize (IH (o_id_short (objs h a0) :: below) i a Hn Hs).
      simpl firstn. simpl rev. rewrite map_app. simpl. rewrite <- app_assoc. exact IH.
Qed.

(** [find_source] on a finite chain of ancestors returns, and a source it
    finds is the non-empty source of the element or of an ancestor. *)
Lemma find_source_loop_total (_backends_map : list (string * BackendImpl))
      (h : Heap) (ups : list oid) :
  forall (x : oid) (path : list string) (fuel : nat),
    ancestors_ok _backends_map h x ups = true -> length ups < fuel ->
    find_source_loop fuel h x path = Ret None \/
    exists s p,
      find_source_loop fuel h x path = Ret (Some (s, p)) /\
      o_source (objs h s) <> "" /\
      (s = x \/ (In s ups /\ source_ok _backends_map (o_source (objs h s)) = true)).
Proof.
  induction ups as [|a ups IH]; intros x path fuel Hok Hf.
  - destruct fuel; [simpl in Hf; lia|]. simpl in *.
    destruct (String.eqb (o_source (objs h x)) "") eqn:E; simpl.
    + destruct (o_parent (objs h x)); [discriminate|]. auto.
    + right. eexists _, _. split; [reflexivity|]. split; auto.
      now apply String.eqb_neq.
  - destruct fuel; [simpl in Hf; lia|]. simpl in *.
    destruct (String.eqb (o_source (objs h x)) "") eqn:E; simpl.
    + destruct (o_parent (objs h x)) as [p|]; [|discriminate].
      apply andb_true_iff in Hok. destruct Hok as [Hok Hr].
      apply andb_true_iff in Hok. destruct Hok as [Hok Hs].
      apply andb_true_iff in Hok. destruct Hok as [Hp Hi].
      apply Nat.eqb_eq in Hp. subst p. rewrite Hi.
      destruct (IH a (path ++ [o_id_short (objs h a)]) fuel Hr) as [H|(s & p & H1 & H2 & H3)];
        [lia|auto|].
      right. exists s, p. split; auto. split; auto. right.
      destruct H3 as [->|[H3 H4]]; auto.
    + right. eexists _, _. split; [reflexivity|]. split; auto.
      now apply String.eqb_neq.
Qed.

(** C2 (as the code has it).  Let [e] have the parent [P1] and the
    grandparent [P2], both with a non-empty source, then the further
    ancestors [ups]; let every backend be quiet and every source in reach
    have one.  [commit] returns, and the calls it has caused are, in this
    order: the commit of [e] to the source of [P1] with the path
    [[e.id_short]]; the commit of [e] to the source of [P2] with the path
    [[P1.id_short; e.id_short]]; for every further ancestor with a source,
    the commit of [e] to it with the short-names of the elements below
    that ancestor, the ancestor's own name not among them; and then the
    commits of [e] and of every element below [e] that has a source, each
    to its own source and with an empty path. *)
Theorem commit_calls
        (_backends_map : list (string * BackendImpl)) (h : Heap)
        (e P1 P2 : oid) (ups : list oid) (n fuel : nat) :
  quiet_registry _backends_map ->
  ancestors_ok _backends_map h e (P1 :: P2 :: ups) = true ->
  o_source (objs h P1) <> "" ->
  o_source (objs h P2) <> "" ->
  subtree_ok _backends_map n h e = true ->
  length ups + 2 < fuel -> n <= fuel ->
  exists h' further own,
    commit _backends_map fuel e h = (h', Ret tt) /\
    calls h' = calls h
               ++ [mkCall Commit (o_source (objs h P1)) e P1 [o_id_short (objs h e)];
                   mkCall Commit (o_source (objs h P2)) e P2
                          [o_id_short (objs h P1); o_id_short (objs h e)]]
               ++ further ++ own /\
    (forall i a,
        nth_error ups i = Some a -> o_source (objs h a) <> "" ->
        In (mkCall Commit (o_source (objs h a)) e a
                   (map (fun x => o_id_short (objs h x)) (rev (firstn i ups))
                    ++ [o_id_short (objs h P2); o_id_short (objs h P1);
                        o_id_short (objs h e)]))
           further) /\
    (forall c, In c further ->
               call_kind c = Commit /\ call_object c = e /\ In (call_store_object c) ups) /\
    (o_source (objs h e) <> "" ->
     exists rest, own = mkCall Commit (o_source (objs h e)) e e [] :: rest) /\
    (forall c, In c own ->
               call_kind c = Commit /\
               call_store_object c = call_object c /\
               call_relative_path c = [] /\
               call_source c = o_source (objs h (call_object c)) /\
               call_source c <> "" /\
               reaches h e (call_object c)) /\
    (forall d, reaches h e d -> o_source (objs h d) <> "" ->
               In (mkCall Commit (o_source (objs h d)) d d []) own).
Proof.
  intros Hq Hanc Hs1 Hs2 Hsub Hf Hn.
  exists (add_calls (ancestor_calls h e [o_id_short (objs h e)] (P1 :: P2 :: ups)
                     ++ own_calls Commit n h e) h),
         (ancestor_calls h e [o_id_short (objs h P2); o_id_short (objs h P1);
                              o_id_short (objs h e)] ups),
         (own_calls Commit n h e).
  split.
  { unfold commit, bind.
    rewrite (commit_loop_logs _ Hq h e (P1 :: P2 :: ups) e) ;
      [|assumption|simpl; lia|apply same_graph_refl].
    rewrite (_direct_source_commit_logs _ Hq h n); auto.
    - now rewrite add_calls_app.
    - apply same_graph_add_calls, same_graph_refl. }
  split.
  { simpl. apply String.eqb_neq in Hs1, Hs2. rewrite Hs1, Hs2. reflexivity. }
  split; [intros; now apply ancestor_calls_complete|].
  split; [intros c Hc; eapply ancestor_calls_sound; eauto|].
  split.
  { intros Hs. destruct n; [discriminate|]. simpl.
    apply String.eqb_neq in Hs. rewrite Hs. simpl. eauto. }
  split; [intros c Hc; eapply own_calls_sound; eauto|].
  intros d Hr Hs. eapply own_calls_complete; eauto.
Qed.

Lemma find_source_loop_found (h : Heap) : forall (ups : list oid) (x : oid)
      (path : list string) (fuel : nat),
  parents h x ups ->
  (forall y, In y (removelast (x :: ups)) -> o_source (objs h y) = "") ->
  o_source (objs h (last ups x)) <> "" ->
  length ups < fuel ->
  find_source_loop fuel h x path
  = Ret (Some (last ups x, rev (path ++ map (fun y => o_id_short (objs h y)) ups))).
Proof.
  induction ups as [|a ups IH]; intros x path fuel Hp Hs Hne Hf;
    (destruct fuel as [|fuel]; [simpl in Hf; lia|]).
  - simpl in *. apply String.eqb_neq in Hne. rewrite Hne. simpl.
    now rewrite app_nil_r.
  - destruct Hp as (Hpar & Hr & Hp).
    cbn [find_source_loop].
    rewrite (Hs x) by (simpl; destruct ups; simpl; auto).
    simpl String.eqb. simpl negb. cbv iota. rewrite Hpar, Hr.
    rewrite (IH a (path ++ [o_id_short (objs h a)])%list fuel Hp).
    + rewrite (last_cons_default a ups x). simpl map.
      now rewrite <- app_assoc.
    + intros y Hy. apply Hs. change (In y (x :: removelast (a :: ups))). simpl. auto.
    + now rewrite <- (last_cons_default a ups x).
    + simpl in Hf. lia.
Qed.

Lemma find_source_loop_none (h : Heap) : forall (ups : list oid) (x : oid)
      (path : list string) (fuel : nat),
  parents h x ups ->
  (forall y, In y (x :: ups) -> o_source (objs h y) = "") ->
  o_parent (objs h (last ups x)) = None ->
  length ups < fuel ->
  find_source_loop fuel h x path = Ret None.
Proof.
  induction ups as [|a ups IH]; intros x path fuel Hp Hs Hroot Hf;
    (destruct fuel as [|fuel]; [simpl in Hf; lia|]).
  - simpl in *. rewrite (Hs x) by auto. simpl. now rewrite Hroot.
  - destruct Hp as (Hpar & Hr & Hp).
    cbn [find_source_loop]. rewrite (Hs x) by (simpl; auto).
    simpl String.eqb. simpl negb. cbv iota. rewrite Hpar, Hr.
    apply (IH a _ fuel Hp).
    + intros y Hy. apply Hs. simpl. simpl in Hy. tauto.
    + now rewrite <- (last_cons_default a ups x).
    + simpl in Hf. lia.
Qed.

Lemma ancestors_ok_parents (_backends_map : list (string * BackendImpl)) (h : Heap) :
  forall (ups : list oid) (x : oid),
    ancestors_ok _backends_map h x ups = true ->
    parents h x ups /\ o_parent (objs h (last ups x)) = None.
Proof.
  induction ups as [|a ups IH]; intros x H; simpl in H.
  - split; [exact I|]. simpl. destruct (o_parent (objs h x)); [discriminate|reflexivity].
  - destruct (o_parent (objs h x)) as [p|] eqn:Hp; [|discriminate].
    apply andb_true_iff in H. destruct H as [H Hr].
    apply andb_true_iff in H. destruct H as [H Hs].
    apply andb_true_iff in H. destruct H as [He Hi].
    apply Nat.eqb_eq in He. subst p.
    destruct (IH a Hr) as [Hpar Hroot]. split.
    + simpl. rewrite Hp. auto.
    + now rewrite (last_cons_default a ups x).
Qed.

Lemma parents_prefix (h : Heap) : forall (near far : list oid) (x : oid),
  parents h x (near ++ far) -> parents h x near.
Proof.
  induction near as [|a near IH]; intros far x H; [exact I|].
  simpl in *. destruct H as (H1 & H2 & H3). eauto.
Qed.

(** C3 (as the code has it).  With quiet backends, sources that all have
    one, a finite chain of ancestors [ups] (nearest first) and a finite
    tree below, [update(recursive=True)] returns.  It has first caused
    the call for the element itself: from its own source with an empty
    path when it has one; else, on a call from outside
    ([_indirect_source] true), from the nearest ancestor [s] with a
    source, with the short-names from [s] down to the element, and no
    call when no ancestor has one; and no call on a call from the parent
    ([_indirect_source] false).  After it come, for every element below
    that has a source of its own, the update of that element from its own
    source with an empty path, and nothing else: an element below without
    a source of its own causes no call, whatever sources its ancestors
    have. *)
Theorem update_recursive_calls
        (_backends_map : list (string * BackendImpl)) (h : Heap)
        (e : oid) (ups : list oid) (n fuel : nat) (_indirect_source : bool) :
  quiet_registry _backends_map ->
  ancestors_ok _backends_map h e ups = true ->
  subtree_ok _backends_map n h e = true ->
  length ups < fuel -> n <= fuel ->
  exists h' self_part children_part,
    update _backends_map fuel e true _indirect_source h = (h', Ret tt) /\
    calls h' = calls h ++ self_part ++ children_part /\
    (o_source (objs h e) <> "" ->
     self_part = [mkCall Update (o_source (objs h e)) e e []]) /\
    (o_source (objs h e) = "" -> _indirect_source = true ->
     forall near s far,
       ups = near ++ s :: far ->
       (forall y, In y near -> o_source (objs h y) = "") ->
       o_source (objs h s) <> "" ->
       self_part = [mkCall Update (o_source (objs h s)) e s
                           (rev (map (fun y => o_id_short (objs h y))
                                     (e :: near ++ [s])))]) /\
    (o_source (objs h e) = "" -> _indirect_source = true ->
     (forall y, In y ups -> o_source (objs h y) = "") ->
     self_part = []) /\
    (o_source (objs h e) = "" -> _indirect_source = false -> self_part = []) /\
    (forall c, In c children_part ->
               call_kind c = Update /\
               call_store_object c = call_object c /\
               call_relative_path c = [] /\
               call_source c = o_source (objs h (call_object c)) /\
               call_source c <> "" /\
               exists child, In child (children_of h e) /\ reaches h child (call_object c)) /\
    (forall child d,
        In child (children_of h e) -> reaches h child d ->
        o_source (objs h d) <> "" ->
        In (mkCall Update (o_source (objs h d)) d d []) children_part) /\
    (forall c, In c children_part -> o_source (objs h (call_object c)) <> "").
Proof.
  intros Hq Hanc Hsub Hf Hn.
  destruct n as [|n]; [discriminate|]. destruct fuel as [|fuel]; [lia|].
  simpl in Hsub. apply andb_true_iff in Hsub. destruct Hsub as [Hs Hc].
  rewrite forallb_forall in Hc.
  destruct (ancestors_ok_parents _ _ _ _ Hanc) as [Hpar Hroot].
  set (kids := flat_map (own_calls Update n h) (children_of h e)).
  assert (Hkids : forall h1, same_graph h h1 ->
            for_each_child e (fun referable => update _backends_map fuel referable true false) h1
            = (add_calls kids h1, Ret tt)).
  { intros h1 Hg. apply (for_each_child_logs h e _ (own_calls Update n h)); auto.
    intros c Hin h2 Hg2. apply update_direct_logs; auto. lia. }
  set (self_part :=
         if String.eqb (o_source (objs h e)) "" then
           if _indirect_source then
             match find_source (S fuel) h e with
             | Ret (Some (s, p)) => [mkCall Update (o_source (objs h s)) e s p]
             | _ => []
             end
           else []
         else [mkCall Update (o_source (objs h e)) e e []]).
  assert (Hrun : update _backends_map (S fuel) e true _indirect_source h
                 = (add_calls (self_part ++ kids) h, Ret tt)).
  { cbn [update]. unfold bind. unfold self_part.
    destruct (String.eqb (o_source (objs h e)) "") eqn:E; cbn [negb].
    - destruct _indirect_source; cbn [negb].
      + destruct (find_source_loop_total _backends_map h ups e [o_id_short (objs h e)]
                                        (S fuel) Hanc Hf)
          as [Hfs|(s & p & Hfs & Hne & Hin)]; unfold find_source; rewrite Hfs.
        * rewrite Hkids by apply same_graph_refl. reflexivity.
        * destruct Hin as [->|[_ Hok]].
          { apply String.eqb_eq in E. congruence. }
          rewrite call_update_quiet; auto.
          rewrite Hkids by (apply same_graph_add_calls, same_graph_refl).
          now rewrite add_calls_app.
      + rewrite Hkids by apply same_graph_refl. reflexivity.
    - assert (Hne : o_source (objs h e) <> "") by now apply String.eqb_neq.
      destruct _indirect_source; cbn [negb].
      + rewrite call_update_quiet; auto.
        rewrite Hkids by (apply same_graph_add_calls, same_graph_refl).
        now rewrite add_calls_app.
      + rewrite call_update_quiet; auto.
        rewrite Hkids by (apply same_graph_add_calls, same_graph_refl).
        now rewrite add_calls_app. }
  exists (add_calls (self_part ++ kids) h), self_part, kids.
  split; [exact Hrun|]. split; [reflexivity|].
  split.
  { intros Hne. unfold self_part. apply String.eqb_neq in Hne. now rewrite Hne. }
  split.
  { intros He -> near s far Hups Hnear Hs'. unfold self_part.
    rewrite He. cbn [String.eqb]. unfold find_source.
    subst ups.
    assert (Hpn : parents h e (near ++ [s])).
    { apply (parents_prefix h (near ++ [s]) far).
      now rewrite <- app_assoc. }
    rewrite (find_source_loop_found h (near ++ [s]) e [o_id_short (objs h e)] (S fuel)).
    - rewrite last_last. reflexivity.
    - exact Hpn.
    - intros y Hy.
      change (e :: near ++ [s])%list with ((e :: near) ++ [s])%list in Hy.
      rewrite removelast_last in Hy. destruct Hy as [<-|Hy]; auto.
    - now rewrite last_last.
    - rewrite length_app in *. simpl in *. lia. }
  split.
  { intros He -> Hall. unfold self_part. rewrite He. cbn [String.eqb].
    unfold find_source.
    rewrite (find_source_loop_none h ups e [o_id_short (objs h e)] (S fuel)); auto.
    intros y [<-|Hy]; auto. }
  split.
  { intros He ->. unfold self_part. now rewrite He. }
  assert (Hsound : forall c, In c kids ->
               call_kind c = Update /\
               call_store_object c = call_object c /\
               call_relative_path c = [] /\
               call_source c = o_source (objs h (call_object c)) /\
               call_source c <> "" /\
               exists child, In child (children_of h e) /\ reaches h child (call_object c)).
  { intros c Hin. apply in_flat_map in Hin. destruct Hin as (child & Hch & Hin).
    destruct (own_calls_sound _ _ _ _ _ Hin) as (H1 & H2 & H3 & H4 & H5 & H6).
    repeat split; auto. eauto. }
  split; [exact Hsound|]. split.
  - intros child d Hch Hr Hne. apply in_flat_map. exists child. split; auto.
    eapply own_calls_complete; eauto.
  - intros c Hin. destruct (Hsound c Hin) as (_ & _ & _ & H4 & H5 & _). congruence.
Qed.

End BackendCalls.

Section BackendCallsExamples.

#[local] Existing Instance ascii_runtime.

Lemma example_backends_quiet : quiet_registry example_backends.
Proof.
  intros scheme b H. unfold example_backends, register_backend in H.
  cbn [assoc_set assoc] in H.
  destruct (String.eqb "mock" scheme); [|discriminate H].
  injection H as <-. intros x s p h. split; reflexivity.
Qed.

Lemma commit_calls_witness :
  exists h' further own,
    commit example_backends 3 32 store4 = (h', Ret tt) /\
    calls h' = calls store4
               ++ [mkCall Commit "mock://s1" 32 31 ["e"];
                   mkCall Commit "mock://s2" 32 30 ["P1"; "e"]]
               ++ further ++ own /\
    In (mkCall Commit "mock://d" 34 34 []) own.
Proof.
  destruct (commit_calls example_backends store4 32 31 30 [] 2 3)
    as (h' & further & own & H1 & H2 & _ & _ & _ & _ & H7).
  - exact example_backends_quiet.
  - reflexivity.
  - discriminate.
  - discriminate.
  - reflexivity.
  - simpl. lia.
  - lia.
  - exists h', further, own. split; [exact H1|]. split; [exact H2|].
    apply (H7 34).
    + apply reaches_child with (c := 34); [simpl; auto|constructor].
    + discriminate.
Defined.

(** The path sent to an ancestor's source does not start with the
    ancestor's own short-name: the source of [P1] receives [["e"]], not
    [["P1"; "e"]], and that of [P2] receives [["P1"; "e"]], not
    [["P2"; "P1"; "e"]]. *)
Lemma commit_path_leaves_out_the_ancestor :
  o_parent (objs store4 32) = Some 31 /\
  o_parent (objs store4 31) = Some 30 /\
  (forall c, In c (calls (exec (commit example_backends 3 32) store4)) ->
             call_store_object c = 31 -> call_relative_path c = ["e"]) /\
  ~ In (mkCall Commit "mock://s1" 32 31 ["P1"; "e"])
       (calls (exec (commit example_backends 3 32) store4)) /\
  ~ In (mkCall Commit "mock://s2" 32 30 ["P2"; "P1"; "e"])
       (calls (exec (commit example_backends 3 32) store4)).
Proof.
  assert (E : calls (exec (commit example_backends 3 32) store4)
              = [mkCall Commit "mock://s1" 32 31 ["e"];
                 mkCall Commit "mock://s2" 32 30 ["P1"; "e"];
                 mkCall Commit "mock://e" 32 32 [];
                 mkCall Commit "mock://d" 34 34 []]).
  { vm_compute. reflexivity. }
  rewrite E. clear E.
  split; [reflexivity|]. split; [reflexivity|]. split; [|split].
  - intros c [<-|[<-|[<-|[<-|[]]]]]; simpl; intros; congruence.
  - intros [H|[H|[H|[H|[]]]]]; discriminate H.
  - intros [H|[H|[H|[H|[]]]]]; discriminate H.
Qed.

Lemma update_recursive_calls_witness :
  (exists h' children_part,
     update example_backends 3 32 true true store4 = (h', Ret tt) /\
     calls h' = calls store4 ++ [mkCall Update "mock://e" 32 32 []] ++ children_part /\
     In (mkCall Update "mock://d" 34 34 []) children_part /\
     (forall c, In c children_part -> o_source (objs store4 (call_object c)) <> "")) /\
  (exists h' children_part,
     update example_backends 4 33 true true store4 = (h', Ret tt) /\
     calls h' = calls store4 ++ [mkCall Update "mock://e" 33 32 ["e"; "c"]]
                             ++ children_part).
Proof.
  split.
  - destruct (update_recursive_calls example_backends store4 32 [31; 30] 2 3 true)
      as (h' & self_part & children_part & H1 & H2 & H3 & _ & _ & _ & _ & H5 & H6).
    + exact example_backends_quiet.
    + reflexivity.
    + reflexivity.
    + simpl. lia.
    + lia.
    + exists h', children_part. rewrite (H3 ltac:(discriminate)) in H2.
      split; [exact H1|]. split; [exact H2|]. split; [|exact H6].
      apply (H5 34 34); [simpl; auto|constructor|discriminate].
  - destruct (update_recursive_calls example_backends store4 33 [32; 31; 30] 1 4 true)
      as (h' & self_part & children_part & H1 & H2 & _ & H4 & _).
    + exact example_backends_quiet.
    + reflexivity.
    + reflexivity.
    + simpl. lia.
    + lia.
    + exists h', children_part.
      rewrite (H4 eq_refl eq_refl [] 32 [31; 30] eq_refl
                  ltac:(intros y []) ltac:(discriminate)) in H2.
      split; [exact H1|exact H2].
Defined.

(** The child [c] of [e] has no source of its own.  Updated on its own it
    finds the source of [e] and is updated from it; in the recursive
    update of [e] no call is made for it. *)
Lemma update_child_without_source_is_skipped :
  In 33 (children_of store4 32) /\
  o_source (objs store4 33) = "" /\
  find_source 3 store4 33 = Ret (Some (32, ["e"; "c"])) /\
  calls (exec (update example_backends 3 33 true true) store4)
  = [mkCall Update "mock://e" 33 32 ["e"; "c"]] /\
  (forall c, In c (calls (exec (update example_backends 3 32 true true) store4)) ->
             call_object c <> 33).
Proof.
  split; [simpl; auto|]. split; [reflexivity|]. split; [reflexivity|].
  split; [reflexivity|].
  intros c Hin. vm_compute in Hin.
  destruct Hin as [<-|[<-|[]]]; simpl; discriminate.
Qed.

End BackendCallsExamples.

Section OrderedSets.

Context {py : PyRuntime}.

(** ** OrderedNamespaceSet: the order and the indexes *)

Lemma dict_get_del_other (k k' : pyval) (d : pydict) :
  k' <> k -> dict_get k' (dict_del k d) = dict_get k' d.
Proof.
  intros Hne. induction d as [|[k0 v0] d IH]; simpl; auto.
  destruct (pyval_eqb k0 k) eqn:E; simpl.
  - apply pyval_eqb_eq in E. subst k0.
    destruct (pyval_eqb k k') eqn:E'; auto.
    apply pyval_eqb_eq in E'. congruence.
  - destruct (pyval_eqb k0 k'); auto.
Qed.

Lemma index_insert_In (x : oid) (ox : Obj) (b b' : Backend) :
  index_insert x ox b = (b', None) ->
  forall n d' cs, In (n, (d', cs)) b' ->
    exists d k, In (n, (d, cs)) b /\ _get_attribute ox n cs = Some k /\
                d' = dict_set k x d.
Proof.
  revert b'. induction b as [|[n0 [d0 cs0]] b IH]; intros b' H n d' cs Hin.
  - simpl in H. injection H as <-. destruct Hin.
  - simpl in H.
    destruct (_get_attribute ox n0 cs0) as [k|] eqn:Hk; [|discriminate].
    destruct (index_insert x ox b) as [r' e] eqn:Hr.
    injection H as <- ->.
    destruct Hin as [[= <- <- <-]|Hin].
    + exists d0, k. simpl. auto.
    + destruct (IH r' eq_refl n d' cs Hin) as (d & k' & H1 & H2 & H3).
      exists d, k'. simpl. auto.
Qed.

Lemma index_delete_set_o_parent (p : option oid) (o : Obj) (b : Backend) :
  index_delete (set_o_parent p o) b = index_delete o b.
Proof.
  induction b as [|[n [d cs]] b IH]; simpl; auto.
  rewrite _get_attribute_set_o_parent. now rewrite IH.
Qed.

Lemma index_delete_In (oz : Obj) (b b' : Backend) :
  index_delete oz b = (b', None) ->
  forall n d' cs, In (n, (d', cs)) b' ->
    exists d k, In (n, (d, cs)) b /\ _get_attribute oz n cs = Some k /\
                d' = dict_del k d.
Proof.
  revert b'. induction b as [|[n0 [d0 cs0]] b IH]; intros b' H n d' cs Hin.
  - simpl in H. injection H as <-. destruct Hin.
  - simpl in H.
    destruct (_get_attribute oz n0 cs0) as [k|] eqn:Hk; [|discriminate].
    destruct (dict_mem k d0); [|discriminate].
    destruct (index_delete oz b) as [r' e] eqn:Hr.
    injection H as <- ->.
    destruct Hin as [[= <- <- <-]|Hin].
    + exists d0, k. simpl. auto.
    + destruct (IH r' eq_refl n d' cs Hin) as (d & k' & H1 & H2 & H3).
      exists d, k'. simpl. auto.
Qed.

Lemma index_delete_names (oz : Obj) (b : Backend) :
  map fst (fst (index_delete oz b)) = map fst b.
Proof.
  induction b as [|[n [d cs]] b IH]; simpl; auto.
  destruct (_get_attribute oz n cs); simpl; auto.
  destruct (dict_mem p d); simpl; auto.
  destruct (index_delete oz b); simpl in *. now rewrite IH.
Qed.

(** How a [remove] that returns has changed the store. *)
Lemma NamespaceSet_remove_ok (self : sid) (z : oid) (h h' : Heap) :
  NamespaceSet_remove self z h = (h', Ret tt) ->
  exists b,
    index_delete (objs h z) (ns_backend (nsets h self)) = (b, None) /\
    h' = upd_set (upd_obj h z (set_o_parent None (objs h z)))
                 self (set_ns_backend b (nsets h self)).
Proof.
  unfold NamespaceSet_remove.
  destruct (remove_check z (objs h z) (ns_backend (nsets h self)) false) as [[|]|e|];
    try discriminate.
  rewrite objs_upd_obj_same. simpl nsets. rewrite index_delete_set_o_parent.
  destruct (index_delete (objs h z) (ns_backend (nsets h self))) as [b e] eqn:E.
  destruct e; [discriminate|]. intros [= <-]. eauto.
Qed.

(** How an [add] that returns has changed the store. *)
Lemma NamespaceSet_add_ok (self : sid) (x : oid) (h h' : Heap) :
  NamespaceSet_add self x h = (h', Ret tt) ->
  sets_collision h (objs h x)
    (o_namespace_element_sets (objs h (ns_parent (nsets h self)))) = None /\
  exists b,
    index_insert x (objs h x) (ns_backend (nsets h self)) = (b, None) /\
    h' = upd_set (upd_obj h x (set_o_parent (Some (ns_parent (nsets h self))) (objs h x)))
                 self (set_ns_backend b (nsets h self)).
Proof.
  intros H.
  destruct (NamespaceSet_add_inv _ _ _ _ _ H)
    as [(s & n & a & _ & _ & Hr)|[(_ & _ & _ & Hr)|(Hc & _ & b & e & Hi & -> & Hr)]];
    try discriminate.
  destruct e; [discriminate|]. eauto.
Qed.

Lemma get_attribute_after_parent (h : Heap) (x y : oid) (p : option oid)
      (n : string) (cs : bool) :
  _get_attribute (objs (upd_obj h x (set_o_parent p (objs h x))) y) n cs
  = _get_attribute (objs h y) n cs.
Proof.
  simpl. destruct (Nat.eqb y x) eqn:E; auto.
  apply Nat.eqb_eq in E. now subst.
Qed.

Lemma sets_after_parent (h : Heap) (x y : oid) (p : option oid) :
  o_namespace_element_sets (objs (upd_obj h x (set_o_parent p (objs h x))) y)
  = o_namespace_element_sets (objs h y).
Proof.
  simpl. destruct (Nat.eqb y x) eqn:E; auto.
  apply Nat.eqb_eq in E. now subst.
Qed.

(** An element that the indexes hold makes [add] collide. *)
Lemma properly_indexed_collides (h : Heap) (self : sid) (y : oid) :
  ns_backend (nsets h self) <> [] ->
  properly_indexed h self y ->
  exists n a, collides (objs h y) n a (ns_backend (nsets h self)).
Proof.
  intros Hne Hp. destruct (ns_backend (nsets h self)) as [|[n [d cs]] b] eqn:E;
    [congruence|].
  destruct (Hp n d cs) as (k & Hk & Hd); [rewrite E; simpl; auto|].
  unfold _get_attribute in Hk.
  destruct (getattr (objs h y) n) as [a|] eqn:Ha; [|discriminate].
  injection Hk as <-. exists n, a, d, cs. simpl.
  unfold dict_mem. rewrite Hd. auto.
Qed.

(** After an [add] that returned: the new element is in the indexes and
    the elements that were there still are. *)
Lemma add_keeps_indexed (self : sid) (x : oid) (h h' : Heap) :
  In self (o_namespace_element_sets (objs h (ns_parent (nsets h self)))) ->
  NamespaceSet_add self x h = (h', Ret tt) ->
  properly_indexed h' self x /\
  (forall y, properly_indexed h self y -> properly_indexed h' self y) /\
  (ns_backend (nsets h self) <> [] -> ~ properly_indexed h self x) /\
  ns_order (nsets h' self) = ns_order (nsets h self) /\
  ns_parent (nsets h' self) = ns_parent (nsets h self) /\
  (ns_backend (nsets h self) <> [] -> ns_backend (nsets h' self) <> []) /\
  (forall y, o_namespace_element_sets (objs h' y) = o_namespace_element_sets (objs h y)).
Proof.
  intros Hself H. destruct (NamespaceSet_add_ok _ _ _ _ H) as (Hc & b & Hi & ->).
  assert (Hnc : forall n a, ~ collides (objs h x) n a (ns_backend (nsets h self))).
  { intros n a. now apply (sets_collision_none _ _ _ self n a Hc). }
  rewrite nsets_upd_set_same. cbn [set_ns_backend ns_order ns_parent ns_backend].
  split; [|split; [|split; [|split; [|split; [|split]]]]]; auto.
  - intros n d' cs Hin. cbn [upd_set nsets] in Hin. rewrite Nat.eqb_refl in Hin.
    cbn [set_ns_backend ns_backend] in Hin.
    destruct (index_insert_In _ _ _ _ Hi n d' cs Hin) as (d & k & H1 & H2 & ->).
    exists k. cbn [upd_set objs]. rewrite get_attribute_after_parent.
    split; auto. apply dict_get_set_same.
  - intros y Hy n d' cs Hin. cbn [upd_set nsets] in Hin. rewrite Nat.eqb_refl in Hin.
    cbn [set_ns_backend ns_backend] in Hin.
    destruct (index_insert_In _ _ _ _ Hi n d' cs Hin) as (d & k & H1 & H2 & ->).
    destruct (Hy n d cs H1) as (ky & Hky & Hdy).
    exists ky. cbn [upd_set objs]. rewrite get_attribute_after_parent.
    split; auto. rewrite dict_get_set_other; auto.
    intros ->. unfold _get_attribute in H2.
    destruct (getattr (objs h x) n) as [a|] eqn:Ha; [|discriminate].
    injection H2 as <-. apply (Hnc n a). exists d, cs.
    unfold dict_mem. rewrite Hdy. auto.
  - intros Hne Hp. destruct (properly_indexed_collides _ _ _ Hne Hp) as (n & a & Hcol).
    exact (Hnc n a Hcol).
  - intros Hne Hb. apply Hne.
    pose proof (index_insert_names x (objs h x) (ns_backend (nsets h self))) as Hn.
    rewrite Hi in Hn. cbn [fst] in Hn. rewrite Hb in Hn. symmetry in Hn.
    now apply map_eq_nil in Hn.
  - intros y. cbn [upd_set objs]. apply sets_after_parent.
Qed.

(** After a [remove] that returned: the other elements that were in the
    indexes still are. *)
Lemma remove_keeps_indexed (self : sid) (z : oid) (h h' : Heap) :
  properly_indexed h self z ->
  NamespaceSet_remove self z h = (h', Ret tt) ->
  (forall y, y <> z -> properly_indexed h self y -> properly_indexed h' self y) /\
  ns_order (nsets h' self) = ns_order (nsets h self) /\
  ns_parent (nsets h' self) = ns_parent (nsets h self) /\
  (ns_backend (nsets h self) <> [] -> ns_backend (nsets h' self) <> []) /\
  (forall y, o_namespace_element_sets (objs h' y) = o_namespace_element_sets (objs h y)).
Proof.
  intros Hz H. destruct (NamespaceSet_remove_ok _ _ _ _ H) as (b & Hi & ->).
  rewrite nsets_upd_set_same. cbn [set_ns_backend ns_order ns_parent ns_backend].
  split; [|split; [|split; [|split]]]; auto.
  - intros y Hne Hy n d' cs Hin. cbn [upd_set nsets] in Hin. rewrite Nat.eqb_refl in Hin.
    cbn [set_ns_backend ns_backend] in Hin.
    destruct (index_delete_In _ _ _ Hi n d' cs Hin) as (d & k & H1 & H2 & ->).
    destruct (Hy n d cs H1) as (ky & Hky & Hdy).
    destruct (Hz n d cs H1) as (kz & Hkz & Hdz).
    exists ky. cbn [upd_set objs]. rewrite get_attribute_after_parent.
    split; auto. rewrite dict_get_del_other; auto.
    intros ->. congruence.
  - intros Hne Hb. apply Hne.
    pose proof (index_delete_names (objs h z) (ns_backend (nsets h self))) as Hn.
    rewrite Hi in Hn. cbn [fst] in Hn. rewrite Hb in Hn. symmetry in Hn.
    now apply map_eq_nil in Hn.
  - intros y. cbn [upd_set objs]. apply sets_after_parent.
Qed.

(** *** Lists *)

Lemma list_insert_perm (l : list oid) (i : Z) (x : oid) :
  Permutation (x :: l) (list_insert l i x).
Proof.
  unfold list_insert.
  set (j := Z.to_nat (if (i <? 0)%Z then Z.max 0 (i + Z.of_nat (length l))
                      else Z.min i (Z.of_nat (length l)))).
  rewrite <- (firstn_skipn j l) at 1. apply Permutation_middle.
Qed.

Lemma list_insert_NoDup (l : list oid) (i : Z) (x : oid) :
  NoDup l -> ~ In x l -> NoDup (list_insert l i x).
Proof.
  intros Hl Hx. eapply Permutation_NoDup; [apply list_insert_perm|].
  now constructor.
Qed.

Lemma list_insert_In (l : list oid) (i : Z) (x y : oid) :
  In y (list_insert l i x) -> y = x \/ In y l.
Proof.
  intros H. apply (Permutation_in _ (Permutation_sym (list_insert_perm l i x))) in H.
  destruct H; auto.
Qed.

(** Reading the position an element was inserted at finds the element,
    for a position inside the list or at its end. *)
Lemma list_getitem_insert (l : list oid) (i : Z) (x : oid) :
  (0 <= i <= Z.of_nat (length l))%Z ->
  list_getitem (list_insert l i x) i = Some x.
Proof.
  intros Hi. unfold list_getitem, list_insert, norm_index.
  assert (E1 : (i <? 0)%Z = false) by (apply Z.ltb_ge; lia). rewrite E1.
  rewrite Z.min_l by lia.
  rewrite length_app. cbn [length]. rewrite length_firstn, length_skipn.
  assert (E2 : ((0 <=? i) && (i <? Z.of_nat (Init.Nat.min (Z.to_nat i) (length l)
                 + S (length l - Z.to_nat i))))%Z = true).
  { apply andb_true_iff. split; [apply Z.leb_le; lia|apply Z.ltb_lt; lia]. }
  rewrite E2. rewrite nth_error_app2; rewrite length_firstn; [|lia].
  replace (Z.to_nat i - Init.Nat.min (Z.to_nat i) (length l)) with 0 by lia.
  reflexivity.
Qed.

Lemma split_at (l : list oid) (n : nat) (old : oid) :
  nth_error l n = Some old -> l = firstn n l ++ old :: skipn (S n) l.
Proof.
  revert n. induction l as [|a l IH]; intros [|n] H; try discriminate.
  - injection H as ->. reflexivity.
  - simpl in *. f_equal. now apply IH.
Qed.

Lemma list_setitem_spec (l l' : list oid) (i : Z) (x : oid) :
  list_setitem l i x = Some l' ->
  exists n old,
    list_getitem l i = Some old /\ nth_error l n = Some old /\
    l' = firstn n l ++ x :: skipn (S n) l.
Proof.
  unfold list_setitem, list_getitem.
  destruct (norm_index (length l) i) as [n|] eqn:E; [|discriminate].
  intros [= <-].
  assert (Hn : n < length l).
  { unfold norm_index in E.
    destruct ((0 <=? (if (i <? 0)%Z then (i + Z.of_nat (length l))%Z else i))
              && ((if (i <? 0)%Z then (i + Z.of_nat (length l))%Z else i)
                  <? Z.of_nat (length l)))%Z eqn:Eb; [|discriminate].
    injection E as <-. apply andb_true_iff in Eb. destruct Eb as [H1 H2].
    apply Z.leb_le in H1. apply Z.ltb_lt in H2. lia. }
  destruct (nth_error l n) as [old|] eqn:En.
  - exists n, old. auto.
  - apply nth_error_None in En. lia.
Qed.

Lemma replace_NoDup (l : list oid) (n : nat) (old x : oid) :
  NoDup l -> nth_error l n = Some old -> ~ In x l ->
  NoDup (firstn n l ++ x :: skipn (S n) l) /\
  (forall y, In y (firstn n l ++ x :: skipn (S n) l) ->
             y = x \/ (In y l /\ y <> old)).
Proof.
  intros Hl Hn Hx. pose proof (split_at _ _ _ Hn) as Hs.
  rewrite Hs in Hl.
  pose proof (NoDup_remove_1 _ _ _ Hl) as H1.
  pose proof (NoDup_remove_2 _ _ _ Hl) as H2.
  assert (Hsub : forall y, In y (firstn n l ++ skipn (S n) l) -> In y l).
  { intros y Hy. rewrite Hs. apply in_app_or in Hy. apply in_or_app.
    destruct Hy; [left|right; right]; auto. }
  split.
  - apply NoDup_Add with (a := x) (l := firstn n l ++ skipn (S n) l).
    + apply Add_app.
    + split; auto.
  - intros y Hy. apply in_app_or in Hy. destruct Hy as [Hy|[<-|Hy]]; auto.
    + right. split; [apply Hsub; apply in_or_app; auto|].
      intros ->. apply H2. apply in_or_app. auto.
    + right. split; [apply Hsub; apply in_or_app; auto|].
      intros ->. apply H2. apply in_or_app. auto.
Qed.

Lemma remove_positions_spec (ps : list nat) (l : list oid) :
  forall i y,
    In y (remove_positions ps i l) ->
    exists j, nth_error l j = Some y /\ ~ In (i + j) ps.
Proof.
  induction l as [|a l IH]; intros i y H; [destruct H|].
  simpl in H. destruct (in_dec Nat.eq_dec i ps) as [Hi|Hi].
  - destruct (IH _ _ H) as (j & H1 & H2). exists (S j). split; auto.
    now replace (i + S j) with (S i + j) by lia.
  - destruct H as [<-|H].
    + exists 0. split; auto. now rewrite Nat.add_0_r.
    + destruct (IH _ _ H) as (j & H1 & H2). exists (S j). split; auto.
      now replace (i + S j) with (S i + j) by lia.
Qed.

Lemma remove_positions_NoDup (ps : list nat) (l : list oid) :
  forall i, NoDup l -> NoDup (remove_positions ps i l).
Proof.
  induction l as [|a l IH]; intros i H; simpl; [constructor|].
  inversion H as [|? ? Ha Hl]; subst.
  destruct (in_dec Nat.eq_dec i ps); auto.
  constructor; auto.
  intros Hin. destruct (remove_positions_spec _ _ _ _ Hin) as (j & Hj & _).
  apply Ha. eapply nth_error_In; eauto.
Qed.

Lemma range_from_up (fuel : nat) (i stop step : Z) :
  (0 < step)%Z -> (0 <= i)%Z ->
  NoDup (range_from fuel i stop step) /\
  (forall p, In p (range_from fuel i stop step) -> (i <= Z.of_nat p)%Z).
Proof.
  intros Hs. revert i. induction fuel as [|fuel IH]; intros i Hi; simpl.
  - split; [constructor|intros p []].
  - assert (E : (0 <? step)%Z = true) by now apply Z.ltb_lt. rewrite E.
    destruct (i <? stop)%Z; [|split; [constructor|intros p []]].
    destruct (IH (i + step)%Z ltac:(lia)) as [H1 H2]. split.
    + constructor; auto. intros Hin. apply H2 in Hin. lia.
    + intros p [<-|Hp]; [lia|]. apply H2 in Hp. lia.
Qed.

Lemma range_from_down (fuel : nat) (i stop step : Z) :
  (step < 0)%Z -> (-1 <= stop)%Z ->
  NoDup (range_from fuel i stop step) /\
  (forall p, In p (range_from fuel i stop step) -> (Z.of_nat p <= i)%Z).
Proof.
  intros Hs Hstop. revert i. induction fuel as [|fuel IH]; intros i; simpl.
  - split; [constructor|intros p []].
  - assert (E : (0 <? step)%Z = false) by (apply Z.ltb_ge; lia). rewrite E.
    destruct (stop <? i)%Z eqn:Ei; [|split; [constructor|intros p []]].
    apply Z.ltb_lt in Ei.
    destruct (IH (i + step)%Z) as [H1 H2]. split.
    + constructor; auto. intros Hin. apply H2 in Hin. lia.
    + intros p [<-|Hp]; [lia|]. apply H2 in Hp. lia.
Qed.

Lemma slice_positions_NoDup (s : slice) (len : nat) (ps : list nat) :
  slice_positions s len = Some ps -> NoDup ps.
Proof.
  unfold slice_positions, slice_indices.
  set (step := match slice_step s with Some k => k | None => 1%Z end).
  destruct (step =? 0)%Z eqn:E0; [discriminate|]. apply Z.eqb_neq in E0.
  intros [= <-].
  destruct (step <? 0)%Z eqn:En.
  - apply Z.ltb_lt in En. apply range_from_down; auto.
    destruct (slice_stop s) as [v|]; [|lia].
    destruct (v <? 0)%Z eqn:Ev; [lia|]. apply Z.ltb_ge in Ev. lia.
  - apply Z.ltb_ge in En. apply range_from_up; [lia|].
    destruct (slice_start s) as [v|]; [|lia].
    destruct (v <? 0)%Z eqn:Ev; [lia|]. apply Z.ltb_ge in Ev. lia.
Qed.

Lemma In_select (l : list oid) (ps : list nat) (z : oid) :
  In z (flat_map (select l) ps) -> exists p, In p ps /\ nth_error l p = Some z.
Proof.
  intros H. apply in_flat_map in H. destruct H as (p & Hp & Hz).
  unfold select in Hz. destruct (nth_error l p) eqn:E; [|destruct Hz].
  destruct Hz as [<-|[]]. eauto.
Qed.

Lemma nth_error_inj (l : list oid) (i j : nat) (x : oid) :
  NoDup l -> nth_error l i = Some x -> nth_error l j = Some x -> i = j.
Proof.
  intros Hl Hi Hj. rewrite NoDup_nth_error in Hl. apply Hl.
  - apply nth_error_Some. congruence.
  - congruence.
Qed.

Lemma select_NoDup (l : list oid) (ps : list nat) :
  NoDup l -> NoDup ps -> NoDup (flat_map (select l) ps).
Proof.
  intros Hl. induction 1 as [|p ps Hp Hps IH]; simpl; [constructor|].
  unfold select at 1. destruct (nth_error l p) as [z|] eqn:E; simpl; auto.
  constructor; auto. intros Hin.
  destruct (In_select _ _ _ Hin) as (p' & Hp' & Hz).
  assert (p = p') by exact (nth_error_inj l p p' z Hl E Hz). congruence.
Qed.

(** What a slice selects and what deleting the slice leaves are apart. *)
Lemma delslice_apart (l os l' : list oid) (s : slice) :
  NoDup l ->
  list_getslice l s = Some os -> list_delslice l s = Some l' ->
  NoDup os /\ NoDup l' /\
  (forall z, In z os -> In z l) /\
  (forall y, In y l' -> In y l /\ ~ In y os).
Proof.
  unfold list_getslice, list_delslice. intros Hl.
  destruct (slice_positions s (length l)) as [ps|] eqn:E; [|discriminate].
  intros [= <-] [= <-]. fold (select l).
  pose proof (slice_positions_NoDup _ _ _ E) as Hps.
  split; [now apply select_NoDup|]. split; [now apply remove_positions_NoDup|].
  split.
  - intros z Hz. destruct (In_select _ _ _ Hz) as (p & _ & Hn).
    eapply nth_error_In; eauto.
  - intros y Hy. destruct (remove_positions_spec _ _ _ _ Hy) as (j & Hj & Hnj).
    split; [eapply nth_error_In; eauto|].
    intros Hin. destruct (In_select _ _ _ Hin) as (p & Hp & Hn).
    assert (j = p) by exact (nth_error_inj l j p y Hl Hj Hn). subst. auto.
Qed.

Lemma remove_positions_one (l : list oid) (m : nat) :
  forall i,
    remove_positions [m] i l
    = if Nat.ltb m i then l else firstn (m - i) l ++ skipn (S (m - i)) l.
Proof.
  induction l as [|a l IH]; intros i.
  - simpl. rewrite firstn_nil. now destruct (Nat.ltb m i).
  - cbn [remove_positions]. rewrite IH.
    destruct (in_dec Nat.eq_dec i [m]) as [[Hi|[]]|Hi].
    + subst i. assert (E : Nat.ltb m (S m) = true) by (apply Nat.ltb_lt; lia).
      rewrite E, Nat.ltb_irrefl, Nat.sub_diag. reflexivity.
    + assert (Hne : m <> i) by (intros ->; apply Hi; simpl; auto).
      destruct (Nat.ltb m i) eqn:E.
      * apply Nat.ltb_lt in E.
        assert (E' : Nat.ltb m (S i) = true) by (apply Nat.ltb_lt; lia). now rewrite E'.
      * apply Nat.ltb_ge in E.
        assert (E' : Nat.ltb m (S i) = false) by (apply Nat.ltb_ge; lia). rewrite E'.
        replace (m - i) with (S (m - S i)) by lia. reflexivity.
Qed.

(** Deleting by a non-negative index, which the method does through the
    slice [slice(i, i+1)], is the deletion of that position. *)
Lemma delitem_as_slice (l l' : list oid) (i : Z) :
  (0 <= i)%Z ->
  list_delitem l i = Some l' ->
  list_delslice l (mkSlice (Some i) (Some (i + 1)%Z) None) = Some l'.
Proof.
  intros Hi. unfold list_delitem, norm_index.
  assert (E1 : (i <? 0)%Z = false) by (apply Z.ltb_ge; lia). rewrite E1.
  destruct ((0 <=? i) && (i <? Z.of_nat (length l)))%Z eqn:E; [|discriminate].
  apply andb_true_iff in E. destruct E as [_ E]. apply Z.ltb_lt in E.
  intros [= <-].
  unfold list_delslice, slice_positions, slice_indices. cbn [slice_step slice_start slice_stop].
  cbn [Z.eqb Z.ltb Z.compare]. rewrite E1.
  assert (E2 : (i + 1 <? 0)%Z = false) by (apply Z.ltb_ge; lia). rewrite E2.
  rewrite !Z.min_l by lia.
  destruct (length l) as [|len] eqn:El; [simpl in E; lia|].
  cbn [range_from Z.ltb Z.compare].
  assert (E3 : (i <? i + 1)%Z = true) by (apply Z.ltb_lt; lia). rewrite E3.
  assert (E4 : range_from len (i + 1) (i + 1) 1 = []).
  { destruct len; simpl; auto. now rewrite Z.ltb_irrefl. }
  rewrite E4, remove_positions_one. cbn [Nat.ltb Nat.leb]. now rewrite Nat.sub_0_r.
Qed.

Lemma list_getslice_total (l : list oid) (s : slice) (os : list oid) :
  list_getslice l s = Some os -> exists l', list_delslice l s = Some l'.
Proof.
  unfold list_getslice, list_delslice.
  destruct (slice_positions s (length l)); [eauto|discriminate].
Qed.

Lemma NoDup_app_add_last (l : list oid) (x : oid) :
  NoDup l -> ~ In x l -> NoDup (l ++ [x]).
Proof.
  intros Hl Hx. apply (Permutation_NoDup (l := x :: l)).
  - apply Permutation_cons_append.
  - now constructor.
Qed.

(** *** One operation *)

Lemma inv_set_order (h1 : Heap) (self : sid) (l' : list oid) :
  In self (o_namespace_element_sets (objs h1 (ns_parent (nsets h1 self)))) ->
  ns_backend (nsets h1 self) <> [] ->
  NoDup l' ->
  (forall y, In y l' -> properly_indexed h1 self y) ->
  ordered_inv (upd_set h1 self (set_ns_order (Some l') (nsets h1 self))) self /\
  order_of (nsets (upd_set h1 self (set_ns_order (Some l') (nsets h1 self))) self) = l'.
Proof.
  intros Hs Hb Hn Hp. unfold ordered_inv, properly_indexed.
  rewrite nsets_upd_set_same.
  cbn [set_ns_order ns_order ns_parent ns_backend order_of objs upd_set].
  repeat split; auto. discriminate.
Qed.

Lemma removes_keep_indexed (self : sid) (zs : list oid) :
  forall (h h' : Heap),
    NoDup zs ->
    (forall z, In z zs -> properly_indexed h self z) ->
    for_each zs (NamespaceSet_remove self) h = (h', Ret tt) ->
    (forall y, ~ In y zs -> properly_indexed h self y -> properly_indexed h' self y) /\
    ns_order (nsets h' self) = ns_order (nsets h self) /\
    ns_parent (nsets h' self) = ns_parent (nsets h self) /\
    (ns_backend (nsets h self) <> [] -> ns_backend (nsets h' self) <> []) /\
    (forall y, o_namespace_element_sets (objs h' y) = o_namespace_element_sets (objs h y)).
Proof.
  induction zs as [|z zs IH]; intros h h' Hn Hz H.
  - injection H as <-. repeat split; auto.
  - simpl in H. unfold bind in H.
    destruct (NamespaceSet_remove self z h) as [h1 [[]|e|]] eqn:Hr; try discriminate.
    inversion Hn as [|? ? Hnz Hnzs]; subst.
    destruct (remove_keeps_indexed self z h h1) as (K1 & K2 & K3 & K4 & K5); auto.
    { apply Hz. simpl. auto. }
    destruct (IH h1 h' Hnzs) as (J1 & J2 & J3 & J4 & J5); auto.
    { intros z' Hz'. apply K1; [intros ->; contradiction|]. apply Hz. simpl. auto. }
    split; [|split; [|split; [|split]]].
    + intros y Hy Hp. apply J1; [intros Hin; apply Hy; simpl; auto|].
      apply K1; auto. intros ->. apply Hy. simpl. auto.
    + congruence.
    + congruence.
    + auto.
    + intros y. now rewrite J5, K5.
Qed.

(** One operation that returns keeps the invariant and changes the order
    as the operation changes a list. *)
Lemma run_op_inv (self : sid) (op : OrderedOp) (h h' : Heap) :
  ordered_inv h self ->
  (forall i, op = Op_delitem i -> (0 <= i)%Z) ->
  run_op self op h = (h', Ret tt) ->
  ordered_inv h' self /\
  (forall l', list_op op (order_of (nsets h self)) = Some l' ->
              order_of (nsets h' self) = l').
Proof.
  intros (Hord & Hself & Hbk & Hnd & Hidx) Hscope Hrun.
  assert (Hadd : forall x h1 l',
             NamespaceSet_add self x h = (h1, Ret tt) ->
             NoDup l' ->
             (forall y, In y l' -> y = x \/ In y (order_of (nsets h self))) ->
             ordered_inv (upd_set h1 self (set_ns_order (Some l') (nsets h1 self))) self /\
             order_of (nsets (upd_set h1 self (set_ns_order (Some l') (nsets h1 self))) self)
             = l').
  { intros x h1 l' Ha Hl Hin.
    destruct (add_keeps_indexed self x h h1 Hself Ha) as (A1 & A2 & A3 & A4 & A5 & A6 & A7).
    apply inv_set_order; auto.
    - now rewrite A5, A7.
    - intros y Hy. destruct (Hin y Hy) as [->|Hy']; auto. }
  assert (Hfresh : forall x h1,
             NamespaceSet_add self x h = (h1, Ret tt) ->
             ~ In x (order_of (nsets h self)) /\
             order_of (nsets h1 self) = order_of (nsets h self)).
  { intros x h1 Ha.
    destruct (add_keeps_indexed self x h h1 Hself Ha) as (A1 & A2 & A3 & A4 & A5 & A6 & A7).
    split; [|unfold order_of; now rewrite A4].
    intros Hin. apply (A3 Hbk). auto. }
  assert (Hdel : forall s,
             OrderedNamespaceSet_delslice self s h = (h', Ret tt) ->
             ordered_inv h' self /\
             (forall l', list_delslice (order_of (nsets h self)) s = Some l' ->
                         order_of (nsets h' self) = l')).
  { intros s. unfold OrderedNamespaceSet_delslice, bind, get_heap.
    destruct (list_getslice (order_of (nsets h self)) s) as [os|] eqn:Eg;
      [|discriminate].
    destruct (for_each os (NamespaceSet_remove self) h) as [h1 [[]|e|]] eqn:Er;
      try discriminate.
    destruct (list_delslice (order_of (nsets h1 self)) s) as [l1|] eqn:Ed;
      [|discriminate].
    unfold set_order, modify. intros [= <-].
    assert (Ho : order_of (nsets h1 self) = order_of (nsets h self)).
    { destruct (list_getslice_total (order_of (nsets h self)) s os Eg) as (l0 & E0).
      destruct (delslice_apart _ _ _ _ Hnd Eg E0) as (D1 & _ & D3 & _).
      destruct (removes_keep_indexed self os h h1 D1) as (_ & R2 & _); auto.
      unfold order_of. now rewrite R2. }
    rewrite Ho in Ed.
    destruct (delslice_apart _ _ _ _ Hnd Eg Ed) as (D1 & D2 & D3 & D4).
    destruct (removes_keep_indexed self os h h1 D1) as (R1 & R2 & R3 & R4 & R5); auto.
    destruct (inv_set_order h1 self l1) as [I1 I2]; auto.
    - now rewrite R3, R5.
    - intros y Hy. destruct (D4 y Hy) as [Hy1 Hy2]. auto.
    - split; auto. intros l' Hl'. rewrite I2. congruence. }
  destruct op as [x|i x|i x|i|s]; cbn [run_op list_op] in *.
  - (* add *)
    rewrite OrderedNamespaceSet_add_unfold in Hrun.
    destruct (NamespaceSet_add self x h) as [h1 [[]|e|]] eqn:Ha; try discriminate.
    injection Hrun as <-.
    destruct (Hfresh x h1 Ha) as [Hx Ho]. rewrite Ho.
    destruct (Hadd x h1 (order_of (nsets h self) ++ [x]) Ha) as [I1 I2].
    + apply NoDup_app_add_last; auto.
    + intros y Hy. apply in_app_or in Hy. destruct Hy as [Hy|[<-|[]]]; auto.
    + split; auto. intros l' [= <-]. exact I2.
  - (* insert *)
    unfold OrderedNamespaceSet_insert, bind, get_heap, set_order, modify in Hrun.
    destruct (NamespaceSet_add self x h) as [h1 [[]|e|]] eqn:Ha; try discriminate.
    injection Hrun as <-.
    destruct (Hfresh x h1 Ha) as [Hx Ho]. rewrite Ho.
    destruct (Hadd x h1 (list_insert (order_of (nsets h self)) i x) Ha) as [I1 I2].
    + now apply list_insert_NoDup.
    + intros y Hy. now apply list_insert_In in Hy.
    + split; auto. intros l' [= <-]. exact I2.
  - (* item replacement *)
    unfold OrderedNamespaceSet_setitem, bind, get_heap in Hrun.
    destruct (list_getitem (order_of (nsets h self)) i) as [deleted|] eqn:Eg;
      [|discriminate].
    destruct (NamespaceSet_add self x h) as [h1 [[]|e|]] eqn:Ha; try discriminate.
    destruct (Hfresh x h1 Ha) as [Hx Ho]. rewrite Ho in Hrun.
    destruct (list_setitem (order_of (nsets h self)) i x) as [l1|] eqn:Es;
      [|discriminate].
    unfold set_order, modify in Hrun. cbn [for_each] in Hrun. unfold bind in Hrun.
    destruct (list_setitem_spec _ _ _ _ Es) as (n & old & G1 & G2 & ->).
    assert (old = deleted) by congruence. subst old.
    destruct (replace_NoDup _ _ _ x Hnd G2 Hx) as [N1 N2].
    destruct (Hadd x h1 (firstn n (order_of (nsets h self)) ++ x
                         :: skipn (S n) (order_of (nsets h self))) Ha N1)
      as [I1 I2].
    { intros y Hy. destruct (N2 y Hy) as [->|[Hy' _]]; auto. }
    set (h2 := upd_set h1 self
                 (set_ns_order (Some (firstn n (order_of (nsets h self)) ++ x
                                      :: skipn (S n) (order_of (nsets h self))))
                               (nsets h1 self))) in *.
    destruct (NamespaceSet_remove self deleted h2) as [h3 [[]|e|]] eqn:Hr;
      try discriminate.
    injection Hrun as <-.
    destruct I1 as (J1 & J2 & J3 & J4 & J5).
    assert (Hdp : properly_indexed h2 self deleted).
    { destruct (add_keeps_indexed self x h h1 Hself Ha) as (_ & A2 & _).
      assert (Hd1 : properly_indexed h1 self deleted).
      { apply A2, Hidx. eapply nth_error_In; eauto. }
      intros n0 d0 cs0 Hin. unfold h2 in Hin |- *.
      rewrite nsets_upd_set_same in Hin. cbn [set_ns_order ns_backend] in Hin.
      cbn [upd_set objs]. apply Hd1. exact Hin. }
    destruct (remove_keeps_indexed self deleted h2 h3 Hdp Hr) as (K1 & K2 & K3 & K4 & K5).
    split.
    + unfold ordered_inv. rewrite K3, K5. unfold order_of. rewrite K2.
      fold (order_of (nsets h2 self)).
      repeat split; auto.
      intros y Hy. apply K1; auto.
      rewrite I2 in Hy. destruct (N2 y Hy) as [->|[_ Hne]]; auto.
      intros ->. apply Hx. eapply nth_error_In; eauto.
    + intros l' [= <-]. unfold order_of. rewrite K2. exact I2.
  - (* deletion by index *)
    unfold OrderedNamespaceSet_delitem in Hrun.
    destruct (Hdel _ Hrun) as [I1 I2]. split; auto.
    intros l' Hl'. apply I2. apply delitem_as_slice; auto.
  - (* deletion by slice *)
    exact (Hdel _ Hrun).
Qed.

(** *** Sequences of operations *)

Lemma run_ops_inv (self : sid) (ops : list OrderedOp) :
  forall (h h' : Heap) (l' : list oid),
    ordered_inv h self ->
    (forall i, In (Op_delitem i) ops -> (0 <= i)%Z) ->
    run_ops self ops h = (h', Ret tt) ->
    list_ops ops (order_of (nsets h self)) = Some l' ->
    ordered_inv h' self /\ order_of (nsets h' self) = l'.
Proof.
  induction ops as [|op ops IH]; intros h h' l' Hinv Hscope Hrun Hl.
  - injection Hrun as <-. injection Hl as <-. auto.
  - unfold run_ops in Hrun. simpl in Hrun. unfold bind in Hrun.
    destruct (run_op self op h) as [h1 [[]|e|]] eqn:Hop; try discriminate.
    simpl in Hl.
    destruct (list_op op (order_of (nsets h self))) as [l1|] eqn:El; [|discriminate].
    destruct (run_op_inv self op h h1 Hinv) as [I1 I2]; auto.
    { intros i ->. apply Hscope. simpl. auto. }
    apply (IH h1 h' l'); auto.
    + intros i Hi. apply Hscope. simpl. auto.
    + now rewrite (I2 l1 El).
Qed.

Lemma insert_then_read (self : sid) (i : Z) (x : oid) (h1 h2 : Heap) :
  (0 <= i <= Z.of_nat (length (order_of (nsets h1 self))))%Z ->
  OrderedNamespaceSet_insert self i x h1 = (h2, Ret tt) ->
  OrderedNamespaceSet_getitem (nsets h2 self) i = Ret x.
Proof.
  intros Hi. unfold OrderedNamespaceSet_insert, bind, get_heap, set_order, modify.
  destruct (NamespaceSet_add self x h1) as [h [[]|e|]] eqn:Ha; try discriminate.
  intros [= <-]. destruct (NamespaceSet_add_ok _ _ _ _ Ha) as (_ & b & _ & ->).
  unfold OrderedNamespaceSet_getitem. rewrite !nsets_upd_set_same.
  cbn [set_ns_order set_ns_backend ns_order order_of].
  fold (order_of (nsets h1 self)). now rewrite list_getitem_insert.
Qed.

(** X24.  Start from an ordered set whose order has
    no duplicates and whose ordered elements are all in its indexes, and
    run a sequence of [add], [insert], single-item replacement and deletion
    (by slice, or by an index that is not negative), every one of which
    returns.  If a plain list accepts the same operations, iterating the
    set yields exactly the list they produce, and no element occurs in it
    twice.  After an [insert(i, x)] that returns, with [i] between 0 and
    the length before it, position [i] reads [x]. *)
Theorem ordered_set_follows_list
        (self : sid) (ops : list OrderedOp) (h h' : Heap) (l' : list oid) :
  ordered_inv h self ->
  (forall i, In (Op_delitem i) ops -> (0 <= i)%Z) ->
  run_ops self ops h = (h', Ret tt) ->
  list_ops ops (order_of (nsets h self)) = Some l' ->
  iter_set (nsets h' self) = Ret l' /\
  NoDup l' /\
  (forall i x h1 h2,
      (0 <= i <= Z.of_nat (length (order_of (nsets h1 self))))%Z ->
      OrderedNamespaceSet_insert self i x h1 = (h2, Ret tt) ->
      OrderedNamespaceSet_getitem (nsets h2 self) i = Ret x).
Proof.
  intros Hinv Hscope Hrun Hl.
  destruct (run_ops_inv self ops h h' l' Hinv Hscope Hrun Hl)
    as [(Hord & _ & _ & Hnd & _) Ho].
  split; [|split].
  - unfold iter_set. unfold order_of in Ho.
    destruct (ns_order (nsets h' self)); [now subst|congruence].
  - now rewrite <- Ho.
  - intros. eapply insert_then_read; eauto.
Qed.

End OrderedSets.

Section OrderedSetsExamples.

#[local] Existing Instance ascii_runtime.

Lemma store5_inv : ordered_inv store5 7.
Proof.
  unfold ordered_inv. split; [vm_compute; discriminate|].
  split; [simpl; auto|]. split; [vm_compute; discriminate|]. split.
  - vm_compute. repeat constructor; simpl; intuition discriminate.
  - intros y Hy n d cs Hin. vm_compute in Hy. vm_compute in Hin.
    destruct Hin as [[= <- <- <-]|[]].
    destruct Hy as [<-|[<-|[]]]; eexists; split; reflexivity.
Qed.

Lemma ordered_set_follows_list_witness :
  iter_set (nsets (exec (run_ops 7 [Op_add 43; Op_insert 0 44;
                                    Op_delslice (mkSlice None None (Some 2%Z))])
                        store5) 7)
  = Ret [41; 43] /\
  NoDup [41; 43].
Proof.
  destruct (ordered_set_follows_list 7
              [Op_add 43; Op_insert 0 44; Op_delslice (mkSlice None None (Some 2%Z))]
              store5
              (exec (run_ops 7 [Op_add 43; Op_insert 0 44;
                                Op_delslice (mkSlice None None (Some 2%Z))]) store5)
              [41; 43]) as (H1 & H2 & _).
  - exact store5_inv.
  - intros i [H|[H|[H|[]]]]; discriminate H.
  - apply exec_returned. vm_compute. reflexivity.
  - vm_compute. reflexivity.
  - split; assumption.
Defined.

(** C8.  Three operations on the ordered set of [a] and [b] that return
    and leave an order no sequence of list operations gives.  [del s[-1]]
    changes nothing, where a list loses its last element: the method
    deletes the slice from -1 to 0, which is empty.  [del s[5]] returns
    and changes nothing, where a list raises [IndexError].  After the
    slice replacement [s[0:1] = [c]] the set contains [c], whose parent it
    has set, and has length 2, but the iteration yields [b] alone: the
    order was assigned the iterator that the loop before it had used up. *)
Theorem ordered_set_order_slips :
  iter_set (nsets store5 7) = Ret [41; 42] /\
  (let h1 := exec (OrderedNamespaceSet_delitem 7 (-1)) store5 in
   snd (OrderedNamespaceSet_delitem 7 (-1) store5) = Ret tt /\
   iter_set (nsets h1 7) = Ret [41; 42] /\
   NamespaceSet_contains (nsets h1 7) 42 (objs h1 42) = Ret true /\
   list_delitem [41; 42] (-1) = Some [41]) /\
  (let h1 := exec (OrderedNamespaceSet_delitem 7 5) store5 in
   snd (OrderedNamespaceSet_delitem 7 5 store5) = Ret tt /\
   iter_set (nsets h1 7) = Ret [41; 42] /\
   list_delitem [41; 42] 5 = None) /\
  (let s := mkSlice (Some 0%Z) (Some 1%Z) None in
   let h2 := exec (OrderedNamespaceSet_setslice 7 s [43]) store5 in
   snd (OrderedNamespaceSet_setslice 7 s [43] store5) = Ret tt /\
   list_setslice [41; 42] s [43] = Some [43; 42] /\
   iter_set (nsets h2 7) = Ret [42] /\
   o_parent (objs h2 43) = Some 40 /\
   NamespaceSet_contains (nsets h2 7) 43 (objs h2 43) = Ret true /\
   NamespaceSet_len (nsets h2 7) = Ret 2).
Proof.
  repeat split; vm_compute; reflexivity.
Qed.

End OrderedSetsExamples.

Section Reconciliation.

Context {py : PyRuntime}.

(* ================================================================== *)
(** * Reconciliation of two sets *)

(** ** Dictionaries with unique keys *)

Lemma dict_get_In (k : pyval) (y : oid) (d : pydict) :
  dict_get k d = Some y -> In (k, y) d.
Proof.
  induction d as [|[k' v'] d IH]; simpl; [discriminate|].
  destruct (pyval_eqb k' k) eqn:E; auto.
  apply pyval_eqb_eq in E. subst k'. intros H. inversion H. auto.
Qed.

Lemma dict_get_None (k : pyval) (d : pydict) :
  dict_get k d = None <-> ~ In k (map fst d).
Proof.
  induction d as [|[k' v'] d IH]; simpl.
  - tauto.
  - destruct (pyval_eqb k' k) eqn:E.
    + apply pyval_eqb_eq in E. split; [discriminate | intros H; exfalso; auto].
    + rewrite IH. split; [|tauto].
      intros H [H1|H1]; [|tauto].
      subst k'. rewrite pyval_eqb_refl in E. discriminate.
Qed.

Lemma In_dict_get (k : pyval) (y : oid) (d : pydict) :
  NoDup (map fst d) -> In (k, y) d -> dict_get k d = Some y.
Proof.
  induction d as [|[k' v'] d IH]; simpl; [tauto|].
  intros Hnd [H|H].
  - inversion H. subst. now rewrite pyval_eqb_refl.
  - inversion Hnd as [|? ? Hn Hnd']. subst.
    destruct (pyval_eqb k' k) eqn:E; auto.
    apply pyval_eqb_eq in E. subst k'.
    exfalso. apply Hn. apply (in_map fst) in H. exact H.
Qed.



Lemma dict_del_keys (k : pyval) (d : pydict) (k' : pyval) :
  In k' (map fst (dict_del k d)) -> In k' (map fst d).
Proof.
  induction d as [|[k0 v0] d IH]; simpl; auto.
  destruct (pyval_eqb k0 k); simpl; intuition.
Qed.


Lemma dict_get_del_same (k : pyval) (d : pydict) :
  NoDup (map fst d) -> dict_get k (dict_del k d) = None.
Proof.
  induction d as [|[k0 v0] d IH]; simpl; intros Hnd; auto.
  inversion Hnd as [|? ? Hn Hnd']. subst.
  destruct (pyval_eqb k0 k) eqn:E; simpl.
  - apply pyval_eqb_eq in E. subst. now apply dict_get_None.
  - rewrite E. auto.
Qed.

(** ** Merging a flat object *)

Lemma merge_var_frame (us : bool) (o : Obj) (e : string * pyval) :
  o_mro (merge_var us o e) = o_mro o /\
  o_parent (merge_var us o e) = o_parent o /\
  o_id_short (merge_var us o e) = o_id_short o /\
  o_source (merge_var us o e) = o_source o /\
  o_namespace_element_sets (merge_var us o e) = o_namespace_element_sets o.
Proof. unfold merge_var. destruct (skipped_name (fst e) us); simpl; auto. Qed.

Lemma fold_merge_var_frame (us : bool) (l : list (string * pyval)) : forall o,
  o_mro (fold_left (merge_var us) l o) = o_mro o /\
  o_parent (fold_left (merge_var us) l o) = o_parent o /\
  o_id_short (fold_left (merge_var us) l o) = o_id_short o /\
  o_source (fold_left (merge_var us) l o) = o_source o /\
  o_namespace_element_sets (fold_left (merge_var us) l o) = o_namespace_element_sets o.
Proof.
  induction l as [|e l IH]; intros o; simpl; auto.
  destruct (IH (merge_var us o e)) as (H1 & H2 & H3 & H4 & H5).
  destruct (merge_var_frame us o e) as (G1 & G2 & G3 & G4 & G5).
  repeat split; congruence.
Qed.

Lemma copy_fields_frame (other : Obj) (us : bool) (o : Obj) :
  o_mro (copy_fields other us o) = o_mro o /\
  o_parent (copy_fields other us o) = o_parent o /\
  o_namespace_element_sets (copy_fields other us o) = o_namespace_element_sets o.
Proof.
  unfold copy_fields.
  destruct (isinstance other Referable), us, (isinstance other Identifiable),
    (isinstance other HasSemantics), (isinstance other Extension),
    (isinstance other Qualifier); simpl; auto.
Qed.

Lemma copy_fields_Referable (other o : Obj) :
  isinstance other Referable = true ->
  o_id_short (copy_fields other true o) = o_id_short other /\
  o_source (copy_fields other true o) = o_source other.
Proof.
  intros H. unfold copy_fields. rewrite H.
  destruct (isinstance other Identifiable), (isinstance other HasSemantics),
    (isinstance other Extension), (isinstance other Qualifier); simpl; auto.
Qed.

(** What [merged] keeps of the receiver: its class, its parent and its
    own sets. *)
Lemma merged_frame (other o : Obj) :
  o_mro (merged other o) = o_mro o /\
  o_parent (merged other o) = o_parent o /\
  o_namespace_element_sets (merged other o) = o_namespace_element_sets o.
Proof.
  unfold merged.
  destruct (fold_merge_var_frame true (o_vars other) (copy_fields other true o))
    as (H1 & H2 & _ & _ & H5).
  destruct (copy_fields_frame other true o) as (G1 & G2 & G3).
  repeat split; congruence.
Qed.

(** What [merged] takes from a [Referable]: short-name and source. *)
Lemma merged_Referable (other o : Obj) :
  isinstance other Referable = true ->
  o_id_short (merged other o) = o_id_short other /\
  o_source (merged other o) = o_source other.
Proof.
  intros H. unfold merged.
  destruct (fold_merge_var_frame true (o_vars other) (copy_fields other true o))
    as (_ & _ & H3 & H4 & _).
  destruct (copy_fields_Referable other o H) as (G1 & G2).
  split; congruence.
Qed.

Lemma isinstance_merged (other o : Obj) (C : PyClass) :
  isinstance (merged other o) C = isinstance o C.
Proof.
  unfold isinstance. destruct (merged_frame other o) as (H & _). now rewrite H.
Qed.

Lemma assoc_set_same {B : Type} (k : string) (v : B) (l : list (string * B)) :
  assoc k (assoc_set k v l) = Some v.
Proof.
  induction l as [|[k' v'] l IH]; simpl.
  - now rewrite String.eqb_refl.
  - destruct (String.eqb k' k) eqn:E; simpl; rewrite E; auto.
Qed.

Lemma assoc_set_other {B : Type} (k k' : string) (v : B) (l : list (string * B)) :
  k' <> k -> assoc k' (assoc_set k v l) = assoc k' l.
Proof.
  intros Hne. induction l as [|[k0 v0] l IH]; simpl.
  - destruct (String.eqb k k') eqn:E; auto.
    apply String.eqb_eq in E. congruence.
  - destruct (String.eqb k0 k) eqn:E; simpl.
    + apply String.eqb_eq in E. subst k0.
      destruct (String.eqb k k') eqn:E'; auto.
      apply String.eqb_eq in E'. congruence.
    + destruct (String.eqb k0 k'); auto.
Qed.

Lemma fold_merge_var_keeps (l : list (string * pyval)) (n : string) : forall o,
  ~ In n (map fst l) ->
  assoc n (o_vars (fold_left (merge_var true) l o)) = assoc n (o_vars o).
Proof.
  induction l as [|[n' v'] l IH]; intros o Hn; simpl in *; auto.
  rewrite IH by tauto.
  unfold merge_var. simpl.
  destruct (skipped_name n' true); auto.
  simpl. apply assoc_set_other. intros ->. tauto.
Qed.

(** Every variable of [other] that [update_from] does not skip is a
    variable of the merged object, with the value [other] has. *)
Lemma merged_vars (other o : Obj) (n : string) (v : pyval) :
  NoDup (map fst (o_vars other)) ->
  In (n, v) (o_vars other) ->
  skipped_name n true = false ->
  assoc n (o_vars (merged other o)) = Some v.
Proof.
  unfold merged. generalize (copy_fields other true o).
  induction (o_vars other) as [|[n' v'] l IH]; intros o0 Hnd Hin Hs; simpl in *.
  - tauto.
  - inversion Hnd as [|? ? Hn Hnd']. subst.
    destruct Hin as [H|H].
    + inversion H. subst n' v'.
      rewrite fold_merge_var_keeps by exact Hn.
      unfold merge_var. simpl. rewrite Hs. simpl. apply assoc_set_same.
    + now apply IH.
Qed.

(** The loop of [update_from] over variables none of which is a
    [NamespaceSet]: only the receiver changes, by [merge_var] in turn. *)
Lemma for_each_merge_var (rec : sid -> sid -> M unit) (self : oid)
      (entries : list (string * pyval)) : forall h,
  forallb (fun e => match snd e with VSet _ => false | _ => true end) entries = true ->
  exists h',
    for_each entries
      (fun entry =>
         let (name, var) := entry in
         if skipped_name name true then ret tt
         else
           match var with
           | VSet other_set =>
               h <- get_heap ;;
               match assoc name (o_vars (objs h self)) with
               | Some (VSet self_set) => rec self_set other_set
               | Some _ => raise (No_attribute "update_nss_from")
               | None => raise (Dict_KeyError (VStr name))
               end
           | _ => write_obj self (fun o => set_o_vars (assoc_set name var (o_vars o)) o)
           end) h = (h', Ret tt) /\
    nsets h' = nsets h /\
    (forall y, y <> self -> objs h' y = objs h y) /\
    objs h' self = fold_left (merge_var true) entries (objs h self).
Proof.
  induction entries as [|[name var] entries IH]; intros h Hflat.
  - exists h. simpl. auto.
  - simpl in Hflat. apply andb_true_iff in Hflat. destruct Hflat as [Hv Hflat].
    cbn [for_each]. unfold bind at 1.
    assert (Hstep : exists h1,
      (if skipped_name name true then ret tt
       else match var with
            | VSet other_set =>
                h <- get_heap ;;
                match assoc name (o_vars (objs h self)) with
                | Some (VSet self_set) => rec self_set other_set
                | Some _ => raise (No_attribute "update_nss_from")
                | None => raise (Dict_KeyError (VStr name))
                end
            | _ => write_obj self (fun o => set_o_vars (assoc_set name var (o_vars o)) o)
            end) h = (h1, Ret tt) /\
      nsets h1 = nsets h /\
      (forall y, y <> self -> objs h1 y = objs h y) /\
      objs h1 self = merge_var true (objs h self) (name, var)).
    { unfold merge_var. simpl fst. simpl snd.
      destruct (skipped_name name true).
      - exists h. auto.
      - exists (upd_obj h self (set_o_vars (assoc_set name var (o_vars (objs h self)))
                                           (objs h self))).
        destruct var; try discriminate Hv;
          (split; [reflexivity | split; [reflexivity | split;
             [intros y Hy; now apply objs_upd_obj_other | apply objs_upd_obj_same]]]). }
    destruct Hstep as (h1 & Hrun & Hs1 & Ho1 & Hself1).
    rewrite Hrun.
    destruct (IH h1 Hflat) as (h' & Hrun' & Hs' & Ho' & Hself').
    exists h'. split; [exact Hrun'|].
    split; [congruence|].
    split; [intros y Hy; rewrite Ho' by exact Hy; now apply Ho1|].
    rewrite Hself'. simpl. now rewrite Hself1.
Qed.

(** [update_from] with a flat [other] never raises and never looks at the
    nested reconciliation: the receiver becomes [merged], nothing else
    changes. *)
Lemma update_from_flat (rec : sid -> sid -> M unit) (self other : oid) (h : Heap) :
  flat (objs h other) = true ->
  exists h',
    update_from_body rec self other true h = (h', Ret tt) /\
    nsets h' = nsets h /\
    (forall y, y <> self -> objs h' y = objs h y) /\
    objs h' self = merged (objs h other) (objs h self).
Proof.
  intros Hflat. unfold update_from_body.
  unfold bind at 1. unfold get_heap at 1.
  unfold bind at 1. unfold write_obj at 1, modify.
  destruct (for_each_merge_var rec self (o_vars (objs h other))
              (upd_obj h self (copy_fields (objs h other) true (objs h self))) Hflat)
    as (h' & Hrun & Hs & Ho & Hself).
  exists h'. split; [exact Hrun|].
  split; [exact Hs|].
  split.
  - intros y Hy. rewrite Ho by exact Hy. now apply objs_upd_obj_other.
  - rewrite Hself, objs_upd_obj_same. reflexivity.
Qed.

(** ** The first loop: matching *)

Lemma get_attribute_id_short (o : Obj) (cs : bool) :
  isinstance o Referable = true ->
  _get_attribute o "id_short" cs = Some (fold_case cs (VStr (o_id_short o))).
Proof. intros H. unfold _get_attribute, getattr. simpl. now rewrite H. Qed.

Lemma match_other_found (rec : sid -> sid -> M unit) (self : sid) (o a : oid)
      (h : Heap) (dS : pydict) (cs : bool) :
  ns_backend (nsets h self) = [("id_short", (dS, cs))] ->
  isinstance (objs h o) Referable = true ->
  flat (objs h o) = true ->
  dict_get (id_key cs h o) dS = Some a ->
  exists h',
    match_other (update_from_body rec) self o h = (h', Ret false) /\
    nsets h' = nsets h /\
    (forall y, y <> a -> objs h' y = objs h y) /\
    objs h' a = merged (objs h o) (objs h a).
Proof.
  intros Hb Hr Hflat Hget.
  destruct (update_from_flat rec a o h Hflat) as (h' & Hrun & Hs & Ho & Ha).
  exists h'. split; [|auto].
  unfold match_other, try_except_KeyError.
  unfold bind at 1. unfold get_heap at 1.
  unfold match_attribute. rewrite Hr.
  unfold get_object_by_attribute. rewrite Hb.
  change (assoc "id_short" [("id_short", (dS, cs))]) with (Some (dS, cs)).
  cbv beta iota.
  replace (if cs then Some (VStr (o_id_short (objs h o)))
           else Some (VStr (upper (o_id_short (objs h o)))))
    with (Some (id_key cs h o)) by (unfold id_key; simpl; now destruct cs).
  rewrite Hget. unfold bind. rewrite Hrun. reflexivity.
Qed.

Lemma match_other_missing (rec : sid -> sid -> M unit) (self : sid) (o : oid)
      (h : Heap) (dS : pydict) (cs : bool) :
  ns_backend (nsets h self) = [("id_short", (dS, cs))] ->
  isinstance (objs h o) Referable = true ->
  dict_get (id_key cs h o) dS = None ->
  match_other (update_from_body rec) self o h = (h, Ret true).
Proof.
  intros Hb Hr Hget.
  unfold match_other, try_except_KeyError.
  unfold bind at 1. unfold get_heap at 1.
  unfold match_attribute. rewrite Hr.
  unfold get_object_by_attribute. rewrite Hb.
  change (assoc "id_short" [("id_short", (dS, cs))]) with (Some (dS, cs)).
  cbv beta iota.
  replace (if cs then Some (VStr (o_id_short (objs h o)))
           else Some (VStr (upper (o_id_short (objs h o)))))
    with (Some (id_key cs h o)) by (unfold id_key; simpl; now destruct cs).
  rewrite Hget. reflexivity.
Qed.

Lemma index_ok_values (cs : bool) (h : Heap) (d : pydict) :
  index_ok cs h d -> map (id_key cs h) (dict_values d) = map fst d.
Proof.
  intros [_ H]. unfold dict_values. rewrite map_map.
  apply map_ext_in. intros [k y] Hin. simpl.
  destruct (H k y Hin) as [_ ->]. reflexivity.
Qed.

Lemma index_ok_NoDup_values (cs : bool) (h : Heap) (d : pydict) :
  index_ok cs h d -> NoDup (dict_values d).
Proof.
  intros H. apply (NoDup_map_inv (id_key cs h)).
  rewrite (index_ok_values cs h d H). apply H.
Qed.

Lemma In_dict_values (y : oid) (d : pydict) :
  In y (dict_values d) <-> exists k, In (k, y) d.
Proof.
  unfold dict_values. rewrite in_map_iff. split.
  - intros [[k y'] [H1 H2]]. simpl in H1. subst. eauto.
  - intros [k H]. exists (k, y). auto.
Qed.

(** An index stays in order when the store changes only objects that
    keep their class and their key. *)
Lemma index_ok_frame (cs : bool) (h h' : Heap) (d : pydict) :
  index_ok cs h d ->
  (forall y, In y (dict_values d) ->
     o_mro (objs h' y) = o_mro (objs h y) /\ id_key cs h' y = id_key cs h y) ->
  index_ok cs h' d.
Proof.
  intros [Hnd H] Hsame. split; [exact Hnd|].
  intros k y Hin. destruct (H k y Hin) as [Hr Hk].
  destruct (Hsame y) as [Hm Hi]; [apply In_dict_values; eauto|].
  rewrite Hi. unfold isinstance in *. rewrite Hm. auto.
Qed.

(** The first loop of [update_nss_from] on flat [Referable]s with distinct
    keys that are not members of [self]: it returns, in order, the ones
    whose key [self] does not hold; a member of [self] under the key of
    one of them is merged with it, and nothing else changes. *)
Lemma first_loop_spec (rec : sid -> sid -> M unit) (self : sid) (cs : bool)
      (dS : pydict) : forall (others : list oid) (h : Heap) (acc : list oid),
  ns_backend (nsets h self) = [("id_short", (dS, cs))] ->
  index_ok cs h dS ->
  (forall o, In o others ->
     isinstance (objs h o) Referable = true /\
     (dict_mem (id_key cs h o) dS = true -> flat (objs h o) = true) /\
     ~ In o (dict_values dS)) ->
  NoDup (map (id_key cs h) others) ->
  exists h1,
    first_loop (update_from_body rec) self others acc h
      = (h1, Ret (acc ++ filter (fun o => negb (dict_mem (id_key cs h o) dS)) others)%list) /\
    nsets h1 = nsets h /\
    (forall y, ~ In y (dict_values dS) -> objs h1 y = objs h y) /\
    (forall o a, In o others -> dict_get (id_key cs h o) dS = Some a ->
       objs h1 a = merged (objs h o) (objs h a)) /\
    (forall k a, In (k, a) dS -> ~ In k (map (id_key cs h) others) ->
       objs h1 a = objs h a) /\
    index_ok cs h1 dS.
Proof.
  induction others as [|o r IH]; intros h acc Hb Hidx Hothers Hnd.
  - exists h. simpl. rewrite app_nil_r.
    split; [reflexivity|]. split; [reflexivity|]. split; [reflexivity|].
    split; [intros o a []|]. split; [reflexivity|exact Hidx].
  - cbn [first_loop]. unfold bind at 1.
    destruct (Hothers o) as (Hr & Hflat & Hout); [simpl; auto|].
    inversion Hnd as [|? ? Hfresh Hnd']. subst.
    assert (Hstep : exists h0,
      match_other (update_from_body rec) self o h
        = (h0, Ret (negb (dict_mem (id_key cs h o) dS))) /\
      nsets h0 = nsets h /\
      (forall y, ~ In y (dict_values dS) -> objs h0 y = objs h y) /\
      (forall a, dict_get (id_key cs h o) dS = Some a ->
         objs h0 a = merged (objs h o) (objs h a)) /\
      (forall k a, In (k, a) dS -> k <> id_key cs h o -> objs h0 a = objs h a)).
    { unfold dict_mem. destruct (dict_get (id_key cs h o) dS) as [a|] eqn:Hget.
      - assert (Hflat' : flat (objs h o) = true)
          by (apply Hflat; unfold dict_mem; now rewrite Hget).
        destruct (match_other_found rec self o a h dS cs Hb Hr Hflat' Hget)
          as (h0 & Hrun & Hs & Ho & Ha).
        exists h0. split; [exact Hrun|]. split; [exact Hs|].
        split; [|split].
        + intros y Hy. apply Ho. intros ->. apply Hy.
          apply In_dict_values. exists (id_key cs h o). now apply dict_get_In.
        + intros a' Ha'. inversion Ha'. subst a'. exact Ha.
        + intros k a' Hin Hk. apply Ho. intros ->.
          apply Hk. destruct Hidx as [HndS Hkeys].
          destruct (Hkeys k a Hin) as [_ ->].
          destruct (Hkeys _ a (dict_get_In _ _ _ Hget)) as [_ <-]. reflexivity.
      - exists h. rewrite (match_other_missing rec self o h dS cs Hb Hr Hget).
        split; [reflexivity|]. split; [reflexivity|]. split; [reflexivity|].
        split; [discriminate | reflexivity]. }
    destruct Hstep as (h0 & Hrun & Hs0 & Hout0 & Hm0 & Hk0).
    rewrite Hrun.
    assert (Hkey0 : forall o', In o' (o :: r) -> id_key cs h0 o' = id_key cs h o').
    { intros o' Hin. unfold id_key. rewrite Hout0; auto. now apply Hothers. }
    assert (Hidx0 : index_ok cs h0 dS).
    { apply (index_ok_frame cs h h0 dS Hidx). intros y Hy.
      apply In_dict_values in Hy. destruct Hy as [k Hin].
      destruct (pyval_eq_dec k (id_key cs h o)) as [->|Hne].
      - assert (Hy : objs h0 y = merged (objs h o) (objs h y))
          by (apply Hm0; apply In_dict_get; [apply Hidx | exact Hin]).
        destruct (merged_frame (objs h o) (objs h y)) as (Hm & _).
        destruct (merged_Referable (objs h o) (objs h y) Hr) as (Hi & _).
        rewrite Hy. split; [exact Hm|].
        destruct Hidx as [_ Hkeys]. destruct (Hkeys _ y Hin) as [_ Hk].
        rewrite <- Hk. unfold id_key. rewrite Hy. now rewrite Hi.
      - unfold id_key. rewrite (Hk0 k y Hin Hne). auto. }
    assert (Hmap : map (id_key cs h0) r = map (id_key cs h) r).
    { apply map_ext_in. intros o' Hin. apply Hkey0. simpl. auto. }
    destruct (IH h0 (if negb (dict_mem (id_key cs h o) dS) then (acc ++ [o])%list else acc))
      as (h1 & Hrun1 & Hs1 & Hout1 & Hm1 & Hk1 & Hidx1).
    { now rewrite Hs0. }
    { exact Hidx0. }
    { intros o' Hin. destruct (Hothers o') as (H1 & H2 & H3); [simpl; auto|].
      unfold id_key. rewrite Hout0 by exact H3. auto. }
    { now rewrite Hmap. }
    exists h1. split; [|split; [|split; [|split; [|split]]]].
    + rewrite Hrun1. f_equal. f_equal. simpl.
      replace (filter (fun o0 => negb (dict_mem (id_key cs h0 o0) dS)) r)
        with (filter (fun o0 => negb (dict_mem (id_key cs h o0) dS)) r).
      * destruct (negb (dict_mem (id_key cs h o) dS)); [|reflexivity].
        now rewrite <- app_assoc.
      * apply filter_ext_in. intros o' Hin. rewrite Hkey0; simpl; auto.
    + congruence.
    + intros y Hy. rewrite Hout1 by exact Hy. now apply Hout0.
    + intros o' a [->|Hin] Hget.
      * (* the first one: no later one has its key *)
        rewrite (Hk1 (id_key cs h o') a).
        -- now apply Hm0.
        -- now apply dict_get_In.
        -- now rewrite Hmap.
      * rewrite (Hm1 o' a Hin) by (rewrite Hkey0; simpl; auto).
        destruct (Hothers o') as (_ & _ & H3); [simpl; auto|].
        rewrite (Hout0 o' H3). f_equal.
        apply (Hk0 (id_key cs h o') a); [now apply dict_get_In|].
        intros Heq. apply Hfresh. rewrite <- Heq. now apply in_map.
    + intros k a Hin Hk. simpl in Hk.
      rewrite (Hk1 k a Hin) by (rewrite Hmap; tauto).
      apply (Hk0 k a Hin). intros ->. tauto.
    + exact Hidx1.
Qed.

(** ** The second loop: what [self] holds and [other] does not *)

Lemma stale_items_spec (h : Heap) (cs : bool) (dO d : pydict) :
  (forall k a, In (k, a) d -> _get_attribute (objs h a) "id_short" cs = Some k) ->
  stale_items h "id_short" cs dO (dict_values d)
    = Ret (dict_values (filter (fun e => negb (dict_mem (fst e) dO)) d)).
Proof.
  induction d as [|[k a] d IH]; intros H; simpl; auto.
  rewrite (H k a) by (simpl; auto).
  rewrite IH by (intros k' a' Hin; apply H; simpl; auto).
  destruct (dict_mem k dO); reflexivity.
Qed.

Lemma objects_to_remove_spec (h : Heap) (cs cs' : bool) (dS dO : pydict) :
  index_ok cs h dS ->
  objects_to_remove h [("id_short", (dS, cs))] [("id_short", (dO, cs'))]
    = Ret (dict_values (filter (fun e => negb (dict_mem (fst e) dO)) dS)).
Proof.
  intros [_ Hkeys]. unfold objects_to_remove.
  change (assoc "id_short" [("id_short", (dO, cs'))]) with (Some (dO, cs')).
  cbv beta iota.
  rewrite stale_items_spec.
  - now rewrite app_nil_r.
  - intros k a Hin. destruct (Hkeys k a Hin) as [Hr ->].
    now apply get_attribute_id_short.
Qed.

(** ** The last loops: moving and removing *)

(** One successful [remove] on a plain set with the one index. *)
Lemma remove_step (s : sid) (z : oid) (h h' : Heap) (d : pydict) (cs : bool) :
  ns_order (nsets h s) = None ->
  ns_backend (nsets h s) = [("id_short", (d, cs))] ->
  isinstance (objs h z) Referable = true ->
  remove s z h = (h', Ret tt) ->
  h' = upd_set (upd_obj h z (set_o_parent None (objs h z))) s
         (set_ns_backend [("id_short", (dict_del (id_key cs h z) d, cs))] (nsets h s)).
Proof.
  intros Hord Hb Hr Hrun. unfold remove in Hrun. rewrite Hord in Hrun.
  apply NamespaceSet_remove_ok in Hrun. destruct Hrun as (b & Hdel & ->).
  rewrite Hb in Hdel. cbn [index_delete] in Hdel.
  rewrite (get_attribute_id_short (objs h z) cs Hr) in Hdel.
  fold (id_key cs h z) in Hdel.
  destruct (dict_mem (id_key cs h z) d); inversion Hdel. reflexivity.
Qed.

(** One successful [add] on a plain set with the one index. *)
Lemma add_step (s : sid) (x : oid) (h h' : Heap) (d : pydict) (cs : bool) :
  ns_order (nsets h s) = None ->
  ns_backend (nsets h s) = [("id_short", (d, cs))] ->
  isinstance (objs h x) Referable = true ->
  add s x h = (h', Ret tt) ->
  h' = upd_set (upd_obj h x (set_o_parent (Some (ns_parent (nsets h s))) (objs h x))) s
         (set_ns_backend [("id_short", (dict_set (id_key cs h x) x d, cs))] (nsets h s)).
Proof.
  intros Hord Hb Hr Hrun. unfold add in Hrun. rewrite Hord in Hrun.
  apply NamespaceSet_add_ok in Hrun. destruct Hrun as (_ & b & Hins & ->).
  rewrite Hb in Hins. cbn [index_insert] in Hins.
  rewrite (get_attribute_id_short (objs h x) cs Hr) in Hins.
  fold (id_key cs h x) in Hins.
  inversion Hins. reflexivity.
Qed.

Lemma fold_left_ext_in {A B : Type} (f g : A -> B -> A) (l : list B) :
  (forall a b, In b l -> f a b = g a b) ->
  forall a, fold_left f l a = fold_left g l a.
Proof.
  induction l as [|b l IH]; intros H a; simpl; auto.
  rewrite (H a b) by (simpl; auto). apply IH. intros; apply H; simpl; auto.
Qed.


(** One round of the third loop, when it returns: the object leaves
    [other] and enters [self] under its key, with the owner of [self] as
    parent. *)
Lemma move_step (self other : sid) (b : oid) (h h' : Heap) (dS dO : pydict) (cs : bool) :
  self <> other ->
  ns_order (nsets h self) = None ->
  ns_order (nsets h other) = None ->
  ns_backend (nsets h self) = [("id_short", (dS, cs))] ->
  ns_backend (nsets h other) = [("id_short", (dO, cs))] ->
  isinstance (objs h b) Referable = true ->
  (remove other b ;;; add self b) h = (h', Ret tt) ->
  ns_backend (nsets h' self) = [("id_short", (dict_set (id_key cs h b) b dS, cs))] /\
  ns_backend (nsets h' other) = [("id_short", (dict_del (id_key cs h b) dO, cs))] /\
  ns_order (nsets h' self) = None /\
  ns_order (nsets h' other) = None /\
  ns_parent (nsets h' self) = ns_parent (nsets h self) /\
  (forall y, y <> b -> objs h' y = objs h y) /\
  objs h' b = set_o_parent (Some (ns_parent (nsets h self))) (objs h b).
Proof.
  intros Hne Hos Hoo Hbs Hbo Hr Hrun. unfold bind in Hrun.
  destruct (remove other b h) as [h1 [[]|e|]] eqn:Hrem; try discriminate Hrun.
  apply (remove_step other b h h1 dO cs Hoo Hbo Hr) in Hrem.
  assert (Hself1 : nsets h1 self = nsets h self).
  { subst h1. simpl. apply Nat.eqb_neq in Hne. now rewrite Hne. }
  assert (Hb1 : objs h1 b = set_o_parent None (objs h b)).
  { subst h1. simpl. now rewrite Nat.eqb_refl. }
  assert (Hkey1 : id_key cs h1 b = id_key cs h b).
  { unfold id_key. now rewrite Hb1. }
  apply (add_step self b h1 h' dS cs) in Hrun.
  - rewrite Hself1, Hb1, Hkey1 in Hrun. subst h' h1.
    assert (Hne' : other <> self) by congruence.
    apply Nat.eqb_neq in Hne'.
    simpl. rewrite !Nat.eqb_refl, Hne'. simpl.
    repeat split; auto.
    intros y Hy. apply Nat.eqb_neq in Hy. now rewrite Hy.
  - now rewrite Hself1.
  - now rewrite Hself1.
  - rewrite Hb1. now rewrite isinstance_set_o_parent.
Qed.

(** The third loop of [update_nss_from], when it returns. *)
Lemma move_loop (self other : sid) (cs : bool) :
  forall (bs : list oid) (h h' : Heap) (dS dO : pydict),
  self <> other ->
  ns_order (nsets h self) = None ->
  ns_order (nsets h other) = None ->
  ns_backend (nsets h self) = [("id_short", (dS, cs))] ->
  ns_backend (nsets h other) = [("id_short", (dO, cs))] ->
  (forall b, In b bs -> isinstance (objs h b) Referable = true) ->
  NoDup bs ->
  for_each bs (fun b => remove other b ;;; add self b) h = (h', Ret tt) ->
  ns_backend (nsets h' self) = [("id_short", (set_keys cs h bs dS, cs))] /\
  ns_backend (nsets h' other) = [("id_short", (del_keys cs h bs dO, cs))] /\
  ns_order (nsets h' self) = None /\
  ns_parent (nsets h' self) = ns_parent (nsets h self) /\
  (forall y, ~ In y bs -> objs h' y = objs h y) /\
  (forall b, In b bs ->
     objs h' b = set_o_parent (Some (ns_parent (nsets h self))) (objs h b)).
Proof.
  induction bs as [|b bs IH]; intros h h' dS dO Hne Hos Hoo Hbs Hbo Hr Hnd Hrun.
  - inversion Hrun. subst h'. simpl. repeat split; auto. intros b [].
  - cbn [for_each] in Hrun. unfold bind at 1 in Hrun.
    destruct ((remove other b;;; add self b) h) as [h1 [[]|e|]] eqn:Hstep;
      try discriminate Hrun.
    apply (move_step self other b h h1 dS dO cs Hne Hos Hoo Hbs Hbo) in Hstep;
      [|apply Hr; simpl; auto].
    destruct Hstep as (Hbs1 & Hbo1 & Hos1 & Hoo1 & Hp1 & Hy1 & Hb1).
    inversion Hnd as [|? ? Hfresh Hnd']. subst.
    assert (Hsame : forall y, In y bs -> objs h1 y = objs h y).
    { intros y Hy. apply Hy1. intros ->. tauto. }
    apply (IH h1 h' _ _ Hne Hos1 Hoo1 Hbs1 Hbo1) in Hrun; auto.
    + destruct Hrun as (Hbs' & Hbo' & Hos' & Hp' & Hy' & Hb').
      split; [|split; [|split; [|split; [|split]]]].
      * rewrite Hbs'. unfold set_keys. simpl. f_equal. f_equal. f_equal.
        apply fold_left_ext_in. intros d y Hy.
        unfold id_key. rewrite Hsame; auto.
      * rewrite Hbo'. unfold del_keys. simpl. f_equal. f_equal. f_equal.
        apply fold_left_ext_in. intros d y Hy.
        unfold id_key. rewrite Hsame; auto.
      * exact Hos'.
      * congruence.
      * intros y Hy. simpl in Hy. rewrite Hy' by tauto. apply Hy1. intros ->. tauto.
      * intros y [->|Hy].
        -- rewrite Hy' by exact Hfresh. exact Hb1.
        -- rewrite Hb' by exact Hy. rewrite Hp1. now rewrite Hsame.
    + intros y Hy. rewrite Hsame by exact Hy. apply Hr. simpl. auto.
Qed.

(** ** Lookups after the loops *)

Lemma set_keys_get_other (cs : bool) (h : Heap) (k : pyval) :
  forall (bs : list oid) (d : pydict),
  ~ In k (map (id_key cs h) bs) ->
  dict_get k (set_keys cs h bs d) = dict_get k d.
Proof.
  unfold set_keys. induction bs as [|b bs IH]; intros d Hk; simpl in *; auto.
  rewrite IH by tauto. apply dict_get_set_other. intros ->. tauto.
Qed.






Lemma NoDup_map_filter {K V : Type} (key : V -> K) (keep : V -> bool) :
  forall items : list V,
    NoDup (map key items) -> NoDup (map key (filter keep items)).
Proof.
  intros items. induction items as [|x items IH]; intros Hnd; simpl; [constructor|].
  inversion Hnd as [|? ? Hfresh Hrest]; subst.
  destruct (keep x); simpl; [|now apply IH].
  constructor; [|now apply IH].
  rewrite in_map_iff. intros (y & Hy & Hin).
  apply filter_In in Hin. apply Hfresh. rewrite <- Hy. apply in_map. tauto.
Qed.

(** ** The reconciliation *)


End Reconciliation.

Section ReconciliationExamples.

#[local] Existing Instance ascii_runtime.



End ReconciliationExamples.

Section KeysAndSources.

Context {py : PyRuntime}.

(* ================================================================== *)
(** * Keys and references *)

Lemma Key___eq___spec (a b : Key) : Key___eq__ a b = true <-> a = b.
Proof.
  unfold Key___eq__. destruct a as [t v i], b as [t' v' i']. simpl.
  rewrite !andb_true_iff, String.eqb_eq.
  destruct (KeyType_eq_dec i i') as [Hi|Hi], (KeyElements_eq_dec t t') as [Ht|Ht];
    split; intros H;
    try (inversion H; congruence); try (intuition congruence); intuition discriminate.
Qed.

Lemma all_zip_eq_spec (a : list Key) : forall b,
  length a = length b -> (all_zip_eq a b = true <-> a = b).
Proof.
  induction a as [|k a IH]; intros [|k' b] Hlen; simpl in *; try discriminate.
  - tauto.
  - injection Hlen as Hlen. rewrite andb_true_iff, Key___eq___spec, (IH b Hlen).
    split; [intros [-> ->]; reflexivity | intros H; inversion H; auto].
Qed.

(** X1.  [Reference.__eq__] holds exactly of two references with the same
    tuple of keys: the check of the lengths makes up for [zip] stopping at
    the shorter tuple, and the class an [AASReference] points to plays no
    part. *)
Theorem Reference___eq___iff_same_keys (self other : AASReference) :
  Reference___eq__ self other = true <-> ref_key self = ref_key other.
Proof.
  unfold Reference___eq__.
  destruct (Nat.eqb (length (ref_key self)) (length (ref_key other))) eqn:E; simpl.
  - apply Nat.eqb_eq in E. now apply all_zip_eq_spec.
  - apply Nat.eqb_neq in E. split; [discriminate|].
    intros H. rewrite H in E. congruence.
Qed.

(** X2.  The key of an identifiable element with a non-empty identifier
    is always built, whatever its class, and gives the identifier of the
    element back; with an empty identifier the constructor of [Key]
    refuses.  The key of an element that is not identifiable never is a
    global key. *)
Theorem Key_from_referable_get_identifier
        (KEY_ELEMENTS_CLASSES : PyClass -> option KeyElements) (referable : Obj) :
  (isinstance referable Identifiable = true ->
   id (o_identification referable) <> "" ->
   exists k, Key_from_referable KEY_ELEMENTS_CLASSES referable = Ret k /\
             Key_get_identifier k = Some (o_identification referable)) /\
  (isinstance referable Identifiable = true ->
   id (o_identification referable) = "" ->
   Key_from_referable KEY_ELEMENTS_CLASSES referable = Exc Key_value_empty) /\
  (isinstance referable Identifiable = false ->
   forall k, Key_from_referable KEY_ELEMENTS_CLASSES referable = Ret k ->
             Key_get_identifier k = None /\ key_value k = o_id_short referable).
Proof.
  unfold Key_from_referable, Key_init. split; [|split].
  - intros -> Hne. apply String.eqb_neq in Hne. rewrite Hne.
    destruct (o_identification referable) as [i t]. simpl.
    exists (mkKey (class_key_type KEY_ELEMENTS_CLASSES referable) i
                  (KeyType_of_IdentifierType t)).
    split.
    + destruct t, (class_key_type KEY_ELEMENTS_CLASSES referable); reflexivity.
    + destruct t; reflexivity.
  - intros -> ->. reflexivity.
  - intros -> k Hk.
    destruct (String.eqb (o_id_short referable) ""); [discriminate Hk|].
    destruct (class_key_type KEY_ELEMENTS_CLASSES referable); simpl in Hk;
      inversion Hk; auto.
Qed.

Lemma find_ext_in {A : Type} (f g : A -> bool) (l : list A) :
  (forall x, In x l -> f x = g x) -> find f l = find g l.
Proof.
  induction l as [|x l IH]; intros H; simpl; auto.
  rewrite (H x) by (simpl; auto). destruct (g x); auto.
  apply IH. intros; apply H; simpl; auto.
Qed.

(** The index [resolve] starts from is the key [get_identifier] reads. *)
Lemma last_identifier_index_first (keys : list Key) :
  match last_identifier_index keys with
  | Some i => i < length keys /\
              first_identifier (rev keys) = Key_get_identifier (nth i keys dummy_key) /\
              Key_get_identifier (nth i keys dummy_key) <> None
  | None => first_identifier (rev keys) = None
  end.
Proof.
  induction keys as [|k keys IH] using rev_ind; [reflexivity|].
  unfold last_identifier_index. rewrite length_app. simpl length.
  rewrite Nat.add_1_r, seq_S, rev_app_distr. cbn [rev app Nat.add find].
  rewrite rev_app_distr. cbn [rev app first_identifier].
  rewrite app_nth2, Nat.sub_diag by lia. cbn [nth].
  destruct (Key_get_identifier k) as [i|] eqn:Ek.
  - split; [lia|]. rewrite app_nth2, Nat.sub_diag by lia. cbn [nth].
    rewrite Ek. split; [reflexivity | discriminate].
  - rewrite (find_ext_in _ (fun i => match Key_get_identifier (nth i keys dummy_key) with
                                     | Some _ => true
                                     | None => false
                                     end)).
    + unfold last_identifier_index in IH.
      destruct (find _ (rev (seq 0 (length keys)))) as [i|] eqn:Ef; [|exact IH].
      destruct IH as (Hi & H1 & H2).
      rewrite app_nth1 by exact Hi. split; [lia | auto].
    + intros i Hi. apply in_rev, in_seq in Hi. now rewrite app_nth1 by lia.
Qed.

(** X3.  [resolve] and [get_identifier] read the same key.  Without a
    global key [get_identifier] raises its [ValueError] and [resolve] its
    [NotImplementedError]; with one, [resolve] asks the provider for the
    identifier that [get_identifier] returns: a miss is the [KeyError]
    carrying it, and no object is returned unless the provider knows it. *)
Theorem resolve_asks_for_get_identifier (self : AASReference)
        (provider_ : Identifier -> option oid) (h : Heap) :
  ref_key self <> [] ->
  (AASReference_get_identifier self = Exc No_global_key ->
   resolve self provider_ h = Exc Local_only_reference) /\
  (forall i, AASReference_get_identifier self = Ret i -> provider_ i = None ->
             resolve self provider_ h = Exc (Unresolved_global i)) /\
  (forall x, resolve self provider_ h = Ret x ->
             exists i root, AASReference_get_identifier self = Ret i /\
                            provider_ i = Some root).
Proof.
  intros Hne. unfold AASReference_get_identifier, resolve.
  destruct (ref_key self) as [|k0 keys] eqn:Ek; [congruence|].
  pose proof (last_identifier_index_first (k0 :: keys)) as Hl.
  destruct (last_identifier_index (k0 :: keys)) as [n|].
  - destruct Hl as (_ & -> & Hsome).
    destruct (Key_get_identifier (nth n (k0 :: keys) dummy_key)) as [i|]; [|congruence].
    split; [discriminate|]. split.
    + intros i' [= <-] ->. reflexivity.
    + intros x Hx. exists i. destruct (provider_ i) as [root|]; [eauto|discriminate Hx].
  - rewrite Hl. split; [reflexivity|]. split; [discriminate|]. discriminate.
Qed.

Lemma first_identifier_locals (locals : list Key) (rest : list Key) :
  (forall k, In k locals -> Key_get_identifier k = None) ->
  first_identifier (locals ++ rest) = first_identifier rest.
Proof.
  induction locals as [|k l IH]; intros H; simpl; auto.
  rewrite (H k) by (simpl; auto). apply IH. intros; apply H; simpl; auto.
Qed.

(** X4.  The reference [from_referable] builds for an element under an
    identifiable root names the root: its [get_identifier] is the
    identifier of the root, however long the chain below it. *)
Theorem from_referable_get_identifier
        (KEY_ELEMENTS_CLASSES : PyClass -> option KeyElements) (h : Heap)
        (root : oid) (below : list oid) (fuel : nat) :
  isinstance (objs h root) Identifiable = true ->
  id (o_identification (objs h root)) <> "" ->
  descends KEY_ELEMENTS_CLASSES h root below ->
  length below < fuel ->
  exists r,
    from_referable KEY_ELEMENTS_CLASSES fuel h (last below root) = Ret r /\
    AASReference_get_identifier r = Ret (o_identification (objs h root)) /\
    length (ref_key r) = S (length below).
Proof.
  intros Hi Hne Hd Hf. eexists. split; [|split].
  - unfold from_referable. apply from_referable_loop_chain; auto.
  - unfold AASReference_get_identifier. cbn [ref_key].
    rewrite app_nil_r. cbn [rev]. rewrite first_identifier_locals.
    + simpl. now rewrite Key_get_identifier_global.
    + intros k Hk. apply in_rev, in_map_iff in Hk.
      destruct Hk as (c & <- & _). reflexivity.
  - cbn [ref_key]. rewrite app_nil_r. simpl. now rewrite length_map.
Qed.

(* ================================================================== *)
(** * Backends and sources *)

Lemma scheme_rest_app (s : string) (rest : string) :
  forallb is_scheme_char (list_ascii_of_string s) = true ->
  scheme_rest (s ++ String ":" rest) = Some s.
Proof.
  induction s as [|c s IH]; intros H; simpl in *.
  - reflexivity.
  - apply andb_true_iff in H. destruct H as [Hc Hs].
    destruct (Nat.eqb (nat_of_ascii c) 58) eqn:E.
    + apply Nat.eqb_eq in E. unfold is_scheme_char, is_ascii_letter in Hc.
      rewrite E in Hc. discriminate Hc.
    + rewrite Hc, (IH Hs). reflexivity.
Qed.

Lemma scheme_rest_inv (url s : string) :
  scheme_rest url = Some s ->
  forallb is_scheme_char (list_ascii_of_string s) = true /\
  exists rest, url = (s ++ String ":" rest)%string.
Proof.
  revert s. induction url as [|c url IH]; intros s H; simpl in H; [discriminate|].
  destruct (Nat.eqb (nat_of_ascii c) 58) eqn:E.
  - injection H as <-. split; [reflexivity|].
    exists url. simpl. f_equal.
    apply Nat.eqb_eq in E. rewrite <- (ascii_nat_embedding c), E. reflexivity.
  - destruct (is_scheme_char c) eqn:Hc; [|discriminate].
    destruct (scheme_rest url) as [s'|]; [|discriminate].
    injection H as <-. destruct (IH s' eq_refl) as (Hs & rest & ->).
    split; [simpl; now rewrite Hc|]. exists rest. reflexivity.
Qed.

Lemma uri_scheme_of_valid (scheme rest : string) :
  valid_scheme scheme = true ->
  uri_scheme (scheme ++ String ":" rest) = Some scheme.
Proof.
  intros Hv. destruct scheme as [|c s]; [discriminate Hv|].
  simpl in Hv. apply andb_true_iff in Hv. destruct Hv as [Hc Hs].
  simpl. rewrite Hc, (scheme_rest_app s rest Hs). reflexivity.
Qed.

(** X5.  [RE_URI_SCHEME] finds the scheme [s] in a URL exactly when the
    URL is [s], a colon and anything, and [s] is a letter followed by
    letters, [+], [-] and [.]: a digit ends the scheme without a colon, so
    such a URL has none. *)
Theorem uri_scheme_spec (url scheme : string) :
  uri_scheme url = Some scheme <->
  valid_scheme scheme = true /\ exists rest, url = (scheme ++ String ":" rest)%string.
Proof.
  split.
  - destruct url as [|c url]; simpl; [discriminate|].
    destruct (is_ascii_letter c) eqn:Hc; [|discriminate].
    destruct (scheme_rest url) as [s|] eqn:Hs; [|discriminate].
    intros [= <-]. destruct (scheme_rest_inv url s Hs) as (H & rest & ->).
    split; [simpl; now rewrite Hc, H|]. exists rest. reflexivity.
  - intros (Hv & rest & ->). now apply uri_scheme_of_valid.
Qed.

(** X6.  After [register_backend(scheme, b)], [get_backend] answers
    every URL of that scheme with [b], whatever was registered for it
    before, and every URL of another scheme as before. *)
Theorem register_backend_get_backend (scheme : string) (backend_class : BackendImpl)
        (_backends_map : list (string * BackendImpl)) (rest : string) :
  valid_scheme scheme = true ->
  get_backend (register_backend scheme backend_class _backends_map)
              (scheme ++ String ":" rest) = Ret backend_class /\
  (forall url scheme', uri_scheme url = Some scheme' -> scheme' <> scheme ->
     get_backend (register_backend scheme backend_class _backends_map) url
     = get_backend _backends_map url) /\
  (forall url, uri_scheme url = None ->
     get_backend (register_backend scheme backend_class _backends_map) url
     = Exc (Not_a_url url)).
Proof.
  intros Hv. unfold get_backend, register_backend. split; [|split].
  - rewrite (uri_scheme_of_valid scheme rest Hv), assoc_set_same. reflexivity.
  - intros url scheme' -> Hne. now rewrite assoc_set_other.
  - intros url ->. reflexivity.
Qed.

(** X7.  [find_source] walks up the parents of an element.  When the
    first element on the way with a non-empty source is [s] (the element
    itself or an ancestor), it returns [s] and the short-names from [s]
    down to the element, the name of [s] itself first; when no element up
    to the root has a source it returns the pair of [None]s. *)
Theorem find_source_nearest (h : Heap) (x : oid) (ups : list oid) (fuel : nat) :
  parents h x ups ->
  length ups < fuel ->
  ((forall y, In y (removelast (x :: ups)) -> o_source (objs h y) = "") ->
   o_source (objs h (last ups x)) <> "" ->
   find_source fuel h x
   = Ret (Some (last ups x, rev (map (fun y => o_id_short (objs h y)) (x :: ups))))) /\
  ((forall y, In y (x :: ups) -> o_source (objs h y) = "") ->
   o_parent (objs h (last ups x)) = None ->
   find_source fuel h x = Ret None).
Proof.
  intros Hp Hf. unfold find_source. split.
  - intros Hs Hne. now rewrite (find_source_loop_found h ups x _ fuel Hp Hs Hne Hf).
  - intros Hs Hroot. now apply (find_source_loop_none h ups x _ fuel Hp Hs Hroot Hf).
Qed.

End KeysAndSources.

Section KeysAndSourcesExamples.

#[local] Existing Instance ascii_runtime.

Lemma Key_from_referable_get_identifier_witness :
  exists k, Key_from_referable example_KEY_ELEMENTS_CLASSES (objs store3 20) = Ret k /\
            Key_get_identifier k = Some submodel_id.
Proof.
  destruct (Key_from_referable_get_identifier example_KEY_ELEMENTS_CLASSES (objs store3 20))
    as (H & _).
  apply H; [reflexivity | discriminate].
Defined.

Lemma resolve_asks_for_get_identifier_witness :
  exists i root, AASReference_get_identifier reference3 = Ret i /\
                 provider3 i = Some root.
Proof.
  destruct (resolve_asks_for_get_identifier reference3 provider3 store3) as (_ & _ & H).
  - discriminate.
  - exact (H 22 eq_refl).
Defined.

Lemma from_referable_get_identifier_witness :
  exists r,
    from_referable example_KEY_ELEMENTS_CLASSES 3 store3 22 = Ret r /\
    AASReference_get_identifier r = Ret submodel_id /\
    length (ref_key r) = 3.
Proof.
  apply (from_referable_get_identifier example_KEY_ELEMENTS_CLASSES store3 20 [21; 22] 3).
  - reflexivity.
  - discriminate.
  - simpl. split; [exact store3_child_21|]. split; [exact store3_child_22|exact I].
  - simpl. lia.
Defined.

Lemma register_backend_get_backend_witness :
  get_backend (register_backend "couchdb+ssl" quiet_backend example_backends)
              "couchdb+ssl://localhost/db" = Ret quiet_backend.
Proof.
  apply (register_backend_get_backend "couchdb+ssl" quiet_backend example_backends
           "//localhost/db").
  reflexivity.
Defined.

Lemma find_source_nearest_witness :
  find_source 3 store4 33 = Ret (Some (32, ["e"; "c"])).
Proof.
  destruct (find_source_nearest store4 33 [32] 3) as (H & _).
  - simpl. auto.
  - simpl. lia.
  - apply H.
    + intros y [<-|[]]. reflexivity.
    + discriminate.
Defined.

End KeysAndSourcesExamples.

Section SetOperations.

Context {py : PyRuntime}.

(* ================================================================== *)
(** * Sets: entering, finding, leaving *)

Lemma index_insert_assoc (x : oid) (ox : Obj) (n : string) :
  forall (b b' : Backend) (d : pydict) (cs : bool),
  index_insert x ox b = (b', None) ->
  assoc n b = Some (d, cs) ->
  exists k, _get_attribute ox n cs = Some k /\
            assoc n b' = Some (dict_set k x d, cs).
Proof.
  induction b as [|[n0 [d0 cs0]] b IH]; intros b' d cs Hins Ha; simpl in *.
  - discriminate.
  - destruct (_get_attribute ox n0 cs0) as [k0|] eqn:Ek; [|discriminate].
    destruct (index_insert x ox b) as [r' e] eqn:Er.
    injection Hins as <- ->. simpl.
    destruct (String.eqb n0 n) eqn:En.
    + injection Ha as <- <-. apply String.eqb_eq in En. subst n0. eauto.
    + now apply (IH r').
Qed.

Lemma index_insert_head (x : oid) (ox : Obj) (n : string) (d : pydict) (cs : bool)
      (r b' : Backend) :
  index_insert x ox ((n, (d, cs)) :: r) = (b', None) ->
  exists k r', _get_attribute ox n cs = Some k /\
               index_insert x ox r = (r', None) /\
               b' = (n, (dict_set k x d, cs)) :: r'.
Proof.
  simpl. destruct (_get_attribute ox n cs) as [k|]; [|discriminate].
  destruct (index_insert x ox r) as [r' e]. intros [= <- ->]. eauto.
Qed.

(** What a successful [add] of any of the two classes leaves. *)
Lemma add_returned (self : sid) (x : oid) (h h' : Heap) :
  add self x h = (h', Ret tt) ->
  exists b,
    index_insert x (objs h x) (ns_backend (nsets h self)) = (b, None) /\
    ns_backend (nsets h' self) = b /\
    ns_parent (nsets h' self) = ns_parent (nsets h self) /\
    (forall s, s <> self -> nsets h' s = nsets h s) /\
    objs h' x = set_o_parent (Some (ns_parent (nsets h self))) (objs h x) /\
    (forall y, y <> x -> objs h' y = objs h y) /\
    sets_collision h (objs h x)
      (o_namespace_element_sets (objs h (ns_parent (nsets h self)))) = None.
Proof.
  intros Hrun. destruct (add_base self x h h' (Ret tt) Hrun)
    as (h1 & Hadd & Hobjs & Hback & Hpar & Hother & _).
  apply NamespaceSet_add_ok in Hadd. destruct Hadd as (Hcoll & b & Hins & ->).
  exists b. split; [exact Hins|].
  split; [rewrite Hback; simpl; now rewrite Nat.eqb_refl|].
  split; [rewrite Hpar; simpl; now rewrite Nat.eqb_refl|].
  split; [intros s Hs; rewrite (Hother s Hs); simpl;
          apply Nat.eqb_neq in Hs; now rewrite Hs|].
  split; [rewrite Hobjs; simpl; now rewrite Nat.eqb_refl|].
  split; [intros y Hy; rewrite Hobjs; simpl; apply Nat.eqb_neq in Hy; now rewrite Hy|].
  exact Hcoll.
Qed.

(** X8.  What is added is found.  After a successful [add] the value
    has the owner of the set as parent, [in] holds of it, and under every
    attribute the set tracks it has a value that [contains_id] knows and
    that [get_object_by_attribute] answers with the value itself when the
    index regards case or the value is a [str]; an index that disregards
    case answers every [str] with the same [upper()], and raises
    [AttributeError] on a value that is no [str], which has no [upper]. *)
Theorem add_then_lookup (self : sid) (x : oid) (h h' : Heap) :
  add self x h = (h', Ret tt) ->
  o_parent (objs h' x) = Some (ns_parent (nsets h self)) /\
  (ns_backend (nsets h self) <> [] ->
   NamespaceSet_contains (nsets h' self) x (objs h' x) = Ret true) /\
  forall n d cs, assoc n (ns_backend (nsets h self)) = Some (d, cs) ->
    exists a, getattr (objs h x) n = Some a /\
      contains_id (nsets h' self) n a = true /\
      (cs = true -> get_object_by_attribute (nsets h' self) n a = Ret x) /\
      (forall s s', a = VStr s -> (if cs then s' = s else upper s' = upper s) ->
         get_object_by_attribute (nsets h' self) n (VStr s') = Ret x) /\
      (cs = false -> (forall s, a <> VStr s) ->
         get_object_by_attribute (nsets h' self) n a = Exc (No_attribute "upper")).
Proof.
  intros Hrun.
  destruct (add_returned self x h h' Hrun) as (b & Hins & Hb & _ & _ & Hx & _ & _).
  split; [rewrite Hx; reflexivity|]. split.
  - intros Hne. unfold NamespaceSet_contains. rewrite Hb.
    destruct (ns_backend (nsets h self)) as [|[n [d cs]] r] eqn:Eb; [congruence|].
    destruct (index_insert_head x (objs h x) n d cs r b Hins) as (k & r' & Hk & _ & ->).
    rewrite Hx, _get_attribute_set_o_parent, Hk, dict_get_set_same, Nat.eqb_refl.
    reflexivity.
  - intros n d cs Ha.
    destruct (index_insert_assoc x (objs h x) n _ b d cs Hins Ha) as (k & Hk & Ha').
    unfold _get_attribute in Hk.
    destruct (getattr (objs h x) n) as [a|]; [|discriminate].
    injection Hk as <-. exists a. split; [reflexivity|].
    unfold contains_id, get_object_by_attribute. rewrite Hb, Ha'.
    split; [unfold dict_mem; now rewrite dict_get_set_same|]. split.
    + intros ->. simpl. destruct a; simpl; now rewrite dict_get_set_same.
    + split.
      * intros s s' -> Hs. destruct cs.
        -- subst s'. simpl. now rewrite dict_get_set_same.
        -- simpl. rewrite Hs. now rewrite dict_get_set_same.
      * intros -> Hns. destruct a as [|s| | |]; try reflexivity.
        now destruct (Hns s).
Qed.

Lemma dict_del_set_fresh (k : pyval) (x : oid) (d : pydict) :
  dict_mem k d = false -> dict_del k (dict_set k x d) = d.
Proof.
  unfold dict_mem. induction d as [|[k' v'] d IH]; simpl.
  - now rewrite pyval_eqb_refl.
  - destruct (pyval_eqb k' k) eqn:E; [discriminate|].
    intros H. simpl. rewrite E. now rewrite IH.
Qed.

(** Deleting from every index what [index_insert] entered under fresh
    keys gives the indexes back. *)
Lemma index_delete_insert (x : oid) (ox : Obj) : forall (b b' : Backend),
  (forall n a, ~ collides ox n a b) ->
  index_insert x ox b = (b', None) ->
  remove_check x ox b' false = Ret (match b with [] => false | _ => true end) /\
  (forall found, b <> [] -> remove_check x ox b' found = Ret true) /\
  index_delete ox b' = (b, None).
Proof.
  induction b as [|[n [d cs]] b IH]; intros b' Hfresh Hins.
  - simpl in Hins. injection Hins as <-. simpl. repeat split; congruence.
  - destruct (index_insert_head x ox n d cs b b' Hins) as (k & r' & Hk & Hr & ->).
    assert (Hfresh' : forall n a, ~ collides ox n a b).
    { intros n0 a0 (d0 & cs0 & Hin & H). apply (Hfresh n0 a0).
      exists d0, cs0. simpl. tauto. }
    destruct (IH r' Hfresh' Hr) as (Hc & Hc' & Hd).
    assert (Hmem : dict_mem k d = false).
    { destruct (dict_mem k d) eqn:Em; [|reflexivity]. exfalso.
      unfold _get_attribute in Hk. destruct (getattr ox n) as [a|] eqn:Ea; [|discriminate].
      injection Hk as <-. apply (Hfresh n a). exists d, cs. simpl. auto. }
    assert (Hall : forall found, remove_check x ox ((n, (dict_set k x d, cs)) :: r') found
                                 = Ret true).
    { intros found. cbn [remove_check]. rewrite Hk, dict_get_set_same, Nat.eqb_refl.
      rewrite orb_true_r. destruct b as [|e b].
      - simpl in Hr. injection Hr as <-. reflexivity.
      - apply Hc'. discriminate. }
    split; [apply Hall|]. split; [intros; apply Hall|].
    cbn [index_delete]. rewrite Hk. unfold dict_mem. rewrite dict_get_set_same.
    rewrite Hd. now rewrite dict_del_set_fresh.
Qed.

Lemma remove_check_set_o_parent (x : oid) (p : option oid) (o : Obj) (b : Backend) :
  forall found, remove_check x (set_o_parent p o) b found = remove_check x o b found.
Proof.
  induction b as [|[n [d cs]] b IH]; intros found; simpl; auto.
  rewrite _get_attribute_set_o_parent.
  destruct (_get_attribute o n cs); auto. destruct (dict_get p0 d); auto.
Qed.

(** X9.  [remove] undoes [add].  In a set that its owner lists, removing
    a value right after it was added succeeds and gives back the indexes
    the set had before, in their order; the value is without parent again
    and nothing else has changed. *)
Theorem add_then_remove_restores (self : sid) (x : oid) (h h1 : Heap) :
  attached h self ->
  ns_order (nsets h self) = None ->
  add self x h = (h1, Ret tt) ->
  exists h2,
    remove self x h1 = (h2, Ret tt) /\
    ns_backend (nsets h2 self) = ns_backend (nsets h self) /\
    (forall s, s <> self -> nsets h2 s = nsets h s) /\
    objs h2 x = set_o_parent None (objs h x) /\
    (forall y, y <> x -> objs h2 y = objs h y).
Proof.
  intros [Hlisted Hne] Hord Hrun.
  unfold add in Hrun. rewrite Hord in Hrun.
  apply NamespaceSet_add_ok in Hrun. destruct Hrun as (Hcoll & b & Hins & Hh1).
  assert (Hfresh : forall n a, ~ collides (objs h x) n a (ns_backend (nsets h self)))
    by (intros n a; apply (sets_collision_none _ _ _ self n a Hcoll Hlisted)).
  destruct (index_delete_insert x (objs h x) _ b Hfresh Hins) as (_ & Hchk & Hdel).
  assert (Hx1 : objs h1 x = set_o_parent (Some (ns_parent (nsets h self))) (objs h x))
    by (subst h1; simpl; now rewrite Nat.eqb_refl).
  assert (Hs1 : nsets h1 self = set_ns_backend b (nsets h self))
    by (subst h1; simpl; now rewrite Nat.eqb_refl).
  assert (Hrem : NamespaceSet_remove self x h1
                 = (upd_set (upd_obj h1 x (set_o_parent None (objs h1 x))) self
                      (set_ns_backend (ns_backend (nsets h self)) (nsets h1 self)),
                    Ret tt)).
  { unfold NamespaceSet_remove. cbn [nsets upd_obj].
    rewrite Hs1. cbn [ns_backend set_ns_backend]. rewrite Hx1.
    rewrite remove_check_set_o_parent, (Hchk false Hne).
    rewrite objs_upd_obj_same, !index_delete_set_o_parent, Hdel. reflexivity. }
  eexists. split.
  - unfold remove.
    replace (ns_order (nsets h1 self)) with (@None (list oid))
      by (rewrite Hs1; simpl; now rewrite Hord).
    exact Hrem.
  - rewrite Hx1. subst h1. simpl. rewrite !Nat.eqb_refl. simpl.
    split; [reflexivity|]. split.
    + intros s Hs. apply Nat.eqb_neq in Hs. now rewrite Hs.
    + split; [reflexivity|]. intros y Hy. apply Nat.eqb_neq in Hy. now rewrite Hy.
Qed.

Lemma remove_check_non_member (x : oid) (ox : Obj) : forall (b : Backend),
  (forall n d cs k, In (n, (d, cs)) b -> _get_attribute ox n cs = Some k ->
                    dict_get k d <> Some x) ->
  remove_check x ox b false = Ret false \/
  exists e, remove_check x ox b false = Exc e /\
            (is_KeyError e = true \/ exists n, e = No_attribute n).
Proof.
  induction b as [|[n [d cs]] b IH]; intros H; [left; reflexivity|].
  cbn [remove_check].
  destruct (_get_attribute ox n cs) as [k|] eqn:Ek; [|right; eauto].
  destruct (dict_get k d) as [y|] eqn:Ed; [|right; eexists; split; [reflexivity|auto]].
  assert (Hy : Nat.eqb y x = false).
  { apply Nat.eqb_neq. intros ->. apply (H n d cs k); simpl; auto. }
  rewrite Hy. simpl. apply IH. intros n' d' cs' k' Hin. apply H. simpl. auto.
Qed.

(** X10.  Only the object itself is removed.  When no index of the set
    holds [x] under the key of [x] (another object of the same name may
    be there), [remove] raises, a [KeyError] unless [x] lacks a tracked
    attribute, and [discard] returns; neither changes anything. *)
Theorem remove_spares_namesakes (self : sid) (x : oid) (h : Heap) :
  ns_backend (nsets h self) <> [] ->
  (forall n d cs k, In (n, (d, cs)) (ns_backend (nsets h self)) ->
     _get_attribute (objs h x) n cs = Some k -> dict_get k d <> Some x) ->
  (exists e, remove self x h = (h, Exc e) /\
             (is_KeyError e = true \/ exists n, e = No_attribute n)) /\
  discard self x h = (h, Ret tt).
Proof.
  intros Hne Hout. split.
  - assert (Hbase : exists e, NamespaceSet_remove self x h = (h, Exc e) /\
                              (is_KeyError e = true \/ exists n, e = No_attribute n)).
    { unfold NamespaceSet_remove.
      destruct (remove_check_non_member x (objs h x) _ Hout) as [->|(e & -> & He)].
      - exists Not_in_NamespaceDict. auto.
      - eauto. }
    destruct Hbase as (e & Hrun & He). exists e. split; [|exact He].
    unfold remove, OrderedNamespaceSet_remove, bind. rewrite Hrun.
    now destruct (ns_order (nsets h self)).
  - unfold discard, NamespaceSet_contains.
    destruct (ns_backend (nsets h self)) as [|[n [d cs]] r] eqn:Eb; [congruence|].
    destruct (_get_attribute (objs h x) n cs) as [k|] eqn:Ek; [|reflexivity].
    destruct (dict_get k d) as [y|] eqn:Ed; [|reflexivity].
    assert (Hy : Nat.eqb y x = false).
    { apply Nat.eqb_neq. intros ->. apply (Hout n d cs k); simpl; auto. }
    now rewrite Hy.
Qed.

(** X11.  [get] is [get_object_by_attribute] with a default: it answers
    with the same object, answers [None] where the other raises the
    [KeyError] of a missing key, and raises like the other for an
    attribute the set does not track or a value without [upper]. *)
Theorem NamespaceSet_get_default (S : NSet) (attribute_name : string)
        (attribute_value : pyval) :
  (forall x, get_object_by_attribute S attribute_name attribute_value = Ret x <->
             NamespaceSet_get S attribute_name attribute_value = Ret (Some x)) /\
  ((exists k, get_object_by_attribute S attribute_name attribute_value
              = Exc (Dict_KeyError k)) <->
   NamespaceSet_get S attribute_name attribute_value = Ret None) /\
  (assoc attribute_name (ns_backend S) = None ->
   NamespaceSet_get S attribute_name attribute_value
   = Exc (Backend_KeyError attribute_name)).
Proof.
  unfold get_object_by_attribute, NamespaceSet_get.
  destruct (assoc attribute_name (ns_backend S)) as [[d cs]|].
  - destruct cs.
    + destruct (dict_get attribute_value d) as [y|]; repeat split;
        try (intros H; inversion H; reflexivity); try discriminate; eauto;
        intros [k H]; discriminate H.
    + destruct attribute_value as [|s| | |];
        try (repeat split; try discriminate; intros [k H]; discriminate H).
      destruct (dict_get (VStr (upper s)) d) as [y|]; repeat split;
        try (intros H; inversion H; reflexivity); try discriminate; eauto;
        intros [k H]; discriminate H.
  - repeat split; try discriminate. intros [k H]. discriminate H.
Qed.

(** ** Construction *)

Lemma add_order (self : sid) (x : oid) (h h' : Heap) :
  add self x h = (h', Ret tt) ->
  ns_order (nsets h' self) = option_map (fun l => l ++ [x])%list (ns_order (nsets h self)).
Proof.
  unfold add. destruct (ns_order (nsets h self)) as [l|] eqn:Eo.
  - rewrite OrderedNamespaceSet_add_unfold.
    destruct (NamespaceSet_add self x h) as [h1 [[]|e|]] eqn:Hadd; try discriminate.
    intros [= <-]. simpl. rewrite Nat.eqb_refl. simpl.
    apply NamespaceSet_add_ok in Hadd. destruct Hadd as (_ & b & _ & ->).
    unfold order_of. simpl. rewrite Nat.eqb_refl. simpl. now rewrite Eo.
  - intros Hadd. apply NamespaceSet_add_ok in Hadd. destruct Hadd as (_ & b & _ & ->).
    simpl. rewrite Nat.eqb_refl. simpl. exact Eo.
Qed.

(** One successful [add] to a set its owner lists: the value was not in
    the set, and it comes last in the iteration. *)
Lemma add_iter (self : sid) (x : oid) (h h' : Heap) (l : list oid) :
  attached h self ->
  add self x h = (h', Ret tt) ->
  iter_set (nsets h self) = Ret l ->
  iter_set (nsets h' self) = Ret (l ++ [x])%list.
Proof.
  intros [Hlisted Hne] Hrun Hiter.
  pose proof (add_order self x h h' Hrun) as Hord.
  destruct (add_returned self x h h' Hrun) as (b & Hins & Hb & _ & _ & _ & _ & Hcoll).
  unfold iter_set in *. rewrite Hord.
  destruct (ns_order (nsets h self)) as [o|]; simpl.
  - now injection Hiter as <-.
  - unfold NamespaceSet_iter in *. rewrite Hb.
    destruct (ns_backend (nsets h self)) as [|[n [d cs]] r] eqn:Eb; [congruence|].
    injection Hiter as <-.
    destruct (index_insert_head x (objs h x) n d cs r b Hins) as (k & r' & Hk & _ & ->).
    rewrite dict_set_fresh.
    + unfold dict_values. rewrite map_app. reflexivity.
    + destruct (dict_mem k d) eqn:Em; [|reflexivity]. exfalso.
      unfold _get_attribute in Hk.
      destruct (getattr (objs h x) n) as [a|] eqn:Ea; [|discriminate].
      injection Hk as <-.
      apply (sets_collision_none _ _ _ self n a Hcoll Hlisted).
      exists d, cs. rewrite Eb. simpl. auto.
Qed.

Lemma properly_indexed_same (h h' : Heap) (self : sid) (y : oid) :
  objs h' y = objs h y ->
  ns_backend (nsets h' self) = ns_backend (nsets h self) ->
  properly_indexed h self y -> properly_indexed h' self y.
Proof.
  intros Ho Hb H n d cs Hin. rewrite Hb in Hin. rewrite Ho. now apply H.
Qed.

(** One successful [add] of either class, in terms of the members. *)
Lemma add_members (self : sid) (x : oid) (h h' : Heap) :
  attached h self ->
  add self x h = (h', Ret tt) ->
  attached h' self /\
  ns_parent (nsets h' self) = ns_parent (nsets h self) /\
  properly_indexed h' self x /\
  ~ properly_indexed h self x /\
  (forall y, properly_indexed h self y -> properly_indexed h' self y) /\
  o_parent (objs h' x) = Some (ns_parent (nsets h self)) /\
  (forall y, y <> x -> objs h' y = objs h y).
Proof.
  intros [Hlisted Hne] Hrun.
  destruct (add_returned self x h h' Hrun) as (b & _ & _ & _ & _ & Hx & Hy & _).
  destruct (add_base self x h h' (Ret tt) Hrun)
    as (h1 & Hadd & Hobjs & Hback & Hpar & _ & _).
  destruct (add_keeps_indexed self x h h1 Hlisted Hadd)
    as (Hix & Hkeep & Hnot & _ & Hp1 & Hne1 & Hsets).
  split; [|split; [|split; [|split; [|split; [|split]]]]].
  - split.
    + rewrite Hpar, Hp1, Hobjs, Hsets. exact Hlisted.
    + rewrite Hback. now apply Hne1.
  - now rewrite Hpar.
  - apply (properly_indexed_same h1 h'); [now rewrite Hobjs | apply Hback | exact Hix].
  - now apply Hnot.
  - intros y Hyy.
    apply (properly_indexed_same h1 h'); [now rewrite Hobjs | apply Hback | auto].
  - rewrite Hx. reflexivity.
  - exact Hy.
Qed.

Lemma for_each_add_inv (self : sid) : forall (l : list oid) (h h' : Heap) (l0 : list oid),
  attached h self ->
  for_each l (add self) h = (h', Ret tt) ->
  iter_set (nsets h self) = Ret l0 ->
  attached h' self /\
  ns_parent (nsets h' self) = ns_parent (nsets h self) /\
  NoDup l /\
  (forall y, In y l -> ~ properly_indexed h self y) /\
  (forall y, In y l ->
     properly_indexed h' self y /\
     o_parent (objs h' y) = Some (ns_parent (nsets h self))) /\
  (forall y, properly_indexed h self y -> properly_indexed h' self y) /\
  (forall y, ~ In y l -> objs h' y = objs h y) /\
  iter_set (nsets h' self) = Ret (l0 ++ l)%list.
Proof.
  induction l as [|x l IH]; intros h h' l0 Hatt Hrun Hiter.
  - inversion Hrun. subst h'. rewrite app_nil_r.
    split; [exact Hatt|]. split; [reflexivity|]. split; [apply NoDup_nil|].
    split; [intros y []|]. split; [intros y []|]. auto.
  - cbn [for_each] in Hrun. unfold bind in Hrun.
    destruct (add self x h) as [h1 [[]|e|]] eqn:Hadd; try discriminate Hrun.
    destruct (add_members self x h h1 Hatt Hadd)
      as (Hatt1 & Hp1 & Hix & Hnot & Hkeep & Hpx & Hother).
    pose proof (add_iter self x h h1 l0 Hatt Hadd Hiter) as Hiter1.
    destruct (IH h1 h' _ Hatt1 Hrun Hiter1)
      as (Hatt' & Hp' & Hnd & Hnew & Hin' & Hkeep' & Hother' & Hiter').
    assert (Hxl : ~ In x l) by (intros Hx; now apply (Hnew x Hx)).
    split; [exact Hatt'|]. split; [congruence|].
    split; [constructor; assumption|].
    split; [|split; [|split; [|split]]].
    + intros y [<-|Hy]; [exact Hnot|].
      intros Hc. apply (Hnew y Hy). now apply Hkeep.
    + intros y [<-|Hy].
      * split; [now apply Hkeep'|]. rewrite Hother' by exact Hxl. exact Hpx.
      * destruct (Hin' y Hy) as [H1 H2]. split; [exact H1|]. now rewrite H2, Hp1.
    + intros y Hy. now apply Hkeep', Hkeep.
    + intros y Hy. simpl in Hy. rewrite Hother' by tauto. apply Hother. intros ->. tauto.
    + rewrite Hiter'. now rewrite <- app_assoc.
Qed.

Lemma assoc_set_empty (n : string) (cs : bool) : forall (b : Backend),
  (forall e, In e b -> fst (snd e) = []) ->
  forall e, In e (assoc_set n ([], cs) b) -> fst (snd e) = [].
Proof.
  induction b as [|[n' v'] b IHb]; intros Hb e He; simpl in He.
  - destruct He as [<-|[]]. reflexivity.
  - destruct (String.eqb n' n); destruct He as [<-|He]; simpl.
    + reflexivity.
    + apply Hb. simpl. auto.
    + apply (Hb (n', v')). simpl. auto.
    + apply IHb; [|exact He]. intros e' He'. apply Hb. simpl. auto.
Qed.

Lemma init_backend_empty (names : list (string * bool)) : forall (b : Backend),
  (forall e, In e b -> fst (snd e) = []) ->
  forall e, In e (init_backend names b) -> fst (snd e) = [].
Proof.
  induction names as [|[n cs] names IH]; intros b Hb e He; simpl in He; [auto|].
  apply (IH (assoc_set n ([], cs) b)); [|exact He].
  now apply assoc_set_empty.
Qed.

(** X12.  A construction that returns took every item once.  When
    [NamespaceSet(parent, attribute_names, items)] returns, with at least
    one attribute name, the items are pairwise different objects, each is
    in every index of the new set with [parent] as its parent, the parent
    lists the set, and iterating the set gives the items in the order
    they were passed, for both classes of set. *)
Theorem NamespaceSet_init_returned (self : sid) (ordered : bool) (parent : oid)
        (attribute_names : list (string * bool)) (items : list oid) (h h' : Heap) :
  attribute_names <> [] ->
  NamespaceSet_init self ordered parent attribute_names items h = (h', Ret tt) ->
  NoDup items /\
  In self (o_namespace_element_sets (objs h' parent)) /\
  ns_parent (nsets h' self) = parent /\
  (forall y, In y items ->
     properly_indexed h' self y /\ o_parent (objs h' y) = Some parent) /\
  iter_set (nsets h' self) = Ret items.
Proof.
  intros Hnames Hrun. unfold NamespaceSet_init, bind, modify in Hrun.
  set (h0 := NamespaceSet_register self ordered parent attribute_names h) in *.
  unfold try_cleanup in Hrun.
  destruct (for_each items (add self) h0) as [h1 [[]|e|]] eqn:Hadds.
  - injection Hrun as <-.
    assert (Hs0 : nsets h0 self
                  = mkNSet parent (init_backend attribute_names [])
                           (if ordered then Some [] else None))
      by (unfold h0, NamespaceSet_register; simpl; now rewrite Nat.eqb_refl).
    assert (Hatt0 : attached h0 self).
    { split.
      - rewrite Hs0. simpl. unfold h0, NamespaceSet_register. simpl.
        rewrite Nat.eqb_refl. simpl. apply in_or_app. right. simpl. auto.
      - rewrite Hs0. simpl. apply init_backend_not_nil. auto. }
    assert (Hiter0 : iter_set (nsets h0 self) = Ret []).
    { rewrite Hs0. unfold iter_set. simpl. destruct ordered; [reflexivity|].
      unfold NamespaceSet_iter. simpl.
      destruct (init_backend attribute_names []) as [|[n [d cs]] r] eqn:Eb.
      - exfalso. apply (init_backend_not_nil attribute_names []); auto.
      - assert (Hd : fst (snd (n, (d, cs))) = []).
        { apply (init_backend_empty attribute_names []); [intros e []|].
          rewrite Eb. simpl. auto. }
        simpl in Hd. now subst d. }
    destruct (for_each_add_inv self items h0 h1 [] Hatt0 Hadds Hiter0)
      as (Hatt' & Hp' & Hnd & _ & Hin' & _ & _ & Hiter').
    assert (Hpar : ns_parent (nsets h1 self) = parent)
      by (rewrite Hp', Hs0; reflexivity).
    split; [exact Hnd|]. split; [rewrite <- Hpar; apply Hatt'|].
    split; [exact Hpar|]. split; [|exact Hiter'].
    intros y Hy. destruct (Hin' y Hy) as [H1 H2]. split; [exact H1|].
    rewrite H2, Hs0. reflexivity.
  - destruct (clear self h1) as [h2 [[]|e'|]]; discriminate Hrun.
  - discriminate Hrun.
Qed.

(** ** Taking out of a set *)

(** A member that every index holds can be removed. *)
Lemma remove_check_member (x : oid) (ox : Obj) : forall (b : Backend) (found : bool),
  (forall n d cs, In (n, (d, cs)) b ->
     exists k, _get_attribute ox n cs = Some k /\ dict_get k d = Some x) ->
  remove_check x ox b found = Ret (match b with [] => found | _ => true end).
Proof.
  induction b as [|[n [d cs]] b IH]; intros found H; [reflexivity|].
  cbn [remove_check].
  destruct (H n d cs) as (k & Hk & Hd); [simpl; auto|].
  rewrite Hk, Hd, Nat.eqb_refl, orb_true_r.
  rewrite IH by (intros n' d' cs' Hin; apply H; simpl; auto).
  now destruct b.
Qed.

Lemma index_delete_member (x : oid) (ox : Obj) : forall (b : Backend),
  (forall n d cs, In (n, (d, cs)) b ->
     exists k, _get_attribute ox n cs = Some k /\ dict_get k d = Some x) ->
  exists b', index_delete ox b = (b', None).
Proof.
  induction b as [|[n [d cs]] b IH]; intros H; [exists []; reflexivity|].
  cbn [index_delete].
  destruct (H n d cs) as (k & Hk & Hd); [simpl; auto|].
  rewrite Hk. unfold dict_mem. rewrite Hd.
  destruct IH as (b' & ->); [intros n' d' cs' Hin; apply H; simpl; auto|].
  eauto.
Qed.

Lemma NamespaceSet_remove_member (self : sid) (x : oid) (h : Heap) :
  ns_backend (nsets h self) <> [] ->
  properly_indexed h self x ->
  exists h', NamespaceSet_remove self x h = (h', Ret tt).
Proof.
  intros Hne Hix. unfold NamespaceSet_remove.
  rewrite (remove_check_member x (objs h x) _ false Hix).
  destruct (ns_backend (nsets h self)) as [|e b] eqn:Eb; [congruence|].
  cbn [nsets upd_obj]. rewrite objs_upd_obj_same, index_delete_set_o_parent, Eb.
  destruct (index_delete_member x (objs h x) (e :: b)) as (b' & ->).
  - intros n d cs Hin. apply Hix. now rewrite Eb.
  - eauto.
Qed.

Lemma NoDup_without (l : list oid) (n : nat) (x : oid) :
  NoDup l -> nth_error l n = Some x ->
  NoDup (firstn n l ++ skipn (S n) l) /\
  ~ In x (firstn n l ++ skipn (S n) l) /\
  (forall y, In y (firstn n l ++ skipn (S n) l) -> In y l).
Proof.
  intros Hnd Hn. pose proof (split_at l n x Hn) as Hl.
  rewrite Hl in Hnd. split; [|split].
  - now apply NoDup_remove_1 in Hnd.
  - now apply NoDup_remove_2 in Hnd.
  - intros y Hy. rewrite Hl. apply in_app_or in Hy. apply in_or_app. simpl. tauto.
Qed.

(** X13.  [pop(i)] on an ordered set in its regular state.  With an
    index inside the sequence it returns the element there, which leaves
    the order and the indexes and loses its parent, while the set stays
    in its regular state; with an index outside it raises [IndexError]
    and changes nothing. *)
Theorem OrderedNamespaceSet_pop_at (self : sid) (i : Z) (h : Heap) :
  ordered_inv h self ->
  unique_keys h self ->
  match list_getitem (order_of (nsets h self)) i with
  | Some x =>
      exists h' l',
        OrderedNamespaceSet_pop self (Some i) h = (h', Ret x) /\
        list_delitem (order_of (nsets h self)) i = Some l' /\
        order_of (nsets h' self) = l' /\
        ~ In x l' /\
        o_parent (objs h' x) = None /\
        NamespaceSet_contains (nsets h' self) x (objs h' x) = Ret false /\
        ordered_inv h' self
  | None => OrderedNamespaceSet_pop self (Some i) h = (h, Exc List_IndexError)
  end.
Proof.
  intros (Hord & Hlisted & Hne & Hnd & Hix) Huniq.
  unfold OrderedNamespaceSet_pop, bind, get_heap, list_pop, list_getitem, list_delitem.
  destruct (norm_index (length (order_of (nsets h self))) i) as [n|]; [|reflexivity].
  destruct (nth_error (order_of (nsets h self)) n) as [x|] eqn:En; [|reflexivity].
  destruct (NoDup_without _ n x Hnd En) as (Hnd' & Hout & Hsub).
  set (l' := (firstn n (order_of (nsets h self)) ++ skipn (S n) (order_of (nsets h self)))%list)
    in *.
  unfold set_order, modify.
  set (h1 := upd_set h self (set_ns_order (Some l') (nsets h self))).
  assert (Hx : In x (order_of (nsets h self))) by (eapply nth_error_In; eauto).
  assert (Hix1 : forall y, properly_indexed h self y -> properly_indexed h1 self y).
  { intros y Hy. apply (properly_indexed_same h h1); auto.
    unfold h1. simpl. now rewrite Nat.eqb_refl. }
  assert (Hne1 : ns_backend (nsets h1 self) <> [])
    by (unfold h1; simpl; now rewrite Nat.eqb_refl).
  destruct (NamespaceSet_remove_member self x h1 Hne1 (Hix1 x (Hix x Hx))) as (h2 & Hrem).
  rewrite Hrem.
  destruct (remove_keeps_indexed self x h1 h2 (Hix1 x (Hix x Hx)) Hrem)
    as (Hkeep & Hord2 & Hpar2 & Hne2 & Hsets2).
  assert (Horder2 : order_of (nsets h2 self) = l').
  { unfold order_of. rewrite Hord2. unfold h1. simpl. now rewrite Nat.eqb_refl. }
  apply NamespaceSet_remove_ok in Hrem. destruct Hrem as (b & Hdel & Hh2).
  exists h2, l'. split; [reflexivity|]. split; [reflexivity|].
  split; [exact Horder2|]. split; [exact Hout|].
  split; [rewrite Hh2; simpl; now rewrite Nat.eqb_refl|]. split.
  - (* the first index no longer answers with [x] *)
    unfold NamespaceSet_contains. rewrite Hh2. simpl. rewrite !Nat.eqb_refl. simpl.
    assert (Hb1 : ns_backend (nsets h1 self) = ns_backend (nsets h self))
      by (unfold h1; simpl; now rewrite Nat.eqb_refl).
    rewrite Hb1 in Hdel.
    destruct (ns_backend (nsets h self)) as [|[n0 [d0 cs0]] r0] eqn:Eb; [congruence|].
    cbn [index_delete] in Hdel.
    destruct (_get_attribute (objs h1 x) n0 cs0) as [k|] eqn:Ek; [|discriminate].
    destruct (dict_mem k d0); [|discriminate].
    destruct (index_delete (objs h1 x) r0) as [r' e']. injection Hdel as <- ->.
    assert (Ek' : _get_attribute (objs h x) n0 cs0 = Some k) by exact Ek.
    rewrite _get_attribute_set_o_parent, Ek'. rewrite dict_get_del_same; [reflexivity|].
    apply (Huniq n0 d0 cs0). rewrite Eb. simpl. auto.
  - split; [rewrite Hord2; unfold h1; simpl; rewrite Nat.eqb_refl; discriminate|].
    split.
    + rewrite Hpar2, Hsets2. unfold h1. simpl. rewrite Nat.eqb_refl. exact Hlisted.
    + split; [now apply Hne2|]. split; [now rewrite Horder2|].
      rewrite Horder2. intros y Hy. apply Hkeep.
      * intros ->. contradiction.
      * apply Hix1, Hix, Hsub, Hy.
Qed.

Lemma dict_popitem_last (d : pydict) (e : pyval * oid) :
  dict_popitem (d ++ [e])%list = Some (d, e).
Proof.
  unfold dict_popitem. rewrite rev_app_distr. simpl. now rewrite rev_involutive.
Qed.

(** X14.  [pop] takes back the last [add].  After a successful [add] to
    a plain set that its owner lists, [pop] returns the value added, which
    is without parent again; the first index is as it was before the
    [add], while the further indexes, which [pop] does not touch, are
    those the [add] left. *)
Theorem add_then_pop (self : sid) (x : oid) (h h1 : Heap)
        (n : string) (d : pydict) (cs : bool) (r : Backend) :
  attached h self ->
  ns_order (nsets h self) = None ->
  ns_backend (nsets h self) = (n, (d, cs)) :: r ->
  add self x h = (h1, Ret tt) ->
  exists h2 r',
    NamespaceSet_pop self h1 = (h2, Ret x) /\
    o_parent (objs h2 x) = None /\
    index_insert x (objs h x) r = (r', None) /\
    ns_backend (nsets h2 self) = (n, (d, cs)) :: r' /\
    (forall y, y <> x -> objs h2 y = objs h y).
Proof.
  intros [Hlisted Hne] Hord Hb Hrun.
  destruct (add_returned self x h h1 Hrun) as (b & Hins & Hb1 & _ & _ & Hx1 & Hy1 & Hcoll).
  rewrite Hb in Hins.
  destruct (index_insert_head x (objs h x) n d cs r b Hins) as (k & r' & Hk & Hr & ->).
  assert (Hfresh : dict_mem k d = false).
  { destruct (dict_mem k d) eqn:Em; [|reflexivity]. exfalso.
    unfold _get_attribute in Hk.
    destruct (getattr (objs h x) n) as [a|] eqn:Ea; [|discriminate].
    injection Hk as <-.
    apply (sets_collision_none _ _ _ self n a Hcoll Hlisted).
    exists d, cs. rewrite Hb. simpl. auto. }
  rewrite (dict_set_fresh k x d Hfresh) in Hb1.
  unfold NamespaceSet_pop. rewrite Hb1, dict_popitem_last.
  eexists. exists r'. split; [reflexivity|].
  simpl. rewrite !Nat.eqb_refl. simpl.
  split; [reflexivity|]. split; [exact Hr|]. split; [reflexivity|].
  intros y Hy. pose proof (Hy1 y Hy) as H. apply Nat.eqb_neq in Hy. now rewrite Hy.
Qed.

(** X15.  An element of an ordered set cannot be replaced by a namesake.
    [s[i] = o] adds [o] before it removes the element at [i], so when [o]
    has, under an attribute the set tracks, the folded value of a member,
    be it the very element to be replaced, the assignment raises the
    [KeyError] of [add] and nothing has changed. *)
Theorem setitem_namesake_collides (self : sid) (i : Z) (o old member : oid) (h : Heap)
        (n : string) (d : pydict) (cs : bool) (a a' : pyval) :
  ordered_inv h self ->
  list_getitem (order_of (nsets h self)) i = Some old ->
  In member (order_of (nsets h self)) ->
  In (n, (d, cs)) (ns_backend (nsets h self)) ->
  getattr (objs h member) n = Some a ->
  getattr (objs h o) n = Some a' ->
  fold_case cs a' = fold_case cs a ->
  exists n' v t,
    OrderedNamespaceSet_setitem self i o h = (h, Exc (Collision n' v t)).
Proof.
  intros (_ & Hlisted & _ & _ & Hix) Hold Hm Hin Ha Ha' Hfold.
  unfold OrderedNamespaceSet_setitem, bind, get_heap. rewrite Hold.
  destruct (Hix member Hm n d cs Hin) as (k & Hk & Hd).
  unfold _get_attribute in Hk. rewrite Ha in Hk. injection Hk as <-.
  assert (Hc : collides (objs h o) n a' (ns_backend (nsets h self))).
  { exists d, cs. split; [exact Hin|]. split; [exact Ha'|].
    unfold dict_mem. now rewrite Hfold, Hd. }
  destruct (sets_collision_complete h (objs h o) _ self n a' Hlisted Hc)
    as (s' & n' & v & Hs).
  unfold NamespaceSet_add. rewrite Hs. eauto.
Qed.

Lemma clear_parents_objs (l : list oid) : forall (h : Heap) (y : oid),
  (In y l -> objs (clear_parents l h) y = set_o_parent None (objs h y)) /\
  (~ In y l -> objs (clear_parents l h) y = objs h y).
Proof.
  induction l as [|x l IH]; intros h y; [simpl; tauto|].
  change (clear_parents (x :: l) h)
    with (clear_parents l (upd_obj h x (set_o_parent None (objs h x)))).
  destruct (IH (upd_obj h x (set_o_parent None (objs h x))) y) as [Hin Hout].
  destruct (Nat.eq_dec y x) as [->|Hne].
  - split; [|simpl; tauto]. intros _.
    destruct (in_dec Nat.eq_dec x l) as [Hx|Hx].
    + rewrite (Hin Hx). now rewrite objs_upd_obj_same.
    + rewrite (Hout Hx). now rewrite objs_upd_obj_same.
  - split.
    + intros [->|Hy]; [congruence|]. rewrite (Hin Hy). now rewrite objs_upd_obj_other.
    + intros Hy. rewrite Hout by (simpl in Hy; tauto). now rewrite objs_upd_obj_other.
Qed.

Lemma backend_cleared_lookup (b : Backend) (n : string) (a : pyval) :
  match assoc n (backend_cleared b) with
  | Some (backend, case_sensitive) => dict_mem (fold_case case_sensitive a) backend
  | None => false
  end = false.
Proof.
  induction b as [|[n0 [d0 cs0]] b IHb]; [reflexivity|].
  simpl. destruct (String.eqb n0 n); [reflexivity | exact IHb].
Qed.

(** X16.  [clear] always returns and empties the set and nothing else:
    every index is empty but still there, so no identifier is contained
    and the iteration is empty; every object the indexes held has lost
    its parent and is otherwise as before; all other objects and all other
    sets are untouched, and the owner still lists the set. *)
Theorem clear_empties (self : sid) (h : Heap) :
  exists h1,
    clear self h = (h1, Ret tt) /\
    get_attribute_name_list (nsets h1 self) = get_attribute_name_list (nsets h self) /\
    (forall n a, contains_id (nsets h1 self) n a = false) /\
    (ns_backend (nsets h self) <> [] -> iter_set (nsets h1 self) = Ret []) /\
    ns_parent (nsets h1 self) = ns_parent (nsets h self) /\
    (forall s, s <> self -> nsets h1 s = nsets h s) /\
    (forall y, In y (backend_values (ns_backend (nsets h self))) ->
       objs h1 y = set_o_parent None (objs h y)) /\
    (forall y, ~ In y (backend_values (ns_backend (nsets h self))) ->
       objs h1 y = objs h y).
Proof.
  assert (Hbase : forall h0,
    ns_backend (nsets (fst (NamespaceSet_clear self h0)) self)
      = backend_cleared (ns_backend (nsets h0 self)) /\
    ns_order (nsets (fst (NamespaceSet_clear self h0)) self) = ns_order (nsets h0 self) /\
    ns_parent (nsets (fst (NamespaceSet_clear self h0)) self) = ns_parent (nsets h0 self) /\
    (forall s, s <> self -> nsets (fst (NamespaceSet_clear self h0)) s = nsets h0 s) /\
    (forall y, In y (backend_values (ns_backend (nsets h0 self))) ->
       objs (fst (NamespaceSet_clear self h0)) y = set_o_parent None (objs h0 y)) /\
    (forall y, ~ In y (backend_values (ns_backend (nsets h0 self))) ->
       objs (fst (NamespaceSet_clear self h0)) y = objs h0 y)).
  { intros h0. unfold NamespaceSet_clear, modify. simpl.
    rewrite Nat.eqb_refl, clear_parents_nsets. simpl.
    split; [reflexivity|]. split; [reflexivity|]. split; [reflexivity|]. split.
    - intros s Hs. apply Nat.eqb_neq in Hs. now rewrite Hs.
    - split; intros y; apply clear_parents_objs. }
  assert (Hrun : exists h1, clear self h = (h1, Ret tt) /\
            ns_backend (nsets h1 self) = backend_cleared (ns_backend (nsets h self)) /\
            (ns_order (nsets h1 self) <> None -> ns_order (nsets h1 self) = Some []) /\
            ns_parent (nsets h1 self) = ns_parent (nsets h self) /\
            (forall s, s <> self -> nsets h1 s = nsets h s) /\
            (forall y, In y (backend_values (ns_backend (nsets h self))) ->
               objs h1 y = set_o_parent None (objs h y)) /\
            (forall y, ~ In y (backend_values (ns_backend (nsets h self))) ->
               objs h1 y = objs h y)).
  { destruct (Hbase h) as (H1 & H2 & H3 & H4 & H5 & H6).
    unfold clear. destruct (ns_order (nsets h self)) as [o|] eqn:Eo.
    - unfold OrderedNamespaceSet_clear, bind, set_order, modify.
      destruct (NamespaceSet_clear self h) as [h0 [[]|e|]] eqn:Ec;
        try (unfold NamespaceSet_clear, modify in Ec; discriminate Ec).
      simpl in H1, H2, H3, H4, H5, H6.
      eexists. split; [reflexivity|]. simpl. rewrite Nat.eqb_refl. simpl.
      split; [exact H1|]. split; [reflexivity|].
      split; [exact H3|]. split; [|split; [exact H5 | exact H6]].
      intros s Hs. rewrite <- (H4 s Hs). apply Nat.eqb_neq in Hs. now rewrite Hs.
    - destruct (NamespaceSet_clear self h) as [h0 [[]|e|]] eqn:Ec;
        try (unfold NamespaceSet_clear, modify in Ec; discriminate Ec).
      simpl in H1, H2, H3, H4, H5, H6.
      exists h0. split; [reflexivity|]. split; [exact H1|].
      split; [rewrite H2; congruence|]. auto. }
  destruct Hrun as (h1 & Hrun & Hb & Ho' & Hp & Hs & Hin & Hout).
  exists h1. split; [exact Hrun|].
  split; [unfold get_attribute_name_list; rewrite Hb; unfold backend_cleared;
          rewrite map_map; reflexivity|].
  split.
  { intros n a. unfold contains_id. rewrite Hb. apply backend_cleared_lookup. }
  split.
  { intros Hne. unfold iter_set.
    destruct (ns_order (nsets h1 self)) as [o|] eqn:Eo.
    - assert (Ho2 : Some o = Some []) by (apply Ho'; discriminate).
      now injection Ho2 as ->.
    - unfold NamespaceSet_iter. rewrite Hb.
      destruct (ns_backend (nsets h self)) as [|[n0 [d0 cs0]] b]; [congruence|].
      reflexivity. }
  auto.
Qed.

End SetOperations.

Section SetOperationsExamples.

#[local] Existing Instance ascii_runtime.

Lemma add_then_lookup_witness :
  o_parent (objs (exec (add 0 3) store1) 3) = Some 0 /\
  get_object_by_attribute (nsets (exec (add 0 3) store1) 0) "id_short" (VStr "DeF") = Ret 3.
Proof.
  destruct (add_then_lookup 0 3 store1 (exec (add 0 3) store1)) as (H1 & _ & H3).
  - apply exec_returned. vm_compute. reflexivity.
  - split; [exact H1|].
    destruct (H3 "id_short" [(VStr "ABC", 1)] false eq_refl) as (a & Ha & _ & _ & H & _).
    apply (H "def" "DeF"); [|reflexivity].
    vm_compute in Ha. now injection Ha as <-.
Defined.

Lemma add_then_remove_restores_witness :
  exists h2,
    remove 0 3 store2 = (h2, Ret tt) /\
    ns_backend (nsets h2 0) = ns_backend (nsets store1 0).
Proof.
  destruct (add_then_remove_restores 0 3 store1 store2) as (h2 & H1 & H2 & _).
  - split; [simpl; auto | discriminate].
  - reflexivity.
  - apply exec_returned. vm_compute. reflexivity.
  - exists h2. auto.
Defined.

Lemma remove_spares_namesakes_witness :
  (exists e, remove 0 2 store1 = (store1, Exc e) /\
             (is_KeyError e = true \/ exists n, e = No_attribute n)) /\
  discard 0 2 store1 = (store1, Ret tt).
Proof.
  apply (remove_spares_namesakes 0 2 store1).
  - discriminate.
  - intros n d cs k [[= <- <- <-]|[]] [= <-]. discriminate.
Defined.

Lemma NamespaceSet_init_returned_witness :
  NoDup [41; 42] /\ iter_set (nsets store5 7) = Ret [41; 42].
Proof.
  destruct (NamespaceSet_init_returned 7 true 40 [("id_short", false)] [41; 42]
              (upd_obj (upd_obj (upd_obj (upd_obj (upd_obj empty_heap
                 40 (new_referable [Concrete 1; UniqueIdShortNamespace] "ns"))
                 41 (new_referable [Concrete 2] "a"))
                 42 (new_referable [Concrete 2] "b"))
                 43 (new_referable [Concrete 2] "c"))
                 44 (new_referable [Concrete 2] "d"))
              store5) as (H1 & _ & _ & _ & H5).
  - discriminate.
  - apply exec_returned. vm_compute. reflexivity.
  - split; assumption.
Defined.

Lemma store5_unique_keys : unique_keys store5 7.
Proof.
  intros n d cs Hin. vm_compute in Hin. destruct Hin as [[= <- <- <-]|[]].
  repeat constructor; simpl; intuition discriminate.
Qed.

Lemma OrderedNamespaceSet_pop_at_witness :
  exists h' l',
    OrderedNamespaceSet_pop 7 (Some (-1)%Z) store5 = (h', Ret 42) /\
    list_delitem [41; 42] (-1) = Some l' /\
    order_of (nsets h' 7) = l'.
Proof.
  pose proof (OrderedNamespaceSet_pop_at 7 (-1) store5 store5_inv store5_unique_keys) as H.
  change (list_getitem (order_of (nsets store5 7)) (-1)) with (Some 42) in H.
  destruct H as (h' & l' & H1 & H2 & H3 & _).
  exists h', l'. auto.
Defined.

Lemma add_then_pop_witness :
  exists h2 r',
    NamespaceSet_pop 0 store2 = (h2, Ret 3) /\
    o_parent (objs h2 3) = None /\
    index_insert 3 (objs store1 3) [] = (r', None) /\
    ns_backend (nsets h2 0) = [("id_short", ([(VStr "ABC", 1)], false))].
Proof.
  destruct (add_then_pop 0 3 store1 store2 "id_short" [(VStr "ABC", 1)] false [])
    as (h2 & r' & H1 & H2 & H3 & H4 & _).
  - split; [simpl; auto | discriminate].
  - reflexivity.
  - reflexivity.
  - apply exec_returned. vm_compute. reflexivity.
  - exists h2, r'. simpl in H3. injection H3 as <-. auto.
Defined.

Lemma setitem_namesake_collides_witness :
  exists n' v t,
    OrderedNamespaceSet_setitem 7 0 41 store5 = (store5, Exc (Collision n' v t)).
Proof.
  apply (setitem_namesake_collides 7 0 41 41 41 store5 "id_short"
           [(VStr "A", 41); (VStr "B", 42)] false (VStr "a") (VStr "a")).
  - exact store5_inv.
  - reflexivity.
  - simpl. auto.
  - simpl. auto.
  - reflexivity.
  - reflexivity.
  - reflexivity.
Defined.

End SetOperationsExamples.

Section Renaming.

Context {py : PyRuntime}.

(* ================================================================== *)
(** * Names *)

Lemma bind_write_id_short {A : Type} (c : M A) (self : oid) (s : string) (h h' : Heap) :
  (c ;;; write_id_short self s) h = (h', Ret tt) ->
  o_id_short (objs h' self) = s.
Proof.
  unfold bind, write_id_short, modify.
  destruct (c h) as [h1 [a|e|]]; intros H; try discriminate H.
  injection H as <-. simpl. now rewrite Nat.eqb_refl.
Qed.

(** X17.  What the setter of [id_short] checks and what it guarantees.
    Assigning the name the element has returns at once; any other name
    that is empty or not of the form letter, then letters, digits and
    underscores is refused with constraint 100 or 2 before anything is
    touched; and whenever the setter returns, the element has the name. *)
Theorem _set_id_short_checks (self : oid) (id_short : string) (h : Heap) :
  (id_short = o_id_short (objs h self) -> _set_id_short self id_short h = (h, Ret tt)) /\
  (id_short <> o_id_short (objs h self) -> ~ well_formed_id_short id_short ->
   exists c, _set_id_short self id_short h = (h, Exc (Constraint c)) /\
             (c = 100 \/ c = 2)) /\
  (forall h', _set_id_short self id_short h = (h', Ret tt) ->
              o_id_short (objs h' self) = id_short).
Proof.
  unfold _set_id_short. split; [|split].
  - intros ->. now rewrite String.eqb_refl.
  - intros Hne Hbad. apply String.eqb_neq in Hne. rewrite Hne.
    destruct (String.eqb id_short ""); [eauto|].
    destruct (fullmatch_id_short id_short) eqn:Ef; simpl; [|eauto].
    destruct (starts_with_letter id_short) eqn:Es; simpl; [|eauto].
    exfalso. apply Hbad. split; assumption.
  - intros h'. destruct (String.eqb id_short (o_id_short (objs h self))) eqn:E.
    + intros [= <-]. apply String.eqb_eq in E. now rewrite E.
    + destruct (String.eqb id_short ""); [discriminate|].
      destruct (negb (fullmatch_id_short id_short)); [discriminate|].
      destruct (negb (starts_with_letter id_short)); [discriminate|].
      destruct (o_parent (objs h self)) as [parent|].
      * destruct (existsb _ _); [discriminate|].
        unfold bind at 1.
        destruct (detach self (o_namespace_element_sets (objs h parent)) [] h)
          as [h1 [l|e|]]; try discriminate.
        unfold bind at 1. destruct (write_id_short self id_short h1) as [h2 [[]|e|]];
          try discriminate.
        apply bind_write_id_short.
      * unfold write_id_short, modify. intros [= <-]. simpl. now rewrite Nat.eqb_refl.
Qed.

(** [remove] on a plain set with the one index that holds the element. *)
Lemma remove_single (s : sid) (z : oid) (h : Heap) (d : pydict) (cs : bool) :
  ns_order (nsets h s) = None ->
  ns_backend (nsets h s) = [("id_short", (d, cs))] ->
  isinstance (objs h z) Referable = true ->
  dict_get (id_key cs h z) d = Some z ->
  remove s z h
  = (upd_set (upd_obj h z (set_o_parent None (objs h z))) s
       (set_ns_backend [("id_short", (dict_del (id_key cs h z) d, cs))] (nsets h s)),
     Ret tt).
Proof.
  intros Hord Hb Hr Hd. unfold remove. rewrite Hord.
  unfold NamespaceSet_remove. rewrite Hb. cbn [remove_check].
  rewrite (get_attribute_id_short (objs h z) cs Hr). fold (id_key cs h z).
  rewrite Hd, Nat.eqb_refl. simpl orb. cbv iota.
  cbn [nsets upd_obj]. rewrite objs_upd_obj_same, Hb. cbn [index_delete].
  rewrite _get_attribute_set_o_parent, (get_attribute_id_short (objs h z) cs Hr).
  fold (id_key cs h z). unfold dict_mem. rewrite Hd. reflexivity.
Qed.

(** [add] to a plain set with the one index, the only set of its owner,
    of an element whose key is free. *)
Lemma add_single (s : sid) (x : oid) (h : Heap) (d : pydict) (cs : bool) :
  ns_order (nsets h s) = None ->
  ns_backend (nsets h s) = [("id_short", (d, cs))] ->
  o_namespace_element_sets (objs h (ns_parent (nsets h s))) = [s] ->
  isinstance (objs h x) Referable = true ->
  dict_mem (id_key cs h x) d = false ->
  foreign_parent h s x = false ->
  add s x h
  = (upd_set (upd_obj h x (set_o_parent (Some (ns_parent (nsets h s))) (objs h x))) s
       (set_ns_backend [("id_short", (dict_set (id_key cs h x) x d, cs))] (nsets h s)),
     Ret tt).
Proof.
  intros Hord Hb Hsets Hr Hfree Hpar. unfold add. rewrite Hord.
  unfold NamespaceSet_add. rewrite Hsets. cbn [sets_collision]. rewrite Hb.
  cbn [backend_collision].
  assert (Hg : getattr (objs h x) "id_short" = Some (VStr (o_id_short (objs h x))))
    by (unfold getattr; simpl; now rewrite Hr).
  rewrite Hg. fold (id_key cs h x). rewrite Hfree.
  unfold foreign_parent in Hpar. rewrite Hpar.
  cbn [nsets upd_obj]. rewrite objs_upd_obj_same, Hb. cbn [index_insert].
  rewrite _get_attribute_set_o_parent, (get_attribute_id_short (objs h x) cs Hr).
  fold (id_key cs h x). reflexivity.
Qed.

(** X18.  Renaming an element of a namespace.  Let [c] be held by the
    one index of the plain set [t], the only set of its parent [p], and
    let the new name be well-formed, different from the old one and free
    in the index.  Then the setter returns: [c] has the new name and still
    [p] as parent, the index holds [c] under the folded new name, entered
    last, and no longer under the old one, so that the parent finds [c] by
    the new name and raises [KeyError] for the old one; no other object
    has changed. *)
Theorem rename_reindexes (c p : oid) (t : sid) (id_short : string) (h : Heap)
        (d : pydict) (cs : bool) :
  well_formed_id_short id_short ->
  id_short <> o_id_short (objs h c) ->
  isinstance (objs h c) Referable = true ->
  o_parent (objs h c) = Some p ->
  o_namespace_element_sets (objs h p) = [t] ->
  ns_parent (nsets h t) = p ->
  ns_order (nsets h t) = None ->
  ns_backend (nsets h t) = [("id_short", (d, cs))] ->
  NoDup (map fst d) ->
  dict_get (id_key cs h c) d = Some c ->
  dict_mem (fold_case cs (VStr id_short)) d = false ->
  exists h',
    _set_id_short c id_short h = (h', Ret tt) /\
    o_id_short (objs h' c) = id_short /\
    o_parent (objs h' c) = Some p /\
    ns_backend (nsets h' t)
    = [("id_short", (dict_set (fold_case cs (VStr id_short)) c
                       (dict_del (id_key cs h c) d), cs))] /\
    get_referable h' p id_short = Ret c /\
    (exists e, get_referable h' p (o_id_short (objs h c)) = Exc e /\
               is_KeyError e = true) /\
    (forall y, y <> c -> objs h' y = objs h y).
Proof.
  intros Hwf Hne Hr Hpar Hsets Hown Hord Hb Hnd Hd Hfree.
  set (kold := id_key cs h c) in *.
  set (knew := fold_case cs (VStr id_short)) in *.
  set (h2 := upd_set (upd_obj h c (set_o_parent None (objs h c))) t
               (set_ns_backend [("id_short", (dict_del kold d, cs))] (nsets h t))).
  set (h3 := upd_obj h2 c (set_o_id_short id_short (objs h2 c))).
  set (h5 := upd_set (upd_obj h3 c (set_o_parent (Some p) (objs h3 c))) t
               (set_ns_backend [("id_short", (dict_set knew c (dict_del kold d), cs))]
                               (nsets h3 t))).
  set (h6 := upd_obj h5 c (set_o_id_short id_short (objs h5 c))).
  assert (Hkeys : kold <> knew).
  { intros E. unfold dict_mem in Hfree. rewrite <- E, Hd in Hfree. discriminate. }
  assert (Hcontains : NamespaceSet_contains (nsets h t) c (objs h c) = Ret true).
  { unfold NamespaceSet_contains. rewrite Hb.
    rewrite (get_attribute_id_short (objs h c) cs Hr). fold (id_key cs h c).
    fold kold. now rewrite Hd, Nat.eqb_refl. }
  assert (H1 : detach c [t] [] h = (h2, Ret [t])).
  { cbn [detach]. rewrite Hcontains. unfold bind, discard. rewrite Hcontains.
    rewrite (remove_single t c h d cs Hord Hb Hr Hd). reflexivity. }
  assert (Hc3 : objs h3 c = set_o_id_short id_short (set_o_parent None (objs h c))).
  { unfold h3, h2. simpl. now rewrite !Nat.eqb_refl. }
  assert (Ht3 : nsets h3 t
                = set_ns_backend [("id_short", (dict_del kold d, cs))] (nsets h t)).
  { unfold h3, h2. simpl. now rewrite Nat.eqb_refl. }
  assert (Hp3 : o_namespace_element_sets (objs h3 p) = [t]).
  { destruct (Nat.eq_dec p c) as [Hpc|Hpc].
    - rewrite Hpc, Hc3. simpl. rewrite <- Hpc. exact Hsets.
    - unfold h3, h2. simpl. apply Nat.eqb_neq in Hpc. now rewrite Hpc. }
  assert (H3 : add t c h3 = (h5, Ret tt)).
  { rewrite (add_single t c h3 (dict_del kold d) cs).
    - unfold h5. rewrite Ht3. cbn [ns_parent set_ns_backend]. rewrite Hown.
      unfold id_key. rewrite Hc3. reflexivity.
    - rewrite Ht3. exact Hord.
    - rewrite Ht3. reflexivity.
    - rewrite Ht3. cbn [ns_parent set_ns_backend]. rewrite Hown. exact Hp3.
    - rewrite Hc3. exact Hr.
    - unfold id_key. rewrite Hc3. cbn [o_id_short set_o_id_short]. fold knew.
      destruct (dict_get knew (dict_del kold d)) as [y|] eqn:E;
        unfold dict_mem; rewrite E; [|reflexivity].
      exfalso. apply dict_get_In in E. apply (in_map fst) in E.
      apply dict_del_keys in E. simpl in E.
      assert (Hnone : dict_get knew d = None)
        by (unfold dict_mem in Hfree; now destruct (dict_get knew d)).
      apply dict_get_None in Hnone. contradiction.
    - unfold foreign_parent. rewrite Hc3. reflexivity. }
  assert (Hrun : _set_id_short c id_short h = (h6, Ret tt)).
  { unfold _set_id_short.
    apply String.eqb_neq in Hne. rewrite Hne.
    assert (Hne' : String.eqb id_short "" = false).
    { apply String.eqb_neq. intros ->. destruct Hwf as [_ Hs]. discriminate Hs. }
    rewrite Hne'. destruct Hwf as [Hf Hs]. rewrite Hf, Hs. simpl negb. cbv iota.
    rewrite Hpar, Hsets. cbn [existsb]. unfold contains_id. rewrite Hb.
    change (assoc "id_short" [("id_short", (d, cs))]) with (Some (d, cs)).
    cbv beta iota. fold knew. rewrite Hfree. simpl orb. cbv iota.
    unfold bind at 1. rewrite H1.
    unfold bind at 1. unfold write_id_short at 1, modify. fold h3.
    unfold bind at 1. cbn [for_each]. unfold bind at 1. rewrite H3.
    unfold ret, write_id_short, modify. reflexivity. }
  assert (Hc6 : objs h6 c
                = set_o_id_short id_short
                    (set_o_parent (Some p) (set_o_id_short id_short
                                              (set_o_parent None (objs h c))))).
  { unfold h6. rewrite objs_upd_obj_same. unfold h5. cbn [objs upd_set].
    rewrite objs_upd_obj_same, Hc3. reflexivity. }
  assert (Ht6 : ns_backend (nsets h6 t)
                = [("id_short", (dict_set knew c (dict_del kold d), cs))]).
  { unfold h6, h5. simpl. now rewrite Nat.eqb_refl. }
  assert (Hp6 : o_namespace_element_sets (objs h6 p) = [t]).
  { destruct (Nat.eq_dec p c) as [Hpc|Hpc].
    - rewrite Hpc, Hc6. simpl. rewrite <- Hpc. exact Hsets.
    - unfold h6, h5, h3, h2. simpl. apply Nat.eqb_neq in Hpc. now rewrite Hpc. }
  exists h6. split; [exact Hrun|].
  split; [rewrite Hc6; reflexivity|]. split; [rewrite Hc6; reflexivity|].
  split; [exact Ht6|]. split; [|split].
  - unfold get_referable. rewrite Hp6. cbn [_get_object].
    unfold get_object_by_attribute. rewrite Ht6.
    change (assoc "id_short" [("id_short", (dict_set knew c (dict_del kold d), cs))])
      with (Some (dict_set knew c (dict_del kold d), cs)).
    cbv beta iota.
    replace (if cs then Some (VStr id_short) else Some (VStr (upper id_short)))
      with (Some knew) by (unfold knew; simpl; now destruct cs).
    now rewrite dict_get_set_same.
  - unfold get_referable. rewrite Hp6. cbn [_get_object].
    unfold get_object_by_attribute. rewrite Ht6.
    change (assoc "id_short" [("id_short", (dict_set knew c (dict_del kold d), cs))])
      with (Some (dict_set knew c (dict_del kold d), cs)).
    cbv beta iota.
    replace (if cs then Some (VStr (o_id_short (objs h c)))
             else Some (VStr (upper (o_id_short (objs h c)))))
      with (Some kold) by (unfold kold, id_key; simpl; now destruct cs).
    rewrite dict_get_set_other by exact Hkeys.
    rewrite dict_get_del_same by exact Hnd.
    simpl. eexists. split; reflexivity.
  - intros y Hy. unfold h6, h5, h3, h2. simpl. apply Nat.eqb_neq in Hy. now rewrite Hy.
Qed.

(* ================================================================== *)
(** * Namespaces *)

Lemma assoc_names {B : Type} (n : string) (b : list (string * B)) :
  In n (map fst b) <-> assoc n b <> None.
Proof.
  induction b as [|[n' v] b IH]; simpl; [tauto|].
  destruct (String.eqb n' n) eqn:E.
  - apply String.eqb_eq in E. split; [discriminate | auto].
  - apply String.eqb_neq in E. rewrite <- IH. tauto.
Qed.

(** [add], returning or not, changes the attribute names of no set. *)
Lemma add_names (self : sid) (x : oid) (h h' : Heap) (r : outcome unit) :
  add self x h = (h', r) ->
  forall s, get_attribute_name_list (nsets h' s) = get_attribute_name_list (nsets h s).
Proof.
  intros Hrun s. unfold get_attribute_name_list.
  destruct (add_base self x h h' r Hrun) as (h1 & Hadd & _ & Hback & _).
  rewrite Hback.
  destruct (NamespaceSet_add_inv self x h h1 r Hadd)
    as [(? & ? & ? & _ & -> & _)|[(_ & _ & -> & _)|(_ & _ & b & e & Hins & -> & _)]];
    try reflexivity.
  simpl. destruct (Nat.eqb s self) eqn:E; [|reflexivity].
  apply Nat.eqb_eq in E. subst s. simpl.
  pose proof (index_insert_names x (objs h x) (ns_backend (nsets h self))) as Hn.
  rewrite Hins in Hn. exact Hn.
Qed.

Lemma _add_object_in_lookup (x : oid) : forall (ss : list sid) (h h' : Heap),
  isinstance (objs h x) Referable = true ->
  _add_object_in ss "id_short" x h = (h', Ret tt) ->
  _get_object h' ss "id_short" (VStr (o_id_short (objs h x))) = Ret x /\
  (exists s, In s ss /\ o_parent (objs h' x) = Some (ns_parent (nsets h s))) /\
  (forall y, y <> x -> objs h' y = objs h y).
Proof.
  induction ss as [|s ss IH]; intros h h' Hr Hrun; [discriminate Hrun|].
  cbn [_add_object_in] in Hrun. cbn [_get_object].
  destruct (in_dec string_dec "id_short" (get_attribute_name_list (nsets h s)))
    as [Hin|Hout].
  - destruct (add_returned s x h h' Hrun) as (b & Hins & Hb & _ & _ & Hx & Hy & _).
    apply assoc_names in Hin.
    destruct (assoc "id_short" (ns_backend (nsets h s))) as [[d cs]|] eqn:Ea;
      [|congruence].
    destruct (index_insert_assoc x (objs h x) "id_short" _ b d cs Hins Ea)
      as (k & Hk & Ha').
    rewrite (get_attribute_id_short (objs h x) cs Hr) in Hk. injection Hk as <-.
    split; [|split].
    + unfold get_object_by_attribute. rewrite Hb, Ha'.
      replace (if cs then Some (VStr (o_id_short (objs h x)))
               else Some (VStr (upper (o_id_short (objs h x)))))
        with (Some (fold_case cs (VStr (o_id_short (objs h x)))))
        by (simpl; now destruct cs).
      now rewrite dict_get_set_same.
    + exists s. split; [simpl; auto|]. rewrite Hx. reflexivity.
    + exact Hy.
  - destruct (IH h h' Hr Hrun) as (Hget & (s' & Hs' & Hp) & Hy).
    split; [|split].
    + unfold get_object_by_attribute.
      assert (Hnone : assoc "id_short" (ns_backend (nsets h' s)) = None).
      { destruct (assoc "id_short" (ns_backend (nsets h' s))) eqn:Ea; [|reflexivity].
        exfalso. apply Hout.
        assert (Hnames : forall ss0 h0 h0', _add_object_in ss0 "id_short" x h0 = (h0', Ret tt) ->
                  get_attribute_name_list (nsets h0' s) = get_attribute_name_list (nsets h0 s)).
        { induction ss0 as [|s0 ss0 IH0]; intros h0 h0' H0; [discriminate H0|].
          cbn [_add_object_in] in H0.
          destruct (in_dec string_dec "id_short" (get_attribute_name_list (nsets h0 s0))).
          - apply (add_names s0 x h0 h0' _ H0).
          - now apply IH0. }
        rewrite <- (Hnames ss h h' Hrun). apply assoc_names. congruence. }
      rewrite Hnone. simpl. exact Hget.
    + exists s'. split; [simpl; auto | exact Hp].
    + exact Hy.
Qed.

Lemma _add_object_in_sets (x : oid) : forall (ss : list sid) (h h' : Heap),
  _add_object_in ss "id_short" x h = (h', Ret tt) ->
  forall y, o_namespace_element_sets (objs h' y) = o_namespace_element_sets (objs h y).
Proof.
  induction ss as [|s ss IH]; intros h h' Hrun y; [discriminate Hrun|].
  cbn [_add_object_in] in Hrun.
  destruct (in_dec string_dec "id_short" (get_attribute_name_list (nsets h s))).
  - destruct (add_returned s x h h' Hrun) as (_ & _ & _ & _ & _ & Hx & Hy & _).
    destruct (Nat.eq_dec y x) as [->|Hne]; [now rewrite Hx | now rewrite Hy].
  - now apply (IH h h').
Qed.

Lemma _add_object_in_first (x : oid) : forall (ss : list sid) (h h' : Heap),
  _add_object_in ss "id_short" x h = (h', Ret tt) ->
  exists pre s post,
    ss = pre ++ s :: post /\
    (forall t, In t pre -> ~ In "id_short" (get_attribute_name_list (nsets h t))) /\
    In "id_short" (get_attribute_name_list (nsets h s)) /\
    add s x h = (h', Ret tt).
Proof.
  induction ss as [|s ss IH]; intros h h' Hrun; [discriminate Hrun|].
  cbn [_add_object_in] in Hrun.
  destruct (in_dec string_dec "id_short" (get_attribute_name_list (nsets h s)))
    as [Hin|Hout].
  - exists [], s, ss. split; [reflexivity|]. split; [intros t []|]. auto.
  - destruct (IH h h' Hrun) as (pre & s' & post & -> & Hpre & Hs' & Hadd).
    exists (s :: pre), s', post. split; [reflexivity|]. split; [|auto].
    intros t [<-|Ht]; auto.
Qed.

(** X19.  What [add_referable] has added, [get_referable] finds.  When
    [add_referable] returns, the element has been entered in the first
    set of the namespace that tracks [id_short] (no set listed before it
    does): that set answers the name of the element with the element, its
    owner is the parent of the element, and no other set has changed;
    [get_referable] with the name of the element answers with the
    element itself; no other object has changed. *)
Theorem add_referable_then_get_referable (namespace referable : oid) (h h' : Heap) :
  isinstance (objs h referable) Referable = true ->
  add_referable namespace referable h = (h', Ret tt) ->
  get_referable h' namespace (o_id_short (objs h referable)) = Ret referable /\
  (exists pre s post,
      o_namespace_element_sets (objs h namespace) = pre ++ s :: post /\
      (forall t, In t pre -> ~ In "id_short" (get_attribute_name_list (nsets h t))) /\
      In "id_short" (get_attribute_name_list (nsets h s)) /\
      get_object_by_attribute (nsets h' s) "id_short"
                              (VStr (o_id_short (objs h referable))) = Ret referable /\
      o_parent (objs h' referable) = Some (ns_parent (nsets h s)) /\
      (forall t, t <> s -> nsets h' t = nsets h t)) /\
  (forall y, y <> referable -> objs h' y = objs h y).
Proof.
  intros Hr Hrun. unfold add_referable in Hrun.
  destruct (_add_object_in_lookup referable _ h h' Hr Hrun) as (Hget & _ & Hy).
  split; [|split; [|exact Hy]].
  { unfold get_referable.
    replace (o_namespace_element_sets (objs h' namespace))
      with (o_namespace_element_sets (objs h namespace)); [exact Hget|].
    symmetry. apply (_add_object_in_sets referable _ h h' Hrun). }
  destruct (_add_object_in_first referable _ h h' Hrun)
    as (pre & s & post & Hl & Hpre & Hs & Hadd).
  exists pre, s, post. split; [exact Hl|]. split; [exact Hpre|]. split; [exact Hs|].
  destruct (add_returned s referable h h' Hadd) as (b & Hins & Hb & _ & Hoth & Hx & _ & _).
  apply assoc_names in Hs.
  destruct (assoc "id_short" (ns_backend (nsets h s))) as [[d cs]|] eqn:Ea;
    [|congruence].
  destruct (index_insert_assoc referable (objs h referable) "id_short" _ b d cs Hins Ea)
    as (k & Hk & Ha').
  rewrite (get_attribute_id_short (objs h referable) cs Hr) in Hk. injection Hk as <-.
  split; [|split; [rewrite Hx; reflexivity | exact Hoth]].
  unfold get_object_by_attribute. rewrite Hb, Ha'.
  replace (if cs then Some (VStr (o_id_short (objs h referable)))
           else Some (VStr (upper (o_id_short (objs h referable)))))
    with (Some (fold_case cs (VStr (o_id_short (objs h referable)))))
    by (simpl; now destruct cs).
  now rewrite dict_get_set_same.
Qed.

(** X20.  [remove_referable] in a namespace with one plain set indexed
    by [id_short].  A name the index holds is removed: the element found
    under it leaves the index and loses its parent, nothing else changes,
    and the namespace no longer finds the name.  A name the index does not
    hold raises the [KeyError] of the namespace and changes nothing. *)
Theorem remove_referable_by_name (namespace : oid) (t : sid) (h : Heap)
        (d : pydict) (cs : bool) (id_short : string) :
  o_namespace_element_sets (objs h namespace) = [t] ->
  ns_order (nsets h t) = None ->
  ns_backend (nsets h t) = [("id_short", (d, cs))] ->
  index_ok cs h d ->
  match dict_get (fold_case cs (VStr id_short)) d with
  | Some c =>
      exists h',
        remove_referable namespace id_short h = (h', Ret tt) /\
        o_parent (objs h' c) = None /\
        ns_backend (nsets h' t)
        = [("id_short", (dict_del (fold_case cs (VStr id_short)) d, cs))] /\
        (exists e, get_referable h' namespace id_short = Exc e /\ is_KeyError e = true) /\
        (forall y, y <> c -> objs h' y = objs h y)
  | None =>
      remove_referable namespace id_short h
      = (h, Exc (Not_in_namespace "id_short" (VStr id_short)))
  end.
Proof.
  intros Hsets Hord Hb [Hnd Hkeys].
  assert (Hlookup : get_object_by_attribute (nsets h t) "id_short" (VStr id_short)
                    = match dict_get (fold_case cs (VStr id_short)) d with
                      | Some c => Ret c
                      | None => Exc (Dict_KeyError (fold_case cs (VStr id_short)))
                      end).
  { unfold get_object_by_attribute. rewrite Hb.
    change (assoc "id_short" [("id_short", (d, cs))]) with (Some (d, cs)).
    cbv beta iota.
    replace (if cs then Some (VStr id_short) else Some (VStr (upper id_short)))
      with (Some (fold_case cs (VStr id_short))) by (simpl; now destruct cs).
    reflexivity. }
  unfold remove_referable. rewrite Hsets. cbn [_remove_object_in].
  unfold get_attribute_name_list. rewrite Hb. simpl map.
  destruct (in_dec string_dec "id_short" ["id_short"]) as [_|Hn]; [|simpl in Hn; tauto].
  unfold try_except_KeyError, remove_by_id. rewrite Hlookup.
  destruct (dict_get (fold_case cs (VStr id_short)) d) as [c|] eqn:Hd; [|reflexivity].
  destruct (Hkeys _ c (dict_get_In _ _ _ Hd)) as [Hr Hk].
  rewrite Hk in Hd.
  rewrite (remove_single t c h d cs Hord Hb Hr Hd).
  eexists. split; [reflexivity|].
  split; [simpl; now rewrite Nat.eqb_refl|].
  split; [rewrite Hk; simpl; now rewrite Nat.eqb_refl|]. split.
  - unfold get_referable.
    assert (Hs' : o_namespace_element_sets
                    (objs (upd_set (upd_obj h c (set_o_parent None (objs h c))) t
                             (set_ns_backend
                                [("id_short", (dict_del (id_key cs h c) d, cs))]
                                (nsets h t))) namespace) = [t]).
    { simpl. destruct (Nat.eqb namespace c) eqn:E; [|exact Hsets].
      apply Nat.eqb_eq in E. rewrite <- E. exact Hsets. }
    rewrite Hs'. cbn [_get_object]. unfold get_object_by_attribute.
    simpl nsets. rewrite Nat.eqb_refl. cbn [ns_backend set_ns_backend].
    change (assoc "id_short" [("id_short", (dict_del (id_key cs h c) d, cs))])
      with (Some (dict_del (id_key cs h c) d, cs)).
    cbv beta iota.
    replace (if cs then Some (VStr id_short) else Some (VStr (upper id_short)))
      with (Some (fold_case cs (VStr id_short))) by (simpl; now destruct cs).
    rewrite Hk, dict_get_del_same by exact Hnd.
    simpl. eexists. split; reflexivity.
  - intros y Hy. simpl. apply Nat.eqb_neq in Hy. now rewrite Hy.
Qed.

End Renaming.

Section RenamingExamples.

#[local] Existing Instance ascii_runtime.

Lemma _set_id_short_checks_witness :
  exists c, _set_id_short 1 "1st" store1 = (store1, Exc (Constraint c)) /\
            (c = 100 \/ c = 2).
Proof.
  destruct (_set_id_short_checks 1 "1st" store1) as (_ & H & _).
  apply H.
  - discriminate.
  - intros [_ H2]. discriminate H2.
Defined.

Lemma rename_reindexes_witness :
  exists h',
    _set_id_short 1 "xyz" store1 = (h', Ret tt) /\
    get_referable h' 0 "xyz" = Ret 1 /\
    (exists e, get_referable h' 0 "abc" = Exc e /\ is_KeyError e = true).
Proof.
  destruct (rename_reindexes 1 0 0 "xyz" store1 [(VStr "ABC", 1)] false)
    as (h' & H1 & _ & _ & _ & H5 & H6 & _);
    try reflexivity; try discriminate.
  - split; reflexivity.
  - repeat constructor. simpl. tauto.
  - exists h'. auto.
Defined.

Lemma add_referable_then_get_referable_witness :
  get_referable (exec (add_referable 0 3) store1) 0 "def" = Ret 3 /\
  get_object_by_attribute (nsets (exec (add_referable 0 3) store1) 0) "id_short"
                          (VStr "def") = Ret 3.
Proof.
  destruct (add_referable_then_get_referable 0 3 store1 (exec (add_referable 0 3) store1))
    as (H & (pre & s & post & Hl & _ & _ & Hg & _) & _).
  - reflexivity.
  - apply exec_returned. vm_compute. reflexivity.
  - split; [exact H|].
    destruct pre as [|t [|t' pre]]; try discriminate Hl.
    injection Hl as <- _. exact Hg.
Defined.

Lemma store1_index_ok : index_ok false store1 [(VStr "ABC", 1)].
Proof.
  split.
  - repeat constructor. simpl. tauto.
  - intros k y [[= <- <-]|[]]. split; reflexivity.
Qed.

Lemma remove_referable_by_name_witness :
  (exists h', remove_referable 0 "Abc" store1 = (h', Ret tt) /\
              o_parent (objs h' 1) = None) /\
  remove_referable 0 "abd" store1
  = (store1, Exc (Not_in_namespace "id_short" (VStr "abd"))).
Proof.
  split.
  - pose proof (remove_referable_by_name 0 0 store1 [(VStr "ABC", 1)] false "Abc"
                  eq_refl eq_refl eq_refl store1_index_ok) as H.
    cbv beta iota in H. simpl dict_get in H.
    destruct H as (h' & H1 & H2 & _). exists h'. auto.
  - exact (remove_referable_by_name 0 0 store1 [(VStr "ABC", 1)] false "abd"
             eq_refl eq_refl eq_refl store1_index_ok).
Defined.

End RenamingExamples.

Section ReconciliationReturns.

Context {py : PyRuntime}.

(* ================================================================== *)
(** * Reconciliation always returns *)

Lemma remove_loop_returns (self : sid) (cs : bool) :
  forall (zs : list oid) (h : Heap) (dS : pydict),
  ns_order (nsets h self) = None ->
  ns_backend (nsets h self) = [("id_short", (dS, cs))] ->
  (forall z, In z zs -> isinstance (objs h z) Referable = true /\
                        dict_get (id_key cs h z) dS = Some z) ->
  NoDup zs ->
  exists h', for_each zs (remove self) h = (h', Ret tt).
Proof.
  induction zs as [|z zs IH]; intros h dS Hord Hb Hz Hnd; [eexists; reflexivity|].
  inversion Hnd as [|? ? Hfresh Hnd']. subst.
  destruct (Hz z) as [Hr Hd]; [simpl; auto|].
  cbn [for_each]. unfold bind. rewrite (remove_single self z h dS cs Hord Hb Hr Hd).
  set (kz := id_key cs h z) in *.
  set (h1 := upd_set (upd_obj h z (set_o_parent None (objs h z))) self
               (set_ns_backend [("id_short", (dict_del kz dS, cs))] (nsets h self))).
  apply (IH h1 (dict_del kz dS)).
  - unfold h1. simpl. rewrite Nat.eqb_refl. exact Hord.
  - unfold h1. simpl. now rewrite Nat.eqb_refl.
  - intros y Hy. destruct (Hz y) as [Hry Hdy]; [simpl; auto|].
    assert (Hyz : y <> z) by (intros ->; contradiction).
    assert (Ho : objs h1 y = objs h y).
    { unfold h1. simpl. apply Nat.eqb_neq in Hyz. now rewrite Hyz. }
    unfold id_key. rewrite Ho. fold (id_key cs h y). split; [exact Hry|].
    rewrite dict_get_del_other; [exact Hdy|].
    intros E. rewrite E in Hdy. rewrite Hd in Hdy. injection Hdy as Hzy. congruence.
  - exact Hnd'.
Qed.

Lemma move_loop_returns (self other : sid) (cs : bool) :
  forall (bs : list oid) (h : Heap) (dS dO : pydict),
  self <> other ->
  ns_order (nsets h self) = None ->
  ns_order (nsets h other) = None ->
  ns_backend (nsets h self) = [("id_short", (dS, cs))] ->
  ns_backend (nsets h other) = [("id_short", (dO, cs))] ->
  o_namespace_element_sets (objs h (ns_parent (nsets h self))) = [self] ->
  (forall b, In b bs -> isinstance (objs h b) Referable = true /\
                        dict_get (id_key cs h b) dO = Some b /\
                        dict_mem (id_key cs h b) dS = false) ->
  NoDup bs ->
  exists h', for_each bs (fun b => remove other b ;;; add self b) h = (h', Ret tt).
Proof.
  induction bs as [|b bs IH]; intros h dS dO Hne Hos Hoo Hbs Hbo Hsets Hb Hnd;
    [eexists; reflexivity|].
  inversion Hnd as [|? ? Hfresh Hnd']. subst.
  destruct (Hb b) as (Hr & Hd & Hfree); [simpl; auto|].
  cbn [for_each]. unfold bind at 1. unfold bind at 1.
  rewrite (remove_single other b h dO cs Hoo Hbo Hr Hd).
  set (h1 := upd_set (upd_obj h b (set_o_parent None (objs h b))) other
               (set_ns_backend [("id_short", (dict_del (id_key cs h b) dO, cs))]
                               (nsets h other))).
  assert (Hself1 : nsets h1 self = nsets h self).
  { unfold h1. simpl. apply Nat.eqb_neq in Hne. now rewrite Hne. }
  assert (Hb1 : objs h1 b = set_o_parent None (objs h b)).
  { unfold h1. simpl. now rewrite Nat.eqb_refl. }
  assert (Hkey1 : id_key cs h1 b = id_key cs h b) by (unfold id_key; now rewrite Hb1).
  assert (Hsets1 : forall y, o_namespace_element_sets (objs h1 y)
                             = o_namespace_element_sets (objs h y)).
  { intros y. unfold h1. simpl. destruct (Nat.eqb y b) eqn:E; [|reflexivity].
    apply Nat.eqb_eq in E. now subst. }
  rewrite (add_single self b h1 dS cs).
  - set (h2 := upd_set (upd_obj h1 b (set_o_parent (Some (ns_parent (nsets h1 self)))
                                                   (objs h1 b))) self
                 (set_ns_backend [("id_short", (dict_set (id_key cs h1 b) b dS, cs))]
                                 (nsets h1 self))).
    assert (Hother2 : forall y, y <> b -> objs h2 y = objs h y).
    { intros y Hy. unfold h2, h1. simpl. apply Nat.eqb_neq in Hy. now rewrite Hy. }
    assert (Hs2self : nsets h2 self
              = set_ns_backend [("id_short", (dict_set (id_key cs h1 b) b dS, cs))]
                               (nsets h self)).
    { unfold h2. rewrite nsets_upd_set_same. now rewrite Hself1. }
    assert (Hs2other : nsets h2 other
              = set_ns_backend [("id_short", (dict_del (id_key cs h b) dO, cs))]
                               (nsets h other)).
    { unfold h2. rewrite nsets_upd_set_other by congruence.
      unfold h1. cbn [nsets upd_obj]. apply nsets_upd_set_same. }
    assert (Hs2 : forall y, o_namespace_element_sets (objs h2 y)
                            = o_namespace_element_sets (objs h1 y)).
    { intros y. unfold h2. cbn [objs upd_set].
      destruct (Nat.eq_dec y b) as [->|Hyb].
      - now rewrite objs_upd_obj_same.
      - now rewrite objs_upd_obj_other. }
    apply (IH h2 (dict_set (id_key cs h1 b) b dS) (dict_del (id_key cs h b) dO) Hne).
    + rewrite Hs2self. exact Hos.
    + rewrite Hs2other. exact Hoo.
    + now rewrite Hs2self.
    + now rewrite Hs2other.
    + rewrite Hs2self. cbn [ns_parent set_ns_backend].
      rewrite Hs2, Hsets1. exact Hsets.
    + intros y Hy. destruct (Hb y) as (Hry & Hdy & Hfy); [simpl; auto|].
      assert (Hyb : y <> b) by (intros ->; contradiction).
      assert (Hkeys : id_key cs h y <> id_key cs h b)
        by (intros E; rewrite E in Hdy; congruence).
      unfold id_key at 1 2 3. rewrite (Hother2 y Hyb).
      fold (id_key cs h y). split; [exact Hry|]. split.
      * rewrite dict_get_del_other; [exact Hdy | exact Hkeys].
      * rewrite Hkey1. unfold dict_mem. rewrite dict_get_set_other by exact Hkeys.
        exact Hfy.
    + exact Hnd'.
  - now rewrite Hself1.
  - now rewrite Hself1.
  - rewrite Hself1, Hsets1. exact Hsets.
  - rewrite Hb1. now rewrite isinstance_set_o_parent.
  - now rewrite Hkey1.
  - unfold foreign_parent. now rewrite Hb1.
Qed.

(** X21.  Reconciliation returns.  Under the conditions of the
    statement about [update_nss_from] (two different plain sets indexed
    by [id_short] under one case rule, both indexes in order, no object in
    both, matched elements of [other] flat), and when [self] is the only
    set of its owner, [update_nss_from] raises nothing: with any fuel but
    none it returns. *)
Theorem update_nss_from_returns (fuel : nat) (self other : sid) (h : Heap)
        (dS dO : pydict) (cs : bool) :
  self <> other ->
  ns_order (nsets h self) = None ->
  ns_order (nsets h other) = None ->
  ns_backend (nsets h self) = [("id_short", (dS, cs))] ->
  ns_backend (nsets h other) = [("id_short", (dO, cs))] ->
  index_ok cs h dS ->
  index_ok cs h dO ->
  (forall y, In y (dict_values dO) -> ~ In y (dict_values dS)) ->
  (forall k y, In (k, y) dO -> dict_mem k dS = true -> flat (objs h y) = true) ->
  o_namespace_element_sets (objs h (ns_parent (nsets h self))) = [self] ->
  exists h', update_nss_from (S fuel) self other h = (h', Ret tt).
Proof.
  intros Hne Hos Hoo Hbs Hbo HiS HiO Hdisj Hflat Hsets.
  cbn [update_nss_from]. unfold update_nss_from_body.
  unfold bind at 1. unfold get_heap at 1.
  unfold iter_set. rewrite Hoo. unfold NamespaceSet_iter. rewrite Hbo.
  destruct (first_loop_spec (update_nss_from fuel) self cs dS (dict_values dO) h []
              Hbs HiS) as (h1 & Hrun1 & Hs1 & Hout1 & Hm1 & Hk1 & HiS1).
  { intros o Ho. apply In_dict_values in Ho. destruct Ho as [k Hin].
    destruct HiO as [_ HkO]. destruct (HkO k o Hin) as [Hr Hk].
    split; [exact Hr|]. split.
    - rewrite <- Hk. now apply Hflat.
    - apply Hdisj. apply In_dict_values. eauto. }
  { rewrite (index_ok_values cs h dO HiO). apply HiO. }
  unfold bind at 1. rewrite Hrun1. simpl app.
  unfold bind at 1. unfold get_heap at 1.
  rewrite Hs1, Hbs, Hbo.
  rewrite (objects_to_remove_spec h1 cs cs dS dO HiS1).
  set (to_add := filter (fun o => negb (dict_mem (id_key cs h o) dS)) (dict_values dO)).
  set (to_rem := dict_values (filter (fun e => negb (dict_mem (fst e) dO)) dS)).
  assert (HndS : NoDup (map fst dS)) by apply HiS.
  assert (HndO : NoDup (map fst dO)) by apply HiO.
  assert (Hadd : forall b, In b to_add ->
            In (id_key cs h b, b) dO /\ dict_get (id_key cs h b) dS = None /\
            objs h1 b = objs h b).
  { intros b Hb. apply filter_In in Hb. destruct Hb as [Hb Hmem].
    assert (Hb' := Hb). apply In_dict_values in Hb. destruct Hb as [k Hin].
    destruct HiO as [_ HkO]. destruct (HkO k b Hin) as [_ Hk]. subst k.
    split; [exact Hin|]. split.
    - unfold dict_mem in Hmem. now destruct (dict_get (id_key cs h b) dS).
    - apply Hout1. now apply Hdisj. }
  assert (Hrem : forall z, In z to_rem ->
            exists k, In (k, z) dS /\ dict_get k dO = None /\ k = id_key cs h1 z).
  { intros z Hz. apply In_dict_values in Hz. destruct Hz as [k Hin].
    apply filter_In in Hin. destruct Hin as [Hin Hmem]. simpl in Hmem.
    exists k. split; [exact Hin|]. split.
    - unfold dict_mem in Hmem. now destruct (dict_get k dO).
    - destruct HiS1 as [_ HkS]. now destruct (HkS k z Hin). }
  assert (Hkeys_add : map (id_key cs h1) to_add = map (id_key cs h) to_add).
  { apply map_ext_in. intros b Hb. unfold id_key.
    destruct (Hadd b Hb) as (_ & _ & ->). reflexivity. }
  assert (Hnd_add : NoDup (map (id_key cs h1) to_add)).
  { rewrite Hkeys_add. apply NoDup_map_filter.
    rewrite (index_ok_values cs h dO HiO). apply HiO. }
  assert (Hapart : forall z, In z to_rem -> ~ In z to_add).
  { intros z Hz Hz'. destruct (Hrem z Hz) as (k & Hin & _).
    apply filter_In in Hz'. destruct Hz' as [Hz' _].
    apply (Hdisj z Hz'). apply In_dict_values. eauto. }
  assert (Hsets1 : forall y, o_namespace_element_sets (objs h1 y)
                             = o_namespace_element_sets (objs h y)).
  { intros y. destruct (in_dec Nat.eq_dec y (dict_values dS)) as [Hy|Hy];
      [|now rewrite (Hout1 y Hy)].
    apply In_dict_values in Hy. destruct Hy as [k Hin].
    destruct (in_dec pyval_eq_dec k (map (id_key cs h) (dict_values dO))) as [Hk|Hk].
    - apply in_map_iff in Hk. destruct Hk as (o & Hko & Ho).
      rewrite (Hm1 o y Ho) by (rewrite Hko; now apply In_dict_get).
      now destruct (merged_frame (objs h o) (objs h y)) as (_ & _ & ?).
    - now rewrite (Hk1 k y Hin Hk). }
  rewrite <- Hs1 in Hos, Hoo, Hbs, Hbo.
  destruct (move_loop_returns self other cs to_add h1 dS dO Hne Hos Hoo Hbs Hbo)
    as (h3 & Hmove).
  { rewrite Hsets1, Hs1. exact Hsets. }
  { intros b Hb. destruct (Hadd b Hb) as (Hin & Hnone & Ho).
    unfold id_key. rewrite Ho. fold (id_key cs h b).
    destruct HiO as [_ HkO]. destruct (HkO _ b Hin) as [Hr _].
    split; [exact Hr|]. split; [now apply In_dict_get|].
    unfold dict_mem. now rewrite Hnone. }
  { apply (NoDup_map_inv (id_key cs h1)). exact Hnd_add. }
  unfold bind at 1. rewrite Hmove.
  pose proof (move_loop self other cs to_add h1 h3 dS dO Hne Hos Hoo Hbs Hbo) as Hfacts.
  destruct Hfacts as (Hbs3 & _ & Hos3 & _ & Hy3 & _); [| |exact Hmove|].
  { intros b Hb. destruct (Hadd b Hb) as (Hin & _ & ->).
    destruct HiO as [_ HkO]. now destruct (HkO _ b Hin). }
  { apply (NoDup_map_inv (id_key cs h1)). exact Hnd_add. }
  apply (remove_loop_returns self cs to_rem h3 _ Hos3 Hbs3).
  - intros z Hz. destruct (Hrem z Hz) as (k & Hin & Hnone & Hk).
    assert (Ho : objs h3 z = objs h1 z) by (apply Hy3; now apply Hapart).
    unfold id_key. rewrite Ho. fold (id_key cs h1 z). rewrite <- Hk.
    destruct HiS1 as [_ HkS]. destruct (HkS k z Hin) as [Hr _].
    split; [exact Hr|].
    rewrite set_keys_get_other; [now apply In_dict_get|].
    rewrite Hkeys_add. intros Hka. apply in_map_iff in Hka.
    destruct Hka as (b & Hkb & Hb). destruct (Hadd b Hb) as (_ & Hnone' & _).
    rewrite Hkb in Hnone'. rewrite (In_dict_get k z dS HndS Hin) in Hnone'.
    discriminate.
  - unfold to_rem. apply (index_ok_NoDup_values cs h1).
    destruct HiS1 as [HndS1 HkS]. split.
    + apply (NoDup_map_filter fst _ dS HndS1).
    + intros k y Hin. apply filter_In in Hin. apply HkS. tauto.
Qed.

(* ================================================================== *)
(** * Merging one element from another *)

Lemma for_each_merge_var_any (rec : sid -> sid -> M unit) (self : oid) (us : bool)
      (entries : list (string * pyval)) : forall h,
  forallb (fun e => match snd e with VSet _ => false | _ => true end) entries = true ->
  exists h',
    for_each entries
      (fun entry =>
         let (name, var) := entry in
         if skipped_name name us then ret tt
         else
           match var with
           | VSet other_set =>
               h <- get_heap ;;
               match assoc name (o_vars (objs h self)) with
               | Some (VSet self_set) => rec self_set other_set
               | Some _ => raise (No_attribute "update_nss_from")
               | None => raise (Dict_KeyError (VStr name))
               end
           | _ => write_obj self (fun o => set_o_vars (assoc_set name var (o_vars o)) o)
           end) h = (h', Ret tt) /\
    nsets h' = nsets h /\
    (forall y, y <> self -> objs h' y = objs h y) /\
    objs h' self = fold_left (merge_var us) entries (objs h self).
Proof.
  induction entries as [|[name var] entries IH]; intros h Hflat.
  - exists h. simpl. auto.
  - simpl in Hflat. apply andb_true_iff in Hflat. destruct Hflat as [Hv Hflat].
    cbn [for_each]. unfold bind at 1.
    assert (Hstep : exists h1,
      (if skipped_name name us then ret tt
       else match var with
            | VSet other_set =>
                h <- get_heap ;;
                match assoc name (o_vars (objs h self)) with
                | Some (VSet self_set) => rec self_set other_set
                | Some _ => raise (No_attribute "update_nss_from")
                | None => raise (Dict_KeyError (VStr name))
                end
            | _ => write_obj self (fun o => set_o_vars (assoc_set name var (o_vars o)) o)
            end) h = (h1, Ret tt) /\
      nsets h1 = nsets h /\
      (forall y, y <> self -> objs h1 y = objs h y) /\
      objs h1 self = merge_var us (objs h self) (name, var)).
    { unfold merge_var. simpl fst. simpl snd.
      destruct (skipped_name name us).
      - exists h. auto.
      - exists (upd_obj h self (set_o_vars (assoc_set name var (o_vars (objs h self)))
                                           (objs h self))).
        destruct var; try discriminate Hv;
          (split; [reflexivity | split; [reflexivity | split;
             [intros y Hy; now apply objs_upd_obj_other | apply objs_upd_obj_same]]]). }
    destruct Hstep as (h1 & Hrun & Hs1 & Ho1 & Hself1).
    rewrite Hrun.
    destruct (IH h1 Hflat) as (h' & Hrun' & Hs' & Ho' & Hself').
    exists h'. split; [exact Hrun'|].
    split; [congruence|].
    split; [intros y Hy; rewrite Ho' by exact Hy; now apply Ho1|].
    rewrite Hself'. simpl. now rewrite Hself1.
Qed.

Lemma fold_merge_var_vars (us : bool) (l : list (string * pyval)) (n : string) (v : pyval) :
  forall o,
  NoDup (map fst l) -> In (n, v) l -> skipped_name n us = false ->
  assoc n (o_vars (fold_left (merge_var us) l o)) = Some v.
Proof.
  induction l as [|[n' v'] l IH]; intros o Hnd Hin Hs; simpl in *; [tauto|].
  inversion Hnd as [|? ? Hn Hnd']. subst.
  destruct Hin as [H|H].
  - inversion H. subst n' v'.
    assert (Hkeep : forall o0, ~ In n (map fst l) ->
              assoc n (o_vars (fold_left (merge_var us) l o0)) = assoc n (o_vars o0)).
    { clear. induction l as [|[n1 v1] l IHl]; intros o0 Hn0; simpl in *; auto.
      rewrite IHl by tauto. unfold merge_var. simpl.
      destruct (skipped_name n1 us); auto.
      simpl. apply assoc_set_other. intros ->. tauto. }
    rewrite Hkeep by exact Hn.
    unfold merge_var. simpl. rewrite Hs. simpl. apply assoc_set_same.
  - now apply IH.
Qed.

(** X22.  [update_from] with an [other] that holds no nested set.  It
    returns for either value of [update_source] and writes only the
    receiver, which keeps its class, its parent and its own sets and gets
    the short-name of a [Referable] [other]; its source is the one of
    [other] when [update_source] is set and its own otherwise; and every
    instance variable of [other] but [parent], [namespace_element_sets]
    and, without [update_source], [source] is a variable of the receiver
    with the value [other] has. *)
Theorem update_from_flat_spec (fuel : nat) (self other : oid) (update_source : bool)
        (h : Heap) :
  flat (objs h other) = true ->
  isinstance (objs h other) Referable = true ->
  NoDup (map fst (o_vars (objs h other))) ->
  exists h',
    update_from fuel self other update_source h = (h', Ret tt) /\
    nsets h' = nsets h /\
    (forall y, y <> self -> objs h' y = objs h y) /\
    o_mro (objs h' self) = o_mro (objs h self) /\
    o_parent (objs h' self) = o_parent (objs h self) /\
    o_namespace_element_sets (objs h' self) = o_namespace_element_sets (objs h self) /\
    o_id_short (objs h' self) = o_id_short (objs h other) /\
    o_source (objs h' self)
    = (if update_source then o_source (objs h other) else o_source (objs h self)) /\
    (forall n v, In (n, v) (o_vars (objs h other)) ->
                 skipped_name n update_source = false ->
                 assoc n (o_vars (objs h' self)) = Some v).
Proof.
  intros Hflat Hr Hnd. unfold update_from, update_from_body.
  unfold bind at 1. unfold get_heap at 1.
  unfold bind at 1. unfold write_obj at 1, modify.
  destruct (for_each_merge_var_any (update_nss_from fuel) self update_source
              (o_vars (objs h other))
              (upd_obj h self (copy_fields (objs h other) update_source (objs h self)))
              Hflat) as (h' & Hrun & Hs & Ho & Hself).
  exists h'. split; [exact Hrun|]. split; [exact Hs|].
  split; [intros y Hy; rewrite Ho by exact Hy; now apply objs_upd_obj_other|].
  rewrite objs_upd_obj_same in Hself. rewrite Hself.
  destruct (fold_merge_var_frame update_source (o_vars (objs h other))
              (copy_fields (objs h other) update_source (objs h self)))
    as (H1 & H2 & H3 & H4 & H5).
  destruct (copy_fields_frame (objs h other) update_source (objs h self))
    as (G1 & G2 & G3).
  rewrite H1, H2, H3, H4, H5, G1, G2, G3.
  repeat split; try reflexivity.
  - unfold copy_fields. rewrite Hr.
    destruct update_source, (isinstance (objs h other) Identifiable),
      (isinstance (objs h other) HasSemantics), (isinstance (objs h other) Extension),
      (isinstance (objs h other) Qualifier); reflexivity.
  - unfold copy_fields. rewrite Hr.
    destruct update_source, (isinstance (objs h other) Identifiable),
      (isinstance (objs h other) HasSemantics), (isinstance (objs h other) Extension),
      (isinstance (objs h other) Qualifier); reflexivity.
  - intros n v Hin Hsk. now apply fold_merge_var_vars.
Qed.

(* ================================================================== *)
(** * The name of an extension *)

Lemma assoc_In {B : Type} (n : string) (b : list (string * B)) (v : B) :
  assoc n b = Some v -> In (n, v) b.
Proof.
  induction b as [|[n' v'] b IH]; simpl; [discriminate|].
  destruct (String.eqb n' n) eqn:E; [|auto].
  apply String.eqb_eq in E. intros [= ->]. subst. auto.
Qed.

(** X23.  The setter of [Extension.name] has no way out for an unchanged
    value.  A name that a set of the parent already holds, folded, under
    [name] is refused with [KeyError] before anything is touched; since
    the extension is still in its set when the check runs, assigning an
    extension the name it has raises that [KeyError] too. *)
Theorem Extension_set_name_collides (self parent : oid) (set_ : sid) (name : string)
        (h : Heap) (backend : pydict) (cs : bool) :
  o_parent (objs h self) = Some parent ->
  In set_ (o_namespace_element_sets (objs h parent)) ->
  assoc "name" (ns_backend (nsets h set_)) = Some (backend, cs) ->
  (dict_mem (fold_case cs (VStr name)) backend = true ->
   Extension_set_name self name h = (h, Exc (Name_present_in_parent name))) /\
  (isinstance (objs h self) Extension = true ->
   o_name (objs h self) = VStr name ->
   properly_indexed h set_ self ->
   Extension_set_name self name h = (h, Exc (Name_present_in_parent name))).
Proof.
  intros Hpar Hin Ha.
  assert (Hgen : dict_mem (fold_case cs (VStr name)) backend = true ->
                 Extension_set_name self name h = (h, Exc (Name_present_in_parent name))).
  { intros Hmem. unfold Extension_set_name. rewrite Hpar.
    assert (Hex : existsb (fun s => contains_id (nsets h s) "name" (VStr name))
                          (o_namespace_element_sets (objs h parent)) = true).
    { apply existsb_exists. exists set_. split; [exact Hin|].
      unfold contains_id. now rewrite Ha. }
    now rewrite Hex. }
  split; [exact Hgen|].
  intros He Hname Hix. apply Hgen.
  destruct (Hix "name" backend cs (assoc_In "name" _ _ Ha)) as (k & Hk & Hd).
  unfold _get_attribute, getattr in Hk. simpl in Hk. rewrite He, Hname in Hk.
  simpl in Hk. injection Hk as <-. unfold dict_mem.
  change (fold_case cs (VStr name)) with (if cs then VStr name else VStr (upper name)).
  now rewrite Hd.
Qed.

End ReconciliationReturns.

Section ReconciliationReturnsExamples.

#[local] Existing Instance ascii_runtime.

Lemma update_nss_from_returns_witness :
  exists h', update_nss_from 1 8 9 store6 = (h', Ret tt).
Proof.
  apply (update_nss_from_returns 0 8 9 store6
           [(VStr "X", 51); (VStr "Z", 52)] [(VStr "X", 61); (VStr "Y", 62)] false).
  - discriminate.
  - reflexivity.
  - reflexivity.
  - reflexivity.
  - reflexivity.
  - split.
    + repeat constructor; simpl; intuition discriminate.
    + intros k y [[= <- <-]|[[= <- <-]|[]]]; split; reflexivity.
  - split.
    + repeat constructor; simpl; intuition discriminate.
    + intros k y [[= <- <-]|[[= <- <-]|[]]]; split; reflexivity.
  - intros y [<-|[<-|[]]]; simpl; intuition discriminate.
  - intros k y Hin Hmem. destruct Hin as [Hin|[Hin|[]]]; inversion Hin; subst;
      [reflexivity | discriminate Hmem].
  - reflexivity.
Defined.

Lemma update_from_flat_spec_witness :
  exists h',
    update_from 0 51 61 false store6 = (h', Ret tt) /\
    o_id_short (objs h' 51) = "X" /\
    assoc "v" (o_vars (objs h' 51)) = Some (VInt 2) /\
    o_parent (objs h' 51) = Some 50.
Proof.
  destruct (update_from_flat_spec 0 51 61 false store6)
    as (h' & H1 & _ & _ & _ & H5 & _ & H7 & _ & H9).
  - reflexivity.
  - reflexivity.
  - repeat constructor. simpl. tauto.
  - exists h'. split; [exact H1|]. split; [exact H7|]. split.
    + apply H9; [simpl; auto | reflexivity].
    + rewrite H5. reflexivity.
Defined.

Lemma store7_indexed : properly_indexed store7 10 71.
Proof.
  intros n d cs Hin. vm_compute in Hin. destruct Hin as [[= <- <- <-]|[]].
  exists (VStr "unit"). split; reflexivity.
Qed.

Lemma Extension_set_name_collides_witness :
  Extension_set_name 71 "unit" store7 = (store7, Exc (Name_present_in_parent "unit")).
Proof.
  destruct (Extension_set_name_collides 71 70 10 "unit" store7 [(VStr "unit", 71)] true)
    as (_ & H).
  - reflexivity.
  - simpl. auto.
  - reflexivity.
  - apply H; [reflexivity | reflexivity | exact store7_indexed].
Defined.

End ReconciliationReturnsExamples.

